(** * Model Catalog and Mesh Preparation: a shallow embedding of [app.py]

    The development follows the Python source function by function.  Paths and
    file names are strings over the characters with code points 0 to 255
    ([ascii]); the storage is observed through
    the same calls the source makes ([os.path.exists], [os.scandir], ...);
    mesh coordinates are exact rationals.  Library functions the source calls
    ([posixpath], [fnmatch], [glob], [os.walk], [trimesh]) are modelled in
    modules carrying the library's name.

    Part I holds the definitions, Part II the lemmas and theorems. *)

From Stdlib Require Import Bool List Arith NArith ZArith Lia Ascii String QArith Qabs Lqa.
Import ListNotations.

Close Scope Q_scope.
Open Scope nat_scope.
Open Scope list_scope.
Open Scope string_scope.

(* ================================================================== *)
(** * Part I. Definitions *)
(* ================================================================== *)

(** ** Python [str] methods used by the source *)

Module Str.

Definition is_empty (s : string) : bool :=
  match s with EmptyString => true | String _ _ => false end.

(** [s.startswith(p)] *)
Definition startswith (s p : string) : bool := String.prefix p s.

(** [s.endswith(c)] for a one-character suffix. *)
Fixpoint endswith_char (s : string) (c : ascii) : bool :=
  match s with
  | EmptyString => false
  | String a EmptyString => Ascii.eqb a c
  | String _ r => endswith_char r c
  end.

(** [c in s] for a character. *)
Fixpoint mem_char (c : ascii) (s : string) : bool :=
  match s with
  | EmptyString => false
  | String a r => Ascii.eqb a c || mem_char c r
  end.

(** [p in s] for a substring. *)
Fixpoint contains (s p : string) : bool :=
  String.prefix p s ||
  match s with
  | EmptyString => false
  | String _ r => contains r p
  end.

(** [c.lower()] on the code points 0 to 255: the capitals A-Z and the
    accented capitals 192-222 (the multiplication sign 215 apart) move up
    by 32. *)
Definition lower_char (c : ascii) : ascii :=
  let n := nat_of_ascii c in
  if ((65 <=? n)%nat && (n <=? 90)%nat)
     || ((192 <=? n)%nat && (n <=? 222)%nat && negb (n =? 215)%nat)
  then ascii_of_nat (n + 32) else c.

(** [s.lower()] *)
Fixpoint lower (s : string) : string :=
  match s with
  | EmptyString => EmptyString
  | String c r => String (lower_char c) (lower r)
  end.

(** [c.upper()] on the code points 0 to 255: the small letters a-z and
    the accented small letters 224-254 (the division sign 247 apart) move
    down by 32.  The three letters whose capital is not one code point below
    256 (181, 223 and 255) are left as they are. *)
Definition upper_char (c : ascii) : ascii :=
  let n := nat_of_ascii c in
  if ((97 <=? n)%nat && (n <=? 122)%nat)
     || ((224 <=? n)%nat && (n <=? 254)%nat && negb (n =? 247)%nat)
  then ascii_of_nat (n - 32) else c.

(** [s.upper()] *)
Fixpoint upper (s : string) : string :=
  match s with
  | EmptyString => EmptyString
  | String c r => String (upper_char c) (upper r)
  end.

(** [s[1:]] *)
Definition tail (s : string) : string :=
  match s with
  | EmptyString => EmptyString
  | String _ r => r
  end.

(** [s.split(sep)]: the pieces between the occurrences of [sep]; never an
    empty list. *)
Fixpoint split (sep : ascii) (s : string) : list string :=
  match s with
  | EmptyString => [EmptyString]
  | String c r =>
      if Ascii.eqb c sep then EmptyString :: split sep r
      else match split sep r with
           | h :: t => String c h :: t
           | [] => [String c EmptyString]
           end
  end.

(** [sep.join(l)] *)
Fixpoint join (sep : string) (l : list string) : string :=
  match l with
  | [] => EmptyString
  | [x] => x
  | x :: r => x ++ sep ++ join sep r
  end.

(** [s.rfind(c)] as a cut: [Some (s[:i], s[i+1:])] at the last occurrence
    [i] of [c], [None] where Python returns -1. *)
Fixpoint rcut (c : ascii) (s : string) : option (string * string) :=
  match s with
  | EmptyString => None
  | String a r =>
      match rcut c r with
      | Some (h, t) => Some (String a h, t)
      | None => if Ascii.eqb a c then Some (EmptyString, r) else None
      end
  end.

(** [s.rstrip(c)] *)
Fixpoint rstrip (c : ascii) (s : string) : string :=
  match s with
  | EmptyString => EmptyString
  | String a r =>
      let r' := rstrip c r in
      if is_empty r' && Ascii.eqb a c then EmptyString else String a r'
  end.

(** [s == c * len(s)] *)
Fixpoint all_char (c : ascii) (s : string) : bool :=
  match s with
  | EmptyString => true
  | String a r => Ascii.eqb a c && all_char c r
  end.

(** Insertion into a sorted list; [String.leb] is the order of Python
    strings: lexicographic, by code point. *)
Fixpoint insert (x : string) (l : list string) : list string :=
  match l with
  | [] => [x]
  | y :: r => if String.leb x y then x :: l else y :: insert x r
  end.

(** [l.sort()] *)
Fixpoint sort (l : list string) : list string :=
  match l with
  | [] => []
  | x :: r => insert x (sort r)
  end.

End Str.

(** ** [posixpath] *)

Module posixpath.

Definition sep : ascii := "/"%char.

(** [os.path.join(a, b)] *)
Definition join (a b : string) : string :=
  if Str.startswith b "/" then b
  else if Str.is_empty a || Str.endswith_char a sep then a ++ b
  else a ++ "/" ++ b.

(** [os.path.split(p)]: head up to the last slash, with its trailing
    slashes stripped unless it is made of slashes only, and the tail. *)
Definition split (p : string) : string * string :=
  match Str.rcut sep p with
  | None => (EmptyString, p)
  | Some (h, t) =>
      let head := h ++ "/" in
      (if Str.all_char sep head then head else Str.rstrip sep head, t)
  end.

(** [os.path.basename(p)] *)
Definition basename (p : string) : string :=
  match Str.rcut sep p with
  | None => p
  | Some (_, t) => t
  end.

(** [os.path.splitext(p)]: the extension starts at the last dot of the last
    component, unless only dots precede it there. *)
Definition splitext (p : string) : string * string :=
  let (dir, base) :=
    match Str.rcut sep p with
    | None => (EmptyString, p)
    | Some (h, t) => (h ++ "/", t)
    end in
  match Str.rcut "."%char base with
  | None => (p, EmptyString)
  | Some (stem, e) =>
      if Str.all_char "."%char stem then (p, EmptyString)
      else (dir ++ stem, String "."%char e)
  end.

(** [os.path.isabs(p)] *)
Definition isabs (p : string) : bool := Str.startswith p "/".

(** One turn of the component loop of [normpath]. *)
Definition norm_step (initial_slashes : nat) (new_comps : list string)
           (comp : string) : list string :=
  if String.eqb comp "" || String.eqb comp "." then new_comps
  else if negb (String.eqb comp "..")
          || (Nat.eqb initial_slashes 0
              && match new_comps with [] => true | _ => false end)
          || match rev new_comps with
             | last :: _ => String.eqb last ".."
             | [] => false
             end
       then (new_comps ++ [comp])%list
       else removelast new_comps.

Definition initial_slashes (path : string) : nat :=
  if Str.startswith path "/" then
    if Str.startswith path "//" && negb (Str.startswith path "///") then 2
    else 1
  else 0.

(** The list [new_comps] that [normpath] builds. *)
Definition norm_comps (path : string) : list string :=
  fold_left (norm_step (initial_slashes path)) (Str.split sep path) [].

(** [os.path.normpath(path)] *)
Definition normpath (path : string) : string :=
  if Str.is_empty path then "."
  else
    let body := Str.join "/" (norm_comps path) in
    let full :=
      match initial_slashes path with
      | 0 => body
      | 1 => "/" ++ body
      | _ => "//" ++ body
      end in
    if Str.is_empty full then "." else full.

(** [os.path.abspath(path)], with the working directory [cwd] that
    [os.getcwd()] returns. *)
Definition abspath (cwd path : string) : string :=
  normpath (if isabs path then path else join cwd path).

(** [os.path.commonprefix([l1, l2])] on two lists of components: their
    longest common prefix. *)
Fixpoint commonprefix (l1 l2 : list string) : list string :=
  match l1, l2 with
  | x :: r1, y :: r2 => if String.eqb x y then x :: commonprefix r1 r2 else []
  | _, _ => []
  end.

(** [join] applied to all the components of [rel_list]. *)
Definition join_all (l : list string) : string :=
  match l with
  | [] => EmptyString
  | x :: r => fold_left join r x
  end.

(** [os.path.relpath(path, start)]; [None] stands for the [ValueError]
    raised on an empty [path]. *)
Definition relpath (cwd path start : string) : option string :=
  if Str.is_empty path then None
  else
    let nonempty := filter (fun x => negb (Str.is_empty x)) in
    let start_list := nonempty (Str.split sep (abspath cwd start)) in
    let path_list := nonempty (Str.split sep (abspath cwd path)) in
    let i := List.length (commonprefix start_list path_list) in
    let rel_list :=
      (repeat ".." (List.length start_list - i) ++ skipn i path_list)%list in
    match rel_list with
    | [] => Some "."
    | _ => Some (join_all rel_list)
    end.

End posixpath.

(** ** [fnmatch] *)

Module fnmatch.

(** The pieces [translate] turns a shell pattern into.  A bracket
    expression is kept as its list of chunks: the characters of every chunk
    are members, and so is every character between the last character of
    a chunk and the first of the next one. *)
Inductive tok : Type :=
| STAR
| AnyChar
| Lit (c : ascii)
| Class (negated : bool) (chunks : list string).

(** [s[:i], s[i+1:]] at the first occurrence [i] of [c]. *)
Fixpoint lcut (c : ascii) (s : string) : option (string * string) :=
  match s with
  | EmptyString => None
  | String a r =>
      if Ascii.eqb a c then Some (EmptyString, r)
      else match lcut c r with
           | Some (h, t) => Some (String a h, t)
           | None => None
           end
  end.

(** The scan for the closing bracket: an exclamation mark and a closing
    bracket right after the opening one do not close it.  Returns the text
    between the brackets and what follows the closing one. *)
Definition bracket (s : string) : option (string * string) :=
  let (p1, s1) :=
    match s with
    | String "!"%char r => ("!", r)
    | _ => (EmptyString, s)
    end in
  let (p2, s2) :=
    match s1 with
    | String "]"%char r => ("]", r)
    | _ => (EmptyString, s1)
    end in
  match lcut "]"%char s2 with
  | Some (mid, rest) => Some (p1 ++ p2 ++ mid, rest)
  | None => None
  end.

(** The chunks of a bracket expression: it is cut at every hyphen found
    by [pat.find('-', k, j)]; the search skips [skip] characters first, and
    two characters after each hyphen found.  [cur] is the chunk being read.
    A hyphen that ends the text joins the last chunk. *)
Fixpoint chunks_from (skip : nat) (cur : string) (s : string) : list string :=
  match s with
  | EmptyString => [cur]
  | String c r =>
      match skip with
      | S k => chunks_from k (cur ++ String c EmptyString) r
      | O =>
          if Ascii.eqb c "-"%char then
            match r with
            | EmptyString => [cur ++ "-"]
            | _ => cur :: chunks_from 2 EmptyString r
            end
          else chunks_from 0 (cur ++ String c EmptyString) r
      end
  end.

Definition first_char (s : string) : option ascii :=
  match s with EmptyString => None | String c _ => Some c end.

Fixpoint last_char (s : string) : option ascii :=
  match s with
  | EmptyString => None
  | String c EmptyString => Some c
  | String _ r => last_char r
  end.

Fixpoint drop_last (s : string) : string :=
  match s with
  | EmptyString => EmptyString
  | String _ EmptyString => EmptyString
  | String c r => String c (drop_last r)
  end.

Definition drop_first (s : string) : string :=
  match s with EmptyString => EmptyString | String _ r => r end.

Definition char_ltb (a b : ascii) : bool :=
  (nat_of_ascii a <? nat_of_ascii b)%nat.
Definition char_leb (a b : ascii) : bool :=
  (nat_of_ascii a <=? nat_of_ascii b)%nat.

(** Removal of the empty ranges, from the right: a range whose start lies
    after its end disappears with both its ends. *)
Fixpoint prune (chunks : list string) : list string :=
  match chunks with
  | [] => []
  | c :: rest =>
      match prune rest with
      | [] => [c]
      | d :: more =>
          match last_char c, first_char d with
          | Some x, Some y =>
              if char_ltb y x then (drop_last c ++ drop_first d) :: more
              else c :: d :: more
          | _, _ => c :: d :: more
          end
      end
  end.

(** The bracket expression [[stuff]] as a token. *)
Definition class_of (stuff : string) : tok :=
  let negated0 := match stuff with String "!"%char _ => true | _ => false end in
  let chunks := prune (chunks_from (if negated0 then 2 else 1) EmptyString stuff) in
  match chunks with
  | String "!"%char c0 :: more => Class true (c0 :: more)
  | _ => Class false chunks
  end.

(** The first loop of [translate], before consecutive stars are merged. *)
Fixpoint scan (fuel : nat) (pat : string) : list tok :=
  match fuel with
  | O => []
  | S fuel' =>
      match pat with
      | EmptyString => []
      | String c r =>
          if Ascii.eqb c "*"%char then STAR :: scan fuel' r
          else if Ascii.eqb c "?"%char then AnyChar :: scan fuel' r
          else if Ascii.eqb c "["%char then
            match bracket r with
            | None => Lit "["%char :: scan fuel' r
            | Some (stuff, rest) => class_of stuff :: scan fuel' rest
            end
          else Lit c :: scan fuel' r
      end
  end.

(** Consecutive stars are compressed into one. *)
Fixpoint compress (ts : list tok) : list tok :=
  match ts with
  | STAR :: ((STAR :: _) as r) => compress r
  | t :: r => t :: compress r
  | [] => []
  end.

(** [translate(pat)], as tokens rather than as the text of a regular
    expression. *)
Definition translate (pat : string) : list tok :=
  compress (scan (String.length pat) pat).

Fixpoint in_ranges (chunks : list string) (ch : ascii) : bool :=
  match chunks with
  | c :: ((d :: _) as rest) =>
      match last_char c, first_char d with
      | Some lo, Some hi => char_leb lo ch && char_leb ch hi
      | _, _ => false
      end || in_ranges rest ch
  | _ => false
  end.

Definition in_class (chunks : list string) (ch : ascii) : bool :=
  existsb (Str.mem_char ch) chunks || in_ranges chunks ch.

(** One character against one token that is not a star. *)
Definition tok_match (t : tok) (ch : ascii) : bool :=
  match t with
  | STAR => true
  | AnyChar => true
  | Lit c => Ascii.eqb c ch
  | Class negated chunks => xorb negated (in_class chunks ch)
  end.

(** The whole of [s] against the tokens: what [re.compile(res).match]
    decides for the expression built from them. *)
Fixpoint matches (ts : list tok) (s : string) {struct ts} : bool :=
  match ts with
  | [] => Str.is_empty s
  | STAR :: ts' =>
      (fix star (s : string) : bool :=
         matches ts' s ||
         match s with
         | EmptyString => false
         | String _ r => star r
         end) s
  | t :: ts' =>
      match s with
      | EmptyString => false
      | String ch r => tok_match t ch && matches ts' r
      end
  end.

(** [fnmatch.fnmatchcase(name, pat)] *)
Definition fnmatchcase (name pat : string) : bool :=
  matches (translate pat) name.

(** [fnmatch.filter(names, pat)]; [normcase] is the identity on POSIX. *)
Definition filter (names : list string) (pat : string) : list string :=
  List.filter (fun name => fnmatchcase name pat) names.

End fnmatch.

(** ** The storage, as the source observes it *)

(** What the path queries of the source answer.  [scandir p] lists the names
    of the entries of directory [p] in the order [os.scandir] yields them,
    and nothing when [p] cannot be listed (the loops of [glob] and [os.walk]
    swallow the [OSError]).  [read_text p] is
    [open(p, 'r', encoding='utf-8', errors='replace').read()]: the text, or
    the message of the exception raised. *)
Record Storage : Type := mkStorage {
  path_exists : string -> bool;
  path_lexists : string -> bool;
  path_isdir : string -> bool;
  scandir : string -> list string;
  read_text : string -> string + string
}.

(** ** [glob] *)

Module glob.

(** [magic_check.search(s) is not None] *)
Definition has_magic (s : string) : bool :=
  Str.mem_char "*"%char s || Str.mem_char "?"%char s || Str.mem_char "["%char s.

(** [path[0] == '.'], for the non-empty names and patterns it is used on. *)
Definition _ishidden (path : string) : bool :=
  match path with
  | String "."%char _ => true
  | _ => false
  end.

Definition _join (dirname basename : string) : string :=
  if Str.is_empty dirname || Str.is_empty basename
  then (if Str.is_empty dirname then basename else dirname)
  else posixpath.join dirname basename.

(** [_listdir(dirname, None, dironly)]: the current directory stands for an
    empty [dirname]; with [dironly], only the entries that are
    directories. *)
Definition _listdir (st : Storage) (dirname : string) (dironly : bool)
  : list string :=
  let arg := if Str.is_empty dirname then "." else dirname in
  List.filter (fun name => negb dironly || path_isdir st (posixpath.join arg name))
              (scandir st arg).

Definition _glob1 (st : Storage) (dirname pattern : string) (dironly : bool)
  : list string :=
  let names := _listdir st dirname dironly in
  let names :=
    if negb (_ishidden pattern)
    then List.filter (fun x => negb (_ishidden x)) names
    else names in
  fnmatch.filter names pattern.

Definition _glob0 (st : Storage) (dirname basename : string) (dironly : bool)
  : list string :=
  if negb (Str.is_empty basename) then
    if path_lexists st (_join dirname basename) then [basename] else []
  else
    if path_isdir st dirname then [basename] else [].

(** [_iglob(pathname, '', None, False, dironly)].  The recursion is on the
    directory part of the pattern, which is shorter than the pattern
    whenever it is taken; [fuel] bounds it. *)
Fixpoint _iglob (st : Storage) (fuel : nat) (pathname : string)
         (dironly : bool) : list string :=
  match fuel with
  | O => []
  | S fuel' =>
      let (dirname, basename) := posixpath.split pathname in
      if negb (has_magic pathname) then
        if negb (Str.is_empty basename) then
          if path_lexists st pathname then [pathname] else []
        else
          if path_isdir st dirname then [pathname] else []
      else if Str.is_empty dirname then
        _glob1 st EmptyString basename dironly
      else
        let dirs :=
          if negb (String.eqb dirname pathname) && has_magic dirname
          then _iglob st fuel' dirname true
          else [dirname] in
        let glob_in_dir := if has_magic basename then _glob1 else _glob0 in
        flat_map (fun dirname =>
                    map (posixpath.join dirname)
                        (glob_in_dir st dirname basename dironly))
                 dirs
  end.

(** [glob.glob(pathname)] *)
Definition glob (st : Storage) (pathname : string) : list string :=
  _iglob st (S (String.length pathname)) pathname false.

End glob.

(** ** [os.walk] *)

Module os.

(** The content of a directory as [os.walk] sees it: the names of its
    entries that are not directories and its subdirectories, each in
    [os.scandir] order.  A subdirectory that is a symbolic link or cannot
    be listed is not walked into; for the loops of the source, which read
    only the file names, that is an empty listing. *)
#[local] Unset Elimination Schemes.
Inductive Dir : Type :=
| mkDir (nondirs : list string) (dirs : list (string * Dir)).
#[local] Set Elimination Schemes.

Definition nondirs_of (d : Dir) : list string :=
  match d with mkDir nondirs _ => nondirs end.

Definition dirs_of (d : Dir) : list (string * Dir) :=
  match d with mkDir _ dirs => dirs end.

(** [os.walk(top)], top-down: the triples [(root, dirs, files)]. *)
Fixpoint walk (top : string) (d : Dir)
  : list (string * list string * list string) :=
  match d with
  | mkDir nondirs dirs =>
      (top, map fst dirs, nondirs)
        :: flat_map (fun entry => walk (posixpath.join top (fst entry)) (snd entry))
                    dirs
  end.

End os.

(** ** Directory Scanner ([app.py], lines 42-154 and 342-457) *)

(** [AppConfig.model_extensions] and [AppConfig.image_extensions], as
    [__post_init__] sets them. *)
Definition model_extensions : list string := [".stl"; ".obj"; ".3mf"].
Definition image_extensions : list string := [".png"; ".jpg"; ".jpeg"].

(** [x in l] for a list of strings. *)
Definition mem_string (x : string) (l : list string) : bool :=
  existsb (String.eqb x) l.

(** [matches[0]] after [matches.sort()], behind the test [if matches:]. *)
Definition first_sorted (matches : list string) : option string :=
  match matches with
  | [] => None
  | _ => hd_error (Str.sort matches)
  end.

(** [find_first_match(directory, pattern)] *)
Definition find_first_match (st : Storage) (directory pattern : string)
  : option string :=
  first_sorted (glob.glob st (posixpath.join directory pattern)).

(** [find_in_images_dir(directory)] *)
Definition find_in_images_dir (st : Storage) (directory : string)
  : option string :=
  let images_dir := posixpath.join directory "images" in
  if negb (path_exists st images_dir) then None
  else
    let image_files :=
      flat_map (fun ext => glob.glob st (posixpath.join images_dir ("*" ++ ext)))
               [".png"; ".jpg"; ".jpeg"] in
    first_sorted image_files.

(** The truth value Python gives to a result that is a string or [None]. *)
Definition truthy (r : option string) : bool :=
  match r with
  | Some s => negb (Str.is_empty s)
  | None => false
  end.

(** The list [search_strategies] of [find_thumbnail]; a thunk is a value
    here, the storage being fixed. *)
Definition search_strategies (st : Storage) (directory thing_id : string)
  : list (option string) :=
  [ find_in_images_dir st directory;
    find_first_match st directory "*_Thumbnail*.png";
    find_first_match st directory ("*" ++ thing_id ++ "*Thumbnail*.png");
    find_first_match st directory "*.png" ].

(** The loop of [find_thumbnail]: the first result that is true. *)
Fixpoint first_truthy (results : list (option string)) : option string :=
  match results with
  | [] => None
  | thumbnail :: rest => if truthy thumbnail then thumbnail else first_truthy rest
  end.

(** [find_thumbnail(directory, thing_id)] *)
Definition find_thumbnail (st : Storage) (directory thing_id : string)
  : option string :=
  first_truthy (search_strategies st directory thing_id).

(** [readme_patterns] *)
Definition readme_patterns : list string :=
  [ "README.txt"; "readme.txt"; "ReadMe.txt"; "Readme.txt";
    "README.md"; "readme.md"; "ReadMe.md"; "Readme.md";
    "instructions.txt"; "Instructions.txt";
    "description.txt"; "Description.txt" ].

(** Strategy 1 of [find_readme]: the candidates in the root, in order. *)
Fixpoint readme_in_root (st : Storage) (directory : string)
         (patterns : list string) : option string :=
  match patterns with
  | [] => None
  | pattern :: rest =>
      let readme_path := posixpath.join directory pattern in
      if path_exists st readme_path then Some readme_path
      else readme_in_root st directory rest
  end.

(** The inner loop of strategy 2 over the files of one directory. *)
Fixpoint readme_among (lowercase_patterns : list string) (root : string)
         (files : list string) : option string :=
  match files with
  | [] => None
  | file :: rest =>
      if mem_string (Str.lower file) lowercase_patterns
      then Some (posixpath.join root file)
      else readme_among lowercase_patterns root rest
  end.

(** Strategy 2 of [find_readme]: the outer loop over the walk. *)
Fixpoint readme_in_walk (lowercase_patterns : list string)
         (triples : list (string * list string * list string)) : option string :=
  match triples with
  | [] => None
  | (root, _, files) :: rest =>
      match readme_among lowercase_patterns root files with
      | Some p => Some p
      | None => readme_in_walk lowercase_patterns rest
      end
  end.

(** [find_readme(directory)]; [tree] is what [os.walk(directory)] finds. *)
Definition find_readme (st : Storage) (directory : string) (tree : os.Dir)
  : option string :=
  match readme_in_root st directory readme_patterns with
  | Some readme_path => Some readme_path
  | None =>
      let lowercase_patterns := map Str.lower readme_patterns in
      readme_in_walk lowercase_patterns (os.walk directory tree)
  end.

(** [get_readme_content(directory)] *)
Definition get_readme_content (st : Storage) (directory : string)
           (tree : os.Dir) : option string * string :=
  let readme_path := find_readme st directory tree in
  let readme_content :=
    match readme_path with
    | Some p =>
        if Str.is_empty p then EmptyString
        else match read_text st p with
             | inl text => text
             | inr e => "Error reading README: " ++ e
             end
    | None => EmptyString
    end in
  (readme_path, readme_content).

(** The inner loop of [find_model_files] over the files of one directory.
    [None] is the [ValueError] of [os.path.relpath]. *)
Fixpoint model_files_among (cwd directory root : string) (files : list string)
  : option (list (string * string)) :=
  match files with
  | [] => Some []
  | file :: rest =>
      let file_ext := Str.lower (snd (posixpath.splitext file)) in
      if mem_string file_ext model_extensions then
        let abs_path := posixpath.join root file in
        match posixpath.relpath cwd abs_path directory with
        | None => None
        | Some rel_path =>
            option_map (cons (rel_path, abs_path))
                       (model_files_among cwd directory root rest)
        end
      else model_files_among cwd directory root rest
  end.

(** The outer loop of [find_model_files] over the walk. *)
Fixpoint model_files_in_walk (cwd directory : string)
         (triples : list (string * list string * list string))
  : option (list (string * string)) :=
  match triples with
  | [] => Some []
  | (root, _, files) :: rest =>
      match model_files_among cwd directory root files with
      | None => None
      | Some here =>
          option_map (app here) (model_files_in_walk cwd directory rest)
      end
  end.

(** [find_model_files(directory)], run in the working directory [cwd]. *)
Definition find_model_files (cwd directory : string) (tree : os.Dir)
  : option (list (string * string)) :=
  model_files_in_walk cwd directory (os.walk directory tree).

(** [c.isdigit()] on the code points 0 to 255 that [\d] matches. *)
Definition is_digit (c : ascii) : bool :=
  let n := nat_of_ascii c in (48 <=? n)%nat && (n <=? 57)%nat.

(** [s] is made of digits only; the empty string qualifies. *)
Fixpoint all_digits (s : string) : bool :=
  match s with
  | EmptyString => true
  | String c r => is_digit c && all_digits r
  end.

Fixpoint take_digits (s : string) : string :=
  match s with
  | String c r => if is_digit c then String c (take_digits r) else EmptyString
  | EmptyString => EmptyString
  end.

(** [re.search(r'(\d+)', model_name)] and its [group(1)]: the first run of
    digits. *)
Fixpoint search_digits (model_name : string) : option string :=
  match model_name with
  | EmptyString => None
  | String c r =>
      if is_digit c then Some (take_digits model_name) else search_digits r
  end.

(** The dictionary [get_model_info] returns. *)
Record ModelInfo : Type := mkModelInfo {
  name : string;
  path : string;
  thing_id : option string;
  thumbnail_path : option string;
  model_files : list (string * string);
  model_count : nat;
  readme_path : option string;
  readme_content : string
}.

(** [thing_id or ""] *)
Definition or_empty (thing_id : option string) : string :=
  match thing_id with
  | Some s => s
  | None => EmptyString
  end.

(** [get_model_info(model_path, model_name)]; [None] when
    [find_model_files] raises. *)
Definition get_model_info (st : Storage) (cwd : string) (tree : os.Dir)
           (model_path model_name : string) : option ModelInfo :=
  let thing_id := search_digits model_name in
  let thumbnail_path := find_thumbnail st model_path (or_empty thing_id) in
  match find_model_files cwd model_path tree with
  | None => None
  | Some model_files =>
      let (readme_path, readme_content) := get_readme_content st model_path tree in
      Some (mkModelInfo model_name model_path thing_id thumbnail_path
                        model_files (List.length model_files)
                        readme_path readme_content)
  end.

(** ** Concrete storages, for the examples *)

(** A storage given by the listing of its directories: a path exists when it
    is one of the listed directories or an entry of one of them, named as
    [os.path.join] names it; every file reads as the empty text. *)
Definition listing := list (string * list string).

Fixpoint entries_of (l : listing) (p : string) : list string :=
  match l with
  | [] => []
  | (d, names) :: rest => if String.eqb d p then names else entries_of rest p
  end.

Definition is_listed_dir (l : listing) (p : string) : bool :=
  mem_string p (map fst l).

Definition is_listed_path (l : listing) (p : string) : bool :=
  is_listed_dir l p
  || existsb (fun dn => mem_string p (map (posixpath.join (fst dn)) (snd dn))) l.

Definition storage_reading (l : listing) (reader : string -> string + string)
  : Storage :=
  mkStorage (is_listed_path l) (is_listed_path l) (is_listed_dir l)
            (entries_of l) reader.

Definition storage_of (l : listing) : Storage :=
  storage_reading l (fun _ => inl EmptyString).

(** ** [trimesh]: the mesh and the calls the source makes on it

    Coordinates are exact rationals; the rounding of floating-point
    arithmetic is left out. *)

Module trimesh.

Open Scope Q_scope.

Definition V3 : Type := (Q * Q * Q)%type.

Definition vx (v : V3) : Q := fst (fst v).
Definition vy (v : V3) : Q := snd (fst v).
Definition vz (v : V3) : Q := snd v.

Definition vzero : V3 := (0, 0, 0).
Definition vadd (a b : V3) : V3 := (vx a + vx b, vy a + vy b, vz a + vz b).
Definition vsub (a b : V3) : V3 := (vx a - vx b, vy a - vy b, vz a - vz b).
Definition vmul (a b : V3) : V3 := (vx a * vx b, vy a * vy b, vz a * vz b).
Definition vneg (a : V3) : V3 := (- vx a, - vy a, - vz a).
Definition vscale (s : Q) (a : V3) : V3 := (s * vx a, s * vy a, s * vz a).

(** Equality of coordinates as rational numbers. *)
Definition veq (a b : V3) : Prop := vx a == vx b /\ vy a == vy b /\ vz a == vz b.

(** [np.cross(a, b)] *)
Definition cross (a b : V3) : V3 :=
  (vy a * vz b - vz a * vy b,
   vz a * vx b - vx a * vz b,
   vx a * vy b - vy a * vx b).

(** A [Trimesh]: vertex positions and triangular faces indexing them. *)
Record Mesh : Type := mkMesh {
  vertices : list V3;
  faces : list (nat * nat * nat)
}.

(** [vertices[i]], for the indices of the faces, which are indices of
    vertices. *)
Definition vertex (m : Mesh) (i : nat) : V3 := nth i (vertices m) vzero.

(** [mesh.triangles]: [vertices[faces]]. *)
Definition triangles (m : Mesh) : list (V3 * V3 * V3) :=
  map (fun f => match f with
                | (a, b, c) => (vertex m a, vertex m b, vertex m c)
                end)
      (faces m).

(** [mesh.referenced_vertices] as a test on an index. *)
Definition is_referenced (m : Mesh) (i : nat) : bool :=
  existsb (fun f => match f with
                    | (a, b, c) => Nat.eqb a i || Nat.eqb b i || Nat.eqb c i
                    end)
          (faces m).

(** [mesh.vertices[mesh.referenced_vertices]] *)
Definition in_mesh (m : Mesh) : list V3 :=
  map snd
      (filter (fun iv => is_referenced m (fst iv))
              (combine (seq 0 (List.length (vertices m))) (vertices m))).

Definition qmin (a b : Q) : Q := if Qle_bool a b then a else b.
Definition qmax (a b : Q) : Q := if Qle_bool a b then b else a.

(** [min] and [max] of a column, from its first entry on. *)
Definition column_min (x : Q) (l : list Q) : Q := fold_left qmin l x.
Definition column_max (x : Q) (l : list Q) : Q := fold_left qmax l x.

(** [mesh.bounds]: the corners of the axis-aligned box around the
    referenced vertices, [None] when there is none. *)
Definition bounds (m : Mesh) : option (V3 * V3) :=
  match in_mesh m with
  | [] => None
  | v :: r =>
      Some ((column_min (vx v) (map vx r),
             column_min (vy v) (map vy r),
             column_min (vz v) (map vz r)),
            (column_max (vx v) (map vx r),
             column_max (vy v) (map vy r),
             column_max (vz v) (map vz r)))
  end.

(** [mesh.extents]: the edge lengths of that box. *)
Definition extents (m : Mesh) : option V3 :=
  match bounds m with
  | None => None
  | Some (lo, hi) => Some (vsub hi lo)
  end.

(** [trimesh.triangles.cross]: the cross product of the two edge vectors
    [v1 - v0] and [v2 - v1] of a triangle. *)
Definition triangle_cross (t : V3 * V3 * V3) : V3 :=
  match t with
  | (v0, v1, v2) => cross (vsub v1 v0) (vsub v2 v1)
  end.

Definition qsum (l : list Q) : Q := fold_right Qplus 0 l.

(** The first four surface integrals of [trimesh.triangles.mass_properties]:
    [integrated[0]] is the volume, [integrated[1:4]] its first moments. *)
Definition f1 (t : V3 * V3 * V3) : V3 :=
  match t with
  | (v0, v1, v2) => vadd (vadd v0 v1) v2
  end.

Definition f2 (t : V3 * V3 * V3) : V3 :=
  match t with
  | (v0, v1, v2) =>
      vadd (vadd (vadd (vmul v0 v0) (vmul v1 v1)) (vmul v0 v1)) (vmul v2 (f1 t))
  end.

Definition volume (m : Mesh) : Q :=
  qsum (map (fun t => vx (triangle_cross t) * vx (f1 t)) (triangles m)) * (1 # 6).

Definition first_moments (m : Mesh) : V3 :=
  let w := map (fun t => vmul (triangle_cross t) (f2 t)) (triangles m) in
  (qsum (map vx w) * (1 # 24), qsum (map vy w) * (1 # 24), qsum (map vz w) * (1 # 24)).

(** [mesh.center_mass]: the first moments over the volume, and the origin
    for a mesh without volume (the library tests the volume against a small
    threshold, which is zero in exact arithmetic). *)
Definition center_mass (m : Mesh) : V3 :=
  if Qeq_bool (volume m) 0 then vzero
  else vscale (/ volume m) (first_moments m).

(** [mesh.apply_translation(t)] *)
Definition apply_translation (t : V3) (m : Mesh) : Mesh :=
  mkMesh (map (fun v => vadd v t) (vertices m)) (faces m).

(** [mesh.apply_scale(s)] *)
Definition apply_scale (s : Q) (m : Mesh) : Mesh :=
  mkMesh (map (vscale s) (vertices m)) (faces m).

(** [mesh.vertices.mean(axis=0)] *)
Definition vertex_mean (m : Mesh) : V3 :=
  let n := inject_Z (Z.of_nat (List.length (vertices m))) in
  (qsum (map vx (vertices m)) / n,
   qsum (map vy (vertices m)) / n,
   qsum (map vz (vertices m)) / n).

End trimesh.

(** ** Geometry Normalizer ([browser_page], lines 699-705) *)

(** Why normalization yields no mesh: [NoBounds], the mesh references no
    vertex, [mesh.extents] is [None] and [max] raises; [ZeroExtent], the
    largest extent is [0.0], so that [100.0 / max(extents)] divides by zero and
    no finite scale factor exists. *)
Inductive NormError : Type :=
| NoBounds
| ZeroExtent.

(** [max(tm_mesh.extents)]: the largest of the three extents. *)
Definition max_extent (m : trimesh.Mesh) : option Q :=
  match trimesh.extents m with
  | None => None
  | Some e =>
      Some (trimesh.qmax (trimesh.qmax (trimesh.vx e) (trimesh.vy e)) (trimesh.vz e))
  end.

(** The size every preview is scaled to. *)
Definition target_extent : Q := 100%Q.

Section Normalizer.

(** The point [tm_mesh.center_mass] that the library computes for a mesh. *)
Variable center_mass : trimesh.Mesh -> trimesh.V3.

(** Line 701: [tm_mesh.apply_translation(-tm_mesh.center_mass)] *)
Definition center (m : trimesh.Mesh) : trimesh.Mesh :=
  trimesh.apply_translation (trimesh.vneg (center_mass m)) m.

(** Lines 701-705: centring, then
    [scale = 100.0 / max(tm_mesh.extents)] and [tm_mesh.apply_scale(scale)]. *)
Definition normalize (m : trimesh.Mesh) : trimesh.Mesh + NormError :=
  let centered := center m in
  match max_extent centered with
  | None => inr NoBounds
  | Some largest =>
      if Qeq_bool largest 0 then inr ZeroExtent
      else inl (trimesh.apply_scale (target_extent / largest) centered)
  end.

End Normalizer.

(** ** Style Resolver and model viewer ([app.py], lines 496-560 and 688-834) *)

(** The [go.Mesh3d] trace of a figure, with the attributes the source sets
    apart from the fixed lighting. *)
Record Mesh3d : Type := mkMesh3d {
  xs : list Q;
  ys : list Q;
  zs : list Q;
  ijk : option (list nat * list nat * list nat);
  intensity : option (list Q);
  colorscale : option string;
  color : option string;
  opacity : Q
}.

(** Lines 707-739: the figure built from the normalized mesh, coloured by
    height. *)
Definition trimesh_figure (m : trimesh.Mesh) : Mesh3d :=
  let x := map trimesh.vx (trimesh.vertices m) in
  let y := map trimesh.vy (trimesh.vertices m) in
  let z := map trimesh.vz (trimesh.vertices m) in
  let i := map (fun f => fst (fst f)) (trimesh.faces m) in
  let j := map (fun f => snd (fst f)) (trimesh.faces m) in
  let k := map (fun f => snd f) (trimesh.faces m) in
  mkMesh3d x y z (Some (i, j, k)) (Some z) (Some "Viridis") None 1%Q.

(** Lines 753-764 and 510-525: the figure built from the facets that
    numpy-stl reads, in one colour. *)
Definition stl_figure (facets : list (trimesh.V3 * trimesh.V3 * trimesh.V3))
  : Mesh3d :=
  let flatten (f : trimesh.V3 -> Q) :=
    flat_map (fun t => match t with
                       | (v0, v1, v2) => [f v0; f v1; f v2]
                       end) facets in
  mkMesh3d (flatten trimesh.vx) (flatten trimesh.vy) (flatten trimesh.vz)
           None None None (Some "lightblue") (8 # 10)%Q.


(** [hasattr(fig.data[0], 'intensity')]: [intensity] is a declared property
    of every [Mesh3d] trace, set or not. *)
Definition hasattr_intensity (trace : Mesh3d) : bool := true.

(** Lines 812-824: the figure updated from the two selections. *)
Definition apply_style (trace : Mesh3d) (color_option : string) (opacity' : Q)
  : Mesh3d :=
  if hasattr_intensity trace && negb (Str.contains color_option "Solid") then
    mkMesh3d (xs trace) (ys trace) (zs trace) (ijk trace) (intensity trace)
             (Some (Str.lower color_option)) (color trace) opacity'
  else if Str.contains color_option "Solid Blue" then
    mkMesh3d (xs trace) (ys trace) (zs trace) (ijk trace) None
             None (Some "royalblue") opacity'
  else if Str.contains color_option "Solid Green" then
    mkMesh3d (xs trace) (ys trace) (zs trace) (ijk trace) None
             None (Some "mediumseagreen") opacity'
  else trace.

(** What the libraries of the viewer answer: [trimesh.load(path)] and
    [mesh.Mesh.from_file(path)] give a mesh or the message of the exception
    they raise, [open(path, "rb")] gives [None] or that message;
    [lib_center_mass] is [tm_mesh.center_mass]; [infinite_scale] is how the
    rendering block ends once the scale factor is infinite: with the
    exception of the library versions that refuse such a factor, or with the
    figure of the others. *)
Record Libraries : Type := mkLibraries {
  trimesh_load : string -> trimesh.Mesh + string;
  lib_center_mass : trimesh.Mesh -> trimesh.V3;
  infinite_scale : trimesh.Mesh -> Mesh3d + string;
  stl_from_file : string -> list (trimesh.V3 * trimesh.V3 * trimesh.V3) + string;
  open_rb : string -> option string
}.

(** What the viewer does, in order: the Streamlit calls that show something
    and the library calls that parse geometry. *)
Inductive Event : Type :=
| st_write (text : string)
| st_info (text : string)
| st_error (text : string)
| call_trimesh_load (path : string)
| call_stl_from_file (path : string)
| st_plotly_chart (fig : Mesh3d)
| st_download_button (label file_name : string).

Definition is_parse (e : Event) : bool :=
  match e with
  | call_trimesh_load _ | call_stl_from_file _ => true
  | _ => false
  end.


(** The text shown for a format that is not previewed. *)
Definition download_only_text (file_ext : string) : string :=
  "Preview for " ++ Str.upper (Str.tail file_ext)
  ++ " files is currently only available for download. You can download the file to view it in your preferred 3D model viewer.".

(** The download button at the end of each branch, inside the [try]. *)
Definition download_step (lib : Libraries) (file_ext selected_model_path : string)
  : list Event :=
  match open_rb lib selected_model_path with
  | None =>
      [st_download_button ("Download " ++ Str.upper (Str.tail file_ext) ++ " file")
                          (posixpath.basename selected_model_path)]
  | Some e => [st_error ("Error loading 3D model file: " ++ e)]
  end.

(** Lines 697-749: the rendering block of [browser_page] for an STL file. *)
Definition trimesh_block (lib : Libraries) (selected_model_path : string)
  : Mesh3d + string :=
  match trimesh_load lib selected_model_path with
  | inr e => inr e
  | inl tm_mesh =>
      match normalize (lib_center_mass lib) tm_mesh with
      | inl normalized => inl (trimesh_figure normalized)
      | inr NoBounds => inr "'NoneType' object is not iterable"
      | inr ZeroExtent => infinite_scale lib tm_mesh
      end
  end.

(** Lines 688-832 of [browser_page]: the viewer for the selected file, with
    the selections [color_option] and [opacity'] of its two widgets. *)
Definition browser_viewer (lib : Libraries) (selected_model_path : string)
           (color_option : string) (opacity' : Q) : list Event :=
  let file_ext := Str.lower (snd (posixpath.splitext selected_model_path)) in
  let finish (fig : Mesh3d) : list Event :=
    st_plotly_chart (apply_style fig color_option opacity')
      :: download_step lib file_ext selected_model_path in
  st_write ("File format: " ++ Str.upper (Str.tail file_ext))
  :: if String.eqb file_ext ".stl" then
       call_trimesh_load selected_model_path
       :: match trimesh_block lib selected_model_path with
          | inl fig => finish fig
          | inr e =>
              st_error ("Error rendering the STL file: " ++ e)
              :: call_stl_from_file selected_model_path
              :: match stl_from_file lib selected_model_path with
                 | inl facets => finish (stl_figure facets)
                 | inr e' => [st_error ("Error loading 3D model file: " ++ e')]
                 end
          end
     else
       st_info (download_only_text file_ext)
       :: download_step lib file_ext selected_model_path.

(** Lines 501-558 of [display_model_details]: the older viewer. *)
Definition details_viewer (lib : Libraries) (selected_model_path : string)
  : list Event :=
  let file_ext := Str.lower (snd (posixpath.splitext selected_model_path)) in
  st_write ("File format: " ++ Str.upper (Str.tail file_ext))
  :: if String.eqb file_ext ".stl" then
       call_stl_from_file selected_model_path
       :: match stl_from_file lib selected_model_path with
          | inl facets =>
              st_plotly_chart (stl_figure facets)
              :: download_step lib file_ext selected_model_path
          | inr e => [st_error ("Error loading 3D model file: " ++ e)]
          end
     else
       st_info (download_only_text file_ext)
       :: download_step lib file_ext selected_model_path.

(** ** The matches of a pattern, stated on the listing

    What [glob.glob(os.path.join(directory, pattern))] amounts to when
    [directory] holds no wildcard. *)

(** What [os.path.join(directory, name)] puts in front of a [name] that
    does not start with a slash. *)
Definition dir_prefix (directory : string) : string :=
  if Str.is_empty directory || Str.endswith_char directory posixpath.sep
  then directory else directory ++ "/".

(** The directory that [glob] lists for a pattern joined to [directory]:
    [directory] without its trailing slashes. *)
Definition listed_directory (directory : string) : string :=
  fst (posixpath.split (posixpath.join directory "*")).

(** The entries of [dirname] that do not start with a dot and match
    [pattern], in listing order. *)
Definition visible_matches (st : Storage) (dirname pattern : string)
  : list string :=
  filter (fun name => negb (glob._ishidden name) && fnmatch.fnmatchcase name pattern)
         (scandir st (if Str.is_empty dirname then "." else dirname)).

(** The path [glob] gives to an entry [name] of [dirname]. *)
Definition placed (dirname name : string) : string :=
  if Str.is_empty dirname then name else posixpath.join dirname name.

(** The lexicographically-first visible entry of [directory] that matches
    [pattern], as a path. *)
Definition first_match_in (st : Storage) (directory pattern : string)
  : option string :=
  let dirname := listed_directory directory in
  first_sorted (map (placed dirname) (visible_matches st dirname pattern)).

(** The visible entries of the images directory that end in one of the three
    image extensions, as paths: those in [.png] first, then [.jpg], then
    [.jpeg]. *)
Definition images_in (st : Storage) (directory : string) : list string :=
  let dirname := listed_directory (posixpath.join directory "images") in
  map (placed dirname)
      (flat_map (fun ext => visible_matches st dirname ("*" ++ ext))
                [".png"; ".jpg"; ".jpeg"]).

(** The lexicographically-first of them, when the images directory exists. *)
Definition first_image_in (st : Storage) (directory : string) : option string :=
  if path_exists st (posixpath.join directory "images")
  then first_sorted (images_in st directory)
  else None.

(** [m] is a least element of [l] in the order of strings. *)
Definition least_of (l : list string) (m : string) : Prop :=
  In m l /\ forall x, In x l -> String.leb m x = true.

(** ** The names a directory listing can hold *)

(** A name that [os.scandir] can yield: not empty, without slash, and neither
    [.] nor [..]. *)
Definition valid_name (n : string) : bool :=
  negb (Str.is_empty n) && negb (Str.mem_char posixpath.sep n)
  && negb (String.eqb n ".") && negb (String.eqb n "..").

(** Every name in the tree is one. *)
Fixpoint well_named (d : os.Dir) : bool :=
  match d with
  | os.mkDir nondirs dirs =>
      forallb valid_name nondirs
      && forallb (fun entry => valid_name (fst entry) && well_named (snd entry)) dirs
  end.

(** A component of a normalized path: not empty and without slash. *)
Definition is_component (n : string) : Prop :=
  Str.is_empty n = false /\ Str.mem_char posixpath.sep n = false.

(** The path that [abspath] normalizes. *)
Definition anchored (cwd path : string) : string :=
  if posixpath.isabs path then path else posixpath.join cwd path.

(** The names of a path below a directory, each behind a slash. *)
Fixpoint slashed (names : list string) : string :=
  match names with
  | [] => EmptyString
  | n :: rest => "/" ++ n ++ slashed rest
  end.

(** The path of the entry reached from [directory] through [names], as the
    nested calls of [os.path.join] in [os.walk] and the source build it. *)
Definition descend (directory : string) (names : list string) : string :=
  fold_left posixpath.join names directory.

(** What a pair recorded by model-file enumeration satisfies: the scanned
    directory joined with the relative path is the absolute path, and the
    extension of either path, lowercased, is a geometry extension. *)
Definition recorded_pair (directory : string) (pair : string * string) : Prop :=
  posixpath.join directory (fst pair) = snd pair
  /\ mem_string (Str.lower (snd (posixpath.splitext (snd pair)))) model_extensions = true
  /\ mem_string (Str.lower (snd (posixpath.splitext (fst pair)))) model_extensions = true.

(** ** The claims of the specification, in its own words

    These definitions follow the wording of the specification where it
    differs from the source; they are what the source is compared with. *)

(** Thumbnail resolution with strategy 3 skipped, as the specification words
    it for a model without identifier. *)
Definition find_thumbnail_skipping_3 (st : Storage) (directory : string)
  : option string :=
  first_truthy
    [ find_in_images_dir st directory;
      find_first_match st directory "*_Thumbnail*.png";
      find_first_match st directory "*.png" ].

(** The files of a walk, each with the directory it lies in, in walk order. *)
Definition walk_files (triples : list (string * list string * list string))
  : list (string * string) :=
  flat_map (fun t => map (pair (fst (fst t))) (snd t)) triples.

(** A file name that is a candidate once lowercased. *)
Definition is_readme_name (file : string) : bool :=
  mem_string (Str.lower file) (map Str.lower readme_patterns).

(** The first file of a walk whose name is a candidate once lowercased. *)
Definition first_readme_of_walk
           (triples : list (string * list string * list string)) : option string :=
  option_map (fun rf => posixpath.join (fst rf) (snd rf))
             (find (fun rf => is_readme_name (snd rf)) (walk_files triples)).

(** Description resolution as the specification words it: the candidates in
    the root, then a walk of the subdirectories only. *)
Definition find_readme_subdirectories_only (st : Storage) (directory : string)
           (tree : os.Dir) : option string :=
  match find (path_exists st) (map (posixpath.join directory) readme_patterns) with
  | Some p => Some p
  | None =>
      first_readme_of_walk
        (flat_map (fun entry => os.walk (posixpath.join directory (fst entry)) (snd entry))
                  (os.dirs_of tree))
  end.

(** The square of the magnitude of a vector. *)
Definition magnitude_sq (v : trimesh.V3) : Q :=
  (trimesh.vx v * trimesh.vx v + trimesh.vy v * trimesh.vy v
   + trimesh.vz v * trimesh.vz v)%Q.

(** The tolerance of the specification: [1e-6] times the target extent. *)
Definition epsilon : Q := ((1 # 1000000) * target_extent)%Q.


(** ** Thing URLs ([app.py], lines 66-76) *)

(** [s[len(p):]] when [s.startswith(p)]. *)
Fixpoint after_prefix (p s : string) : option string :=
  match p with
  | EmptyString => Some s
  | String a p' =>
      match s with
      | EmptyString => None
      | String b s' => if Ascii.eqb a b then after_prefix p' s' else None
      end
  end.

(** [extract_thing_id(url)]: [re.search(r'thing:(\d+)', url)] and its
    [group(1)], the digits that follow the leftmost [thing:] that has a digit
    behind it; [None] where the search fails. *)
Fixpoint extract_thing_id (url : string) : option string :=
  match url with
  | EmptyString => None
  | String _ r =>
      match after_prefix "thing:" url with
      | Some rest =>
          if Str.is_empty (take_digits rest) then extract_thing_id r
          else Some (take_digits rest)
      | None => extract_thing_id r
      end
  end.

(** [get_download_url(thing_id)] *)
Definition get_download_url (thing_id : string) : string :=
  "https://www.thingiverse.com/thing:" ++ thing_id ++ "/zip".

(** [f"thing_{thing_id}"]: the name [downloader_page] gives to the directory
    of a model (lines 243 and 281). *)
Definition model_dir_name (thing_id : string) : string :=
  "thing_" ++ thing_id.

(** [s] holds no digit. *)
Fixpoint digit_free (s : string) : bool :=
  match s with
  | EmptyString => true
  | String c r => negb (is_digit c) && digit_free r
  end.

(** [s] is empty or starts with a character that is no digit: a run of
    digits cannot be continued into it. *)
Definition ends_digits (s : string) : Prop :=
  match s with
  | EmptyString => True
  | String c _ => is_digit c = false
  end.

(** ** Directory listings of the pages ([os.listdir]) *)

(** [os.listdir(p)]: the names of the entries of [p], in the order
    [os.scandir] yields them; [None] is the error raised for a path that is
    not a directory.  A directory is taken to be readable. *)
Definition listdir (st : Storage) (p : string) : option (list string) :=
  if path_isdir st p then Some (scandir st p) else None.

(** [[d for d in os.listdir(p) if os.path.isdir(os.path.join(p, d))]] *)
Definition subdirectories (st : Storage) (p : string) : option (list string) :=
  option_map (filter (fun d => path_isdir st (posixpath.join p d))) (listdir st p).

(** ** The gallery of [browser_page] (lines 846-893) *)

(** Lines 877-886: whether a model matches a search query that is not
    empty. *)
Definition model_matches (search_query : string) (model_info : ModelInfo)
  : bool :=
  if Str.contains (Str.lower (name model_info)) search_query then true
  else if truthy (thing_id model_info)
          && Str.contains (Str.lower (or_empty (thing_id model_info))) search_query
  then true
  else if negb (Str.is_empty (readme_content model_info))
          && Str.contains (Str.lower (readme_content model_info)) search_query
  then true
  else false.

(** Lines 867-893: the loop that collects the models of one category, each
    with the category added to it; [None] when [get_model_info] raises.
    [walk_of] is what [os.walk] finds below each model directory. *)
Fixpoint category_models (st : Storage) (cwd : string)
         (walk_of : string -> os.Dir)
         (search_query category category_path : string)
         (model_dirs : list string) : option (list (ModelInfo * string)) :=
  match model_dirs with
  | [] => Some []
  | model_name :: rest =>
      let model_path := posixpath.join category_path model_name in
      match get_model_info st cwd (walk_of model_path) model_path model_name with
      | None => None
      | Some model_info =>
          let later :=
            category_models st cwd walk_of search_query category category_path rest in
          if negb (Str.is_empty search_query) then
            if model_matches search_query model_info
            then option_map (cons (model_info, category)) later
            else later
          else option_map (cons (model_info, category)) later
      end
  end.

(** Lines 846-893: the cards of one category for the text typed into the
    search box, which is lowercased before it is used. *)
Definition gallery_category (st : Storage) (cwd : string)
           (walk_of : string -> os.Dir)
           (search_text downloads_dir category : string)
  : option (list (ModelInfo * string)) :=
  let search_query := Str.lower search_text in
  let category_path := posixpath.join downloads_dir category in
  match subdirectories st category_path with
  | None => None
  | Some model_dirs =>
      category_models st cwd walk_of search_query category category_path model_dirs
  end.

(** Whether the gallery keeps a model under a search query. *)
Definition shown_under (search_query : string) (card : ModelInfo * string)
  : bool :=
  Str.is_empty search_query || model_matches search_query (fst card).

(** ** The file chosen in the viewer (lines 495-503 and 680-688) *)

(** [[name for name, _ in model_files]]: the entries of the select box. *)
Definition offered_names (model_files : list (string * string)) : list string :=
  map fst model_files.

(** [next((path for name, path in model_files if name == selected_model),
    None)] *)
Fixpoint selected_model_path (model_files : list (string * string))
         (selected_model : string) : option string :=
  match model_files with
  | [] => None
  | (name, path) :: rest =>
      if String.eqb name selected_model then Some path
      else selected_model_path rest selected_model
  end.

(** The test of [find_model_files] on a file name: its extension,
    lowercased, is a geometry extension. *)
Definition is_model_name (file : string) : bool :=
  mem_string (Str.lower (snd (posixpath.splitext file))) model_extensions.

(** The files of a walk that pass the test, as paths, in walk order. *)
Definition geometry_paths (triples : list (string * list string * list string))
  : list string :=
  map (fun rf => posixpath.join (fst rf) (snd rf))
      (filter (fun rf => is_model_name (snd rf)) (walk_files triples)).

(** A recorded pair that stays inside the scanned directory: the relative
    path is made of names a listing can hold, joined by slashes, and the
    absolute path is reached from the directory through these names. *)
Definition inside_pair (directory : string) (pair : string * string) : Prop :=
  exists names,
    names <> []
    /\ forallb valid_name names = true
    /\ fst pair = Str.join "/" names
    /\ snd pair = descend directory names.

(** ** What a run of the viewer shows *)






(** The event of the older viewer with the two selections applied to the
    figure it shows. *)
Definition restyled (color_option : string) (opacity' : Q) (e : Event) : Event :=
  match e with
  | st_plotly_chart fig => st_plotly_chart (apply_style fig color_option opacity')
  | _ => e
  end.

(** ** Patterns that end in a literal text *)

(** The tokens of a text without wildcard: one literal for each
    character. *)
Fixpoint lits (s : string) : list fnmatch.tok :=
  match s with
  | EmptyString => []
  | String c r => fnmatch.Lit c :: lits r
  end.

(** The token of a pattern character that opens no bracket expression. *)
Definition plain_tok (c : ascii) : fnmatch.tok :=
  if Ascii.eqb c "*"%char then fnmatch.STAR
  else if Ascii.eqb c "?"%char then fnmatch.AnyChar
  else fnmatch.Lit c.

Fixpoint plain_toks (s : string) : list fnmatch.tok :=
  match s with
  | EmptyString => []
  | String c r => plain_tok c :: plain_toks r
  end.

(** The directory that [glob] lists for the patterns joined to
    [directory], as it is passed to [os.scandir]. *)
Definition scanned_directory (directory : string) : string :=
  if Str.is_empty (listed_directory directory) then "."
  else listed_directory directory.

(** The directories that a walk visits. *)
Definition walk_roots (triples : list (string * list string * list string))
  : list string :=
  map (fun t => fst (fst t)) triples.

(** ** The downloader page ([downloader_page], lines 181-283) *)

(** [c.isspace()] on the code points 0 to 255. *)
Definition is_space (c : ascii) : bool :=
  let n := nat_of_ascii c in
  ((9 <=? n)%nat && (n <=? 13)%nat) || ((28 <=? n)%nat && (n <=? 32)%nat)
  || (n =? 133)%nat || (n =? 160)%nat.

Fixpoint lstrip (s : string) : string :=
  match s with
  | EmptyString => EmptyString
  | String c r => if is_space c then lstrip r else s
  end.

Fixpoint rstrip_space (s : string) : string :=
  match s with
  | EmptyString => EmptyString
  | String c r =>
      let r' := rstrip_space r in
      if Str.is_empty r' && is_space c then EmptyString else String c r'
  end.

(** [s.strip()] *)
Definition strip (s : string) : string := rstrip_space (lstrip s).

(** The line feed at which the batch text is split. *)
Definition line_feed : ascii := "010"%char.

(** Lines 181-190: the entries of the category select box; [None] when
    [os.listdir] raises. *)
Definition downloader_categories (st : Storage) (downloads_dir : string)
  : option (list string) :=
  let found :=
    if path_exists st downloads_dir then
      option_map
        (filter (fun item =>
                   path_isdir st (posixpath.join downloads_dir item)
                   && negb (String.eqb item "Uncategorized")))
        (listdir st downloads_dir)
    else Some [] in
  option_map (fun items => ("Uncategorized" :: items ++ ["+ Create new category"])%list)
             found.

(** Lines 196-201: the category that the download goes to, from the entry
    selected and the text typed for a new category. *)
Definition chosen_category (selected_category new_category : string) : string :=
  if String.eqb selected_category "+ Create new category" then
    if negb (Str.is_empty new_category) then new_category else selected_category
  else selected_category.

(** What the page does once the button is pressed, in order: the
    directories it creates, the messages it shows and the downloads it
    starts.  The progress bars are left out, and so is what follows the
    request of the single download (lines 293-340). *)
Inductive Act : Type :=
| act_makedirs (path : string)
| act_error (text : string)
| act_found (valid : nat)
| act_progress (position total : nat) (thing : string)
| act_success (text : string)
| act_download_and_extract (url extract_path : string)
| act_requests_get (url model_dir : string).

(** How the page ends: at its last line, at one of its [return]s, or with
    the [UnboundLocalError] raised where [thing_id] is read before any
    assignment. *)
Inductive Ending : Type :=
| page_finished
| page_returned
| page_unbound_thing_id.

(** [f"{thing_id}"] for what the variable holds. *)
Definition formatted (thing_id : option string) : string :=
  match thing_id with
  | Some s => s
  | None => "None"
  end.

(** Lines 281-292: the download that ends the page. *)
Definition single_download (category_dir : string) (thing_id : option string)
  : list Act :=
  let model_dir := posixpath.join category_dir (model_dir_name (formatted thing_id)) in
  [ act_makedirs model_dir;
    act_requests_get (get_download_url (formatted thing_id)) model_dir ].

Section DownloaderPage.

(** [is_valid_thingiverse_url], whose answer rests on [urlparse]. *)
Variable is_valid_thingiverse_url : string -> bool.

(** [download_and_extract(url, extract_path)]: the value returned, or the
    message of the exception raised. *)
Variable download_and_extract : string -> string -> bool + string.

(** Lines 219-232: the validation loop.  [bound] is what the variable
    [thing_id] holds: [None] while it is unbound, the result of the last call
    of [extract_thing_id] afterwards. *)
Fixpoint validate (urls : list string) (bound : option (option string))
  : list Act * list (string * string) * option (option string) :=
  match urls with
  | [] => ([], [], bound)
  | url :: rest =>
      if Str.is_empty (strip url) then validate rest bound
      else if negb (is_valid_thingiverse_url url) then
        let '(acts, valid_urls, last_bound) := validate rest bound in
        (act_error ("Invalid URL: " ++ url) :: acts, valid_urls, last_bound)
      else
        let thing_id := extract_thing_id url in
        let '(acts, valid_urls, last_bound) := validate rest (Some thing_id) in
        if negb (truthy thing_id) then
          (act_error ("Could not extract thing ID from URL: " ++ url) :: acts,
           valid_urls, last_bound)
        else (acts, (url, or_empty thing_id) :: valid_urls, last_bound)
  end.

(** Lines 241-261: the download loop, from position [i] on. *)
Fixpoint batch_loop (category_dir : string) (i total : nat)
         (valid_urls : list (string * string)) : list Act :=
  match valid_urls with
  | [] => []
  | (url, thing_id) :: rest =>
      let model_dir := posixpath.join category_dir (model_dir_name thing_id) in
      let download_url := get_download_url thing_id in
      act_makedirs model_dir
      :: act_progress (i + 1) total (model_dir_name thing_id)
      :: act_download_and_extract download_url model_dir
      :: match download_and_extract download_url model_dir with
         | inl _ =>
             act_success ("Successfully downloaded and extracted "
                          ++ model_dir_name thing_id ++ ".")
         | inr e =>
             act_error ("Error downloading " ++ model_dir_name thing_id ++ ": " ++ e)
         end
      :: batch_loop category_dir (i + 1) total rest
  end.

(** What [thing_id] holds after the download loop: the identifier of the
    last valid URL, when there is one. *)
Definition bound_after_loop (valid_urls : list (string * string))
           (bound : option (option string)) : option (option string) :=
  match rev valid_urls with
  | [] => bound
  | (_, thing_id) :: _ => Some (Some thing_id)
  end.

(** Lines 203-292: the page once the button is pressed. *)
Definition download_pressed
           (downloads_dir selected_category thingiverse_url batch_urls : string)
  : list Act * Ending :=
  let category_dir := posixpath.join downloads_dir selected_category in
  let start := [act_makedirs downloads_dir; act_makedirs category_dir] in
  if negb (Str.is_empty (strip batch_urls)) then
    let urls := Str.split line_feed (strip batch_urls) in
    let '(acts, valid_urls, bound) := validate urls None in
    let downloads :=
      match valid_urls with
      | [] => []
      | _ => (batch_loop category_dir 0 (List.length valid_urls) valid_urls
              ++ [act_success "Batch download complete!"])%list
      end in
    let batch :=
      (start ++ acts ++ [act_found (List.length valid_urls)] ++ downloads)%list in
    match bound_after_loop valid_urls bound with
    | None => (batch, page_unbound_thing_id)
    | Some thing_id => ((batch ++ single_download category_dir thing_id)%list, page_finished)
    end
  else if Str.is_empty thingiverse_url then
    ((start ++ [act_error "Please enter a Thingiverse URL."])%list, page_returned)
  else if negb (is_valid_thingiverse_url thingiverse_url) then
    ((start ++ [act_error "Please enter a valid Thingiverse URL (e.g., https://www.thingiverse.com/thing:12345)."])%list,
     page_returned)
  else
    let thing_id := extract_thing_id thingiverse_url in
    if negb (truthy thing_id) then
      ((start ++ [act_error "Could not extract thing ID from the URL."])%list, page_returned)
    else ((start ++ single_download category_dir thing_id)%list, page_finished).

End DownloaderPage.

(** The download that an act starts: its URL and the directory it fills. *)
Definition fetched (a : Act) : list (string * string) :=
  match a with
  | act_download_and_extract url extract_path => [(url, extract_path)]
  | act_requests_get url model_dir => [(url, model_dir)]
  | _ => []
  end.

(** The download of one thing into a category directory. *)
Definition fetch_of (category_dir thing_id : string) : string * string :=
  (get_download_url thing_id, posixpath.join category_dir (model_dir_name thing_id)).

Definition is_error_act (a : Act) : bool :=
  match a with
  | act_error _ => true
  | _ => false
  end.

(** A line of the batch text that is not blank. *)
Definition is_url_line (url : string) : bool := negb (Str.is_empty (strip url)).

(** ** A model looked up by name ([browser_page], lines 576-610) *)








(** ** Export and statistics ([main], lines 973-994 and 1039-1047) *)

(** An entry of the export; [download_date] is the default of a key that
    [get_model_info] never sets. *)
Record ExportEntry : Type := mkExportEntry {
  export_name : string;
  export_thing_id : option string;
  export_model_count : nat;
  export_path : string;
  export_download_date : string
}.

(** [d[k] = v] on a dictionary kept as the list of its items in insertion
    order. *)
Fixpoint dict_set {V : Type} (k : string) (v : V) (d : list (string * V))
  : list (string * V) :=
  match d with
  | [] => [(k, v)]
  | (k', v') :: r =>
      if String.eqb k' k then (k, v) :: r else (k', v') :: dict_set k v r
  end.

(** Lines 983-994: the entries of one category; [None] when
    [get_model_info] raises. *)
Fixpoint export_models (st : Storage) (cwd : string) (walk_of : string -> os.Dir)
         (category_path : string) (models : list string)
  : option (list ExportEntry) :=
  match models with
  | [] => Some []
  | model :: rest =>
      let model_path := posixpath.join category_path model in
      if path_isdir st model_path then
        match get_model_info st cwd (walk_of model_path) model_path model with
        | None => None
        | Some model_info =>
            option_map
              (cons (mkExportEntry model (thing_id model_info)
                                   (model_count model_info) model_path EmptyString))
              (export_models st cwd walk_of category_path rest)
        end
      else export_models st cwd walk_of category_path rest
  end.

(** Lines 978-994: the loop over the categories, which fills the dictionary
    [export_data["categories"]]. *)
Fixpoint export_categories (st : Storage) (cwd : string)
         (walk_of : string -> os.Dir) (downloads_dir : string)
         (categories : list string) (d : list (string * list ExportEntry))
  : option (list (string * list ExportEntry)) :=
  match categories with
  | [] => Some d
  | category :: rest =>
      let category_path := posixpath.join downloads_dir category in
      if path_isdir st category_path then
        match listdir st category_path with
        | None => None
        | Some models =>
            match export_models st cwd walk_of category_path models with
            | None => None
            | Some entries =>
                export_categories st cwd walk_of downloads_dir rest
                                  (dict_set category entries d)
            end
        end
      else export_categories st cwd walk_of downloads_dir rest d
  end.

(** Lines 975-994: the dictionary that is exported; [None] is the
    exception that the export reports as an error. *)
Definition export_collection (st : Storage) (cwd : string)
           (walk_of : string -> os.Dir) (downloads_dir : string)
  : option (list (string * list ExportEntry)) :=
  if path_exists st downloads_dir then
    match listdir st downloads_dir with
    | None => None
    | Some categories =>
        export_categories st cwd walk_of downloads_dir categories []
    end
  else Some [].

(** Lines 1042-1047: the loop that counts the models. *)
Fixpoint count_models (st : Storage) (downloads_dir : string)
         (categories : list string) (model_count : nat) : option nat :=
  match categories with
  | [] => Some model_count
  | category :: rest =>
      match subdirectories st (posixpath.join downloads_dir category) with
      | None => None
      | Some models =>
          count_models st downloads_dir rest (model_count + List.length models)
      end
  end.

(** Lines 1039-1047: the numbers of categories and of models shown in the
    sidebar, for a downloads directory that exists; the storage used, the
    third number shown, is left out. *)
Definition statistics (st : Storage) (downloads_dir : string)
  : option (nat * nat) :=
  match subdirectories st downloads_dir with
  | None => None
  | Some categories =>
      option_map (pair (List.length categories))
                 (count_models st downloads_dir categories 0)
  end.

(** The number of models in an export. *)
Definition exported_models (d : list (string * list ExportEntry)) : nat :=
  list_sum (map (fun item => List.length (snd item)) d).

(** ** Concrete inputs, for the examples *)

(** A model directory with an images folder and a description. *)
Definition example_storage : Storage :=
  storage_reading
    [("/dl/Toys/thing_12345", ["images"; "readme.md"; "model.stl"; "parts"]);
     ("/dl/Toys/thing_12345/images", ["b.png"; "a.jpg"]);
     ("/dl/Toys/thing_12345/parts", ["spin.obj"; "part.3MF"; "notes.txt"])]
    (fun _ => inr "[Errno 13] Permission denied").

Definition example_tree : os.Dir :=
  os.mkDir ["readme.md"; "model.stl"]
           [("images", os.mkDir ["b.png"; "a.jpg"] []);
            ("parts", os.mkDir ["spin.obj"; "part.3MF"; "notes.txt"] [])].

(** A model directory without images folder whose description is spelled in
    capitals. *)
Definition capitals_storage : Storage :=
  storage_of [("/dl/Toys/thing_7", ["README.TXT"; "bThumbnail.png"; "a.png"])].

Definition capitals_tree : os.Dir :=
  os.mkDir ["README.TXT"; "bThumbnail.png"; "a.png"] [].

(** A model directory whose name holds no digit. *)
Definition gears_storage : Storage :=
  storage_of [("/dl/Toys/gears", ["bThumbnail.png"; "a.png"; "gear.stl"])].

Definition gears_tree : os.Dir :=
  os.mkDir ["bThumbnail.png"; "a.png"; "gear.stl"] [].

(** A model directory whose images folder holds a dot file. *)
Definition dotfile_storage : Storage :=
  storage_of
    [("/dl/Toys/thing_9", ["images"; "model.stl"]);
     ("/dl/Toys/thing_9/images", [".a.png"; "b.png"])].

(** A model directory inside a category whose name holds a bracket
    expression. *)
Definition brackets_storage : Storage :=
  storage_of
    [("/dl", ["Toys [kids]"]);
     ("/dl/Toys [kids]", ["thing_1"]);
     ("/dl/Toys [kids]/thing_1", ["images"; "model.stl"; "z.png"]);
     ("/dl/Toys [kids]/thing_1/images", ["a.png"])].

(** A closed pyramid: a square base of side 2 and an apex at height 2. *)
Definition pyramid : trimesh.Mesh :=
  trimesh.mkMesh
    [(-1, -1, 0); (1, -1, 0); (1, 1, 0); (-1, 1, 0); (0, 0, 2)]%Q
    [(0, 2, 1); (0, 3, 2); (0, 1, 4); (1, 2, 4); (2, 3, 4); (3, 0, 4)].

(** A single triangle, which encloses no volume. *)
Definition open_triangle : trimesh.Mesh :=
  trimesh.mkMesh [(1, 0, 0); (0, 1, 0); (0, 0, 1)]%Q [(0, 1, 2)].


(** Libraries under which every call succeeds. *)
Definition example_libraries : Libraries :=
  mkLibraries
    (fun _ => inl (trimesh.mkMesh [] []))
    trimesh.center_mass
    (fun _ => inr "Scaling factor must be finite number!")
    (fun _ => inl [])
    (fun _ => None).

(** Libraries whose first parser rejects every file and whose second
    reads it. *)
Definition fallback_libraries : Libraries :=
  mkLibraries
    (fun _ => inr "file_type 'stl' not supported")
    trimesh.center_mass
    (fun _ => inr "Scaling factor must be finite number!")
    (fun _ => inl [])
    (fun _ => None).

(** An answer of the URL test for the examples: the address starts as the
    addresses of the site do. *)
Definition site_urls (url : string) : bool :=
  Str.startswith url "https://www.thingiverse.com/".

(** Downloads that all succeed. *)
Definition every_download_succeeds (url extract_path : string) : bool + string :=
  inl true.

(** A batch text of four lines: two things, a blank line and an address
    without identifier. *)
Definition example_batch : string :=
  "https://www.thingiverse.com/thing:11" ++ String line_feed
  ("   " ++ String line_feed
  ("https://www.thingiverse.com/about" ++ String line_feed
   "https://www.thingiverse.com/thing:22 ")).

(** A downloads directory with two categories and a file. *)
Definition library_storage : Storage :=
  storage_reading
    [("/dl", ["Toys"; "notes.txt"; "Uncategorized"; "Tools"]);
     ("/dl/Toys", ["thing_12345"; "gears"; "list.txt"]);
     ("/dl/Uncategorized", []);
     ("/dl/Tools", ["thing_7"]);
     ("/dl/Toys/thing_12345", ["readme.md"; "model.stl"]);
     ("/dl/Toys/gears", ["gear.stl"; "Gear.OBJ"]);
     ("/dl/Tools/thing_7", ["wrench.obj"])]
    (fun _ => inl "A spinning top with twelve teeth").

(** What [os.walk] finds below each model directory of that library. *)
Definition library_walk (model_path : string) : os.Dir :=
  if String.eqb model_path "/dl/Toys/thing_12345"
  then os.mkDir ["readme.md"; "model.stl"] []
  else if String.eqb model_path "/dl/Toys/gears"
  then os.mkDir ["gear.stl"; "Gear.OBJ"] []
  else if String.eqb model_path "/dl/Tools/thing_7"
  then os.mkDir ["wrench.obj"] []
  else os.mkDir [] [].


(* ================================================================== *)
(** * Part II. Lemmas and theorems *)
(* ================================================================== *)

(** ** Strings *)

Lemma ascii_compare_N : forall a b,
  Ascii.compare a b = N.compare (N_of_ascii a) (N_of_ascii b).
Proof. reflexivity. Qed.

Lemma string_leb_refl : forall s, String.leb s s = true.
Proof.
  intros s. now destruct (String.leb_total s s).
Qed.

Lemma string_leb_trans : forall s1 s2 s3,
  String.leb s1 s2 = true -> String.leb s2 s3 = true -> String.leb s1 s3 = true.
Proof.
  unfold String.leb.
  induction s1 as [|c1 r1 IH]; intros [|c2 r2] [|c3 r3]; simpl;
    try reflexivity; try discriminate.
  rewrite !ascii_compare_N.
  destruct (N.compare_spec (N_of_ascii c1) (N_of_ascii c2)) as [E12|L12|G12];
    destruct (N.compare_spec (N_of_ascii c2) (N_of_ascii c3)) as [E23|L23|G23];
    intros H12 H23; try discriminate.
  - rewrite E12, E23, N.compare_refl. now apply IH with r2.
  - rewrite E12. now apply N.compare_lt_iff in L23 as ->.
  - rewrite <- E23. now apply N.compare_lt_iff in L12 as ->.
  - assert (L13 : (N_of_ascii c1 < N_of_ascii c3)%N) by (now apply N.lt_trans with (N_of_ascii c2)).
    now apply N.compare_lt_iff in L13 as ->.
Qed.

Lemma insert_in : forall x y l, In y (Str.insert x l) <-> y = x \/ In y l.
Proof.
  intros x y l. induction l as [|z r IH]; simpl.
  - intuition.
  - destruct (String.leb x z); simpl; rewrite ?IH; intuition.
Qed.

Lemma sort_in : forall y l, In y (Str.sort l) <-> In y l.
Proof.
  intros y l. induction l as [|x r IH]; simpl; [reflexivity|].
  rewrite insert_in, IH. intuition.
Qed.

Lemma insert_head_least : forall x l,
  (forall m r, l = m :: r -> forall y, In y l -> String.leb m y = true) ->
  forall m r, Str.insert x l = m :: r ->
              forall y, In y (Str.insert x l) -> String.leb m y = true.
Proof.
  intros x [|z l'] Hl m r; simpl.
  - intros [= <- <-] y [<-|[]]. apply string_leb_refl.
  - destruct (String.leb x z) eqn:Hxz.
    + intros [= <- <-] y [<-|Hy]; [apply string_leb_refl|].
      apply string_leb_trans with z; [exact Hxz|].
      now apply (Hl z l' eq_refl).
    + intros [= <- <-] y [<-|Hy]; [apply string_leb_refl|].
      apply insert_in in Hy as [->|Hy].
      * destruct (String.leb_total x z) as [H|H]; [congruence|exact H].
      * apply (Hl z l' eq_refl). now right.
Qed.

Lemma sort_head_least : forall l m r,
  Str.sort l = m :: r -> forall y, In y (Str.sort l) -> String.leb m y = true.
Proof.
  induction l as [|x l IH]; intros m r; simpl; [discriminate|].
  apply insert_head_least. exact IH.
Qed.

(** [matches[0]] after sorting is a least element of the matches, and is
    missing only when there is no match. *)
Lemma first_sorted_least : forall l m,
  first_sorted l = Some m -> least_of l m.
Proof.
  intros l m. unfold first_sorted, least_of.
  destruct l as [|x l']; [discriminate|].
  destruct (Str.sort (x :: l')) as [|m' r] eqn:Hs; [discriminate|].
  intros [= ->]. split.
  - apply sort_in. rewrite Hs. now left.
  - intros y Hy. apply (sort_head_least _ _ _ Hs). rewrite Hs.
    apply sort_in in Hy. now rewrite Hs in Hy.
Qed.

Lemma first_sorted_none : forall l, first_sorted l = None <-> l = [].
Proof.
  intros [|x l']; simpl; [tauto|].
  split; [|discriminate].
  destruct (Str.insert x (Str.sort l')) as [|m r] eqn:Hs; [|discriminate].
  assert (Hin : In x (Str.insert x (Str.sort l'))) by (apply insert_in; now left).
  now rewrite Hs in Hin.
Qed.

Lemma string_app_assoc : forall a b c : string, (a ++ b) ++ c = a ++ (b ++ c).
Proof.
  induction a as [|x a IH]; intros b c; simpl; [reflexivity|].
  now rewrite IH.
Qed.

Lemma string_app_nil_r : forall a : string, a ++ "" = a.
Proof. induction a as [|x a IH]; simpl; [reflexivity|now rewrite IH]. Qed.

Lemma string_length_app : forall a b : string,
  String.length (a ++ b) = String.length a + String.length b.
Proof. induction a as [|x a IH]; intros b; simpl; [reflexivity|now rewrite IH]. Qed.

Lemma is_empty_true : forall s, Str.is_empty s = true -> s = "".
Proof. intros [|c r]; [reflexivity|discriminate]. Qed.

Lemma mem_char_app : forall c a b,
  Str.mem_char c (a ++ b) = Str.mem_char c a || Str.mem_char c b.
Proof.
  intros c a b. induction a as [|x a IH]; simpl; [reflexivity|].
  now rewrite IH, orb_assoc.
Qed.

Lemma rcut_none : forall c s, Str.mem_char c s = false -> Str.rcut c s = None.
Proof.
  intros c s. induction s as [|a r IH]; simpl; [reflexivity|].
  intros H. apply orb_false_iff in H as [Ha Hr].
  rewrite (IH Hr), Ha. reflexivity.
Qed.

Lemma rcut_last : forall c h b,
  Str.mem_char c b = false -> Str.rcut c (h ++ String c b) = Some (h, b).
Proof.
  intros c h b Hb. induction h as [|a h IH]; simpl.
  - now rewrite (rcut_none _ _ Hb), Ascii.eqb_refl.
  - now rewrite IH.
Qed.

Lemma rcut_some : forall c s h t,
  Str.rcut c s = Some (h, t) -> s = h ++ String c t /\ Str.mem_char c t = false.
Proof.
  intros c s. induction s as [|a r IH]; simpl; intros h t; [discriminate|].
  destruct (Str.rcut c r) as [[h' t']|] eqn:Hr.
  - intros [= <- <-]. destruct (IH h' t' eq_refl) as [-> Ht]. now split.
  - destruct (Ascii.eqb a c) eqn:Hac; [|discriminate].
    intros [= <- <-]. apply Ascii.eqb_eq in Hac as ->. simpl. split; [reflexivity|].
    clear IH. induction r as [|x r IHr]; simpl in *; [reflexivity|].
    destruct (Str.rcut c r) as [[? ?]|]; [discriminate|].
    destruct (Ascii.eqb x c); [discriminate|]. now apply IHr.
Qed.

Lemma endswith_char_cut : forall d c,
  Str.endswith_char d c = true -> exists h, d = h ++ String c "".
Proof.
  intros d c. induction d as [|a r IH]; simpl; [discriminate|].
  destruct r as [|b r'].
  - intros H. apply Ascii.eqb_eq in H as ->. now exists "".
  - intros H. destruct (IH H) as [h ->]. now exists (String a h).
Qed.

Lemma rstrip_prefix : forall c s, exists r, s = Str.rstrip c s ++ r.
Proof.
  intros c s. induction s as [|a s IH]; simpl; [now exists ""|].
  destruct IH as [r Hr].
  destruct (Str.is_empty (Str.rstrip c s) && Ascii.eqb a c).
  - now exists (String a s).
  - exists r. simpl. now rewrite <- Hr.
Qed.

Lemma startswith_slash_free : forall b,
  Str.mem_char posixpath.sep b = false -> Str.startswith b "/" = false.
Proof.
  intros [|c r]; [reflexivity|].
  cbn [Str.mem_char]. intros H. apply orb_false_iff in H as [Hc _].
  unfold Str.startswith. cbn [String.prefix].
  destruct (ascii_dec "/" c) as [<-|_]; [discriminate Hc|reflexivity].
Qed.

(** ** Paths *)

Lemma join_nonempty : forall a b,
  Str.is_empty b = false -> Str.is_empty (posixpath.join a b) = false.
Proof.
  intros a b Hb. unfold posixpath.join.
  destruct (Str.startswith b "/"); [exact Hb|].
  destruct (Str.is_empty a || Str.endswith_char a posixpath.sep).
  - destruct a; simpl; [exact Hb | reflexivity].
  - destruct a; reflexivity.
Qed.

Lemma join_dir_prefix : forall d b,
  Str.mem_char posixpath.sep b = false -> posixpath.join d b = dir_prefix d ++ b.
Proof.
  intros d b Hb. unfold posixpath.join, dir_prefix.
  rewrite (startswith_slash_free _ Hb).
  destruct (Str.is_empty d || Str.endswith_char d posixpath.sep); [reflexivity|].
  now rewrite string_app_assoc.
Qed.

Lemma dir_prefix_shape : forall d,
  (d = "" /\ dir_prefix d = "") \/ exists h, dir_prefix d = h ++ "/".
Proof.
  intros d. unfold dir_prefix.
  destruct (Str.is_empty d) eqn:He; simpl.
  - left. apply is_empty_true in He. now subst.
  - right. destruct (Str.endswith_char d posixpath.sep) eqn:Hs.
    + now apply endswith_char_cut.
    + now exists d.
Qed.

Lemma split_join : forall d b,
  Str.mem_char posixpath.sep b = false ->
  posixpath.split (posixpath.join d b) = (listed_directory d, b).
Proof.
  intros d b Hb. unfold listed_directory.
  rewrite !join_dir_prefix by (exact Hb || reflexivity).
  destruct (dir_prefix_shape d) as [[_ ->]|[h ->]].
  - simpl. unfold posixpath.split. now rewrite (rcut_none _ _ Hb).
  - rewrite !string_app_assoc. unfold posixpath.split.
    change (h ++ "/" ++ b) with (h ++ String posixpath.sep b).
    change (h ++ "/" ++ "*") with (h ++ String posixpath.sep "*").
    rewrite (rcut_last posixpath.sep h b Hb).
    rewrite (rcut_last posixpath.sep h "*" eq_refl). reflexivity.
Qed.

Lemma split_fst_prefix : forall p, exists r, p = fst (posixpath.split p) ++ r.
Proof.
  intros p. unfold posixpath.split.
  destruct (Str.rcut posixpath.sep p) as [[h t]|] eqn:Hcut; simpl.
  - apply rcut_some in Hcut as [-> _].
    change (h ++ String posixpath.sep t) with (h ++ "/" ++ t).
    destruct (Str.all_char posixpath.sep (h ++ "/")).
    + exists t. now rewrite string_app_assoc.
    + destruct (rstrip_prefix posixpath.sep (h ++ "/")) as [r Hr].
      exists (r ++ t).
      rewrite <- (string_app_assoc (Str.rstrip posixpath.sep (h ++ "/")) r t), <- Hr.
      now rewrite string_app_assoc.
  - now exists p.
Qed.

Lemma split_fst_shorter : forall p,
  String.eqb (fst (posixpath.split p)) p = false ->
  String.length (fst (posixpath.split p)) < String.length p.
Proof.
  intros p Hne. destruct (split_fst_prefix p) as [r Hr].
  destruct r as [|c r].
  - rewrite string_app_nil_r in Hr. rewrite <- Hr, String.eqb_refl in Hne.
    discriminate.
  - rewrite Hr at 2. rewrite string_length_app. simpl. lia.
Qed.

(** ** Wildcard matching of file names *)

Lemma has_magic_app : forall a b,
  glob.has_magic (a ++ b) = glob.has_magic a || glob.has_magic b.
Proof.
  intros a b. unfold glob.has_magic. rewrite !mem_char_app.
  destruct (Str.mem_char "*" a), (Str.mem_char "?" a), (Str.mem_char "[" a),
    (Str.mem_char "*" b), (Str.mem_char "?" b); reflexivity.
Qed.

Lemma has_magic_prefix : forall a r,
  glob.has_magic (a ++ r) = false -> glob.has_magic a = false.
Proof.
  intros a r H. rewrite has_magic_app in H. now apply orb_false_iff in H.
Qed.

Lemma has_magic_dir_prefix : forall d,
  glob.has_magic (dir_prefix d) = glob.has_magic d.
Proof.
  intros d. unfold dir_prefix.
  destruct (Str.is_empty d || Str.endswith_char d posixpath.sep); [reflexivity|].
  rewrite has_magic_app. apply orb_false_r.
Qed.

Lemma has_magic_join : forall d b,
  Str.mem_char posixpath.sep b = false ->
  glob.has_magic (posixpath.join d b) = glob.has_magic d || glob.has_magic b.
Proof.
  intros d b Hb. now rewrite join_dir_prefix, has_magic_app, has_magic_dir_prefix.
Qed.

Lemma listed_directory_prefix : forall d, exists r, dir_prefix d = listed_directory d ++ r.
Proof.
  intros d. unfold listed_directory.
  rewrite join_dir_prefix by reflexivity.
  destruct (dir_prefix_shape d) as [[_ ->]|[h ->]].
  - now exists "".
  - rewrite string_app_assoc. unfold posixpath.split.
    change (h ++ "/" ++ "*") with (h ++ String posixpath.sep "*").
    rewrite (rcut_last posixpath.sep h "*" eq_refl). cbn [fst].
    destruct (Str.all_char posixpath.sep (h ++ "/")).
    + exists "". now rewrite string_app_nil_r.
    + apply rstrip_prefix.
Qed.

Lemma has_magic_listed_directory : forall d,
  glob.has_magic d = false -> glob.has_magic (listed_directory d) = false.
Proof.
  intros d Hd. destruct (listed_directory_prefix d) as [r Hr].
  apply has_magic_prefix with r. now rewrite <- Hr, has_magic_dir_prefix.
Qed.

Lemma listed_directory_differs : forall d b,
  Str.mem_char posixpath.sep b = false -> Str.is_empty b = false ->
  String.eqb (listed_directory d) (posixpath.join d b) = false.
Proof.
  intros d b Hb Hne. apply String.eqb_neq. intros Heq.
  apply (f_equal String.length) in Heq.
  rewrite join_dir_prefix in Heq by exact Hb.
  destruct (listed_directory_prefix d) as [r Hr]. rewrite Hr in Heq.
  rewrite !string_length_app in Heq.
  destruct b; [discriminate|]. simpl in Heq. lia.
Qed.
(** The fuel that [glob.glob] gives to [_iglob] is enough: more changes
    nothing. *)
Lemma iglob_fuel : forall st fuel1 fuel2 pathname dironly,
  String.length pathname < fuel1 -> String.length pathname < fuel2 ->
  glob._iglob st fuel1 pathname dironly = glob._iglob st fuel2 pathname dironly.
Proof.
  intros st. induction fuel1 as [|fuel1 IH]; intros fuel2 pathname dironly H1 H2;
    [lia|].
  destruct fuel2 as [|fuel2]; [lia|].
  cbn [glob._iglob].
  destruct (posixpath.split pathname) as [dirname basename] eqn:Hsplit.
  destruct (negb (glob.has_magic pathname)); [reflexivity|].
  destruct (Str.is_empty dirname); [reflexivity|].
  destruct (negb (String.eqb dirname pathname) && glob.has_magic dirname) eqn:Hrec;
    [|reflexivity].
  apply andb_true_iff in Hrec as [Hne _]. apply negb_true_iff in Hne.
  assert (Hlt : String.length dirname < String.length pathname).
  { replace dirname with (fst (posixpath.split pathname)) in * by (now rewrite Hsplit).
    now apply split_fst_shorter. }
  rewrite (IH fuel2 dirname true) by lia. reflexivity.
Qed.

Lemma filter_all : forall (A : Type) (l : list A), filter (fun _ => true) l = l.
Proof. induction l as [|x l IH]; simpl; [reflexivity|now rewrite IH]. Qed.

Lemma filter_filter : forall (A : Type) (f g : A -> bool) (l : list A),
  filter f (filter g l) = filter (fun x => g x && f x) l.
Proof.
  induction l as [|x l IH]; simpl; [reflexivity|].
  destruct (g x); simpl; [destruct (f x)|]; now rewrite IH.
Qed.

(** [_glob1] on a pattern that does not start with a dot: the visible
    matches of the listing. *)
Lemma glob1_visible : forall st dirname pattern,
  glob._ishidden pattern = false ->
  glob._glob1 st dirname pattern false = visible_matches st dirname pattern.
Proof.
  intros st dirname pattern Hp. unfold glob._glob1, visible_matches, glob._listdir.
  rewrite Hp. cbn [negb orb]. rewrite filter_all.
  unfold fnmatch.filter. now rewrite filter_filter.
Qed.

Lemma glob1_same_tokens : forall st dirname p1 p2 dironly,
  fnmatch.translate p1 = fnmatch.translate p2 ->
  glob._ishidden p1 = glob._ishidden p2 ->
  glob._glob1 st dirname p1 dironly = glob._glob1 st dirname p2 dironly.
Proof.
  intros st dirname p1 p2 dironly Ht Hh. unfold glob._glob1. rewrite Hh.
  unfold fnmatch.filter, fnmatch.fnmatchcase. now rewrite Ht.
Qed.

(** Two patterns with the same tokens, joined to the same directory, have
    the same matches. *)
Lemma glob_same_tokens : forall st directory p1 p2,
  Str.mem_char posixpath.sep p1 = false -> Str.mem_char posixpath.sep p2 = false ->
  glob.has_magic p1 = true -> glob.has_magic p2 = true ->
  fnmatch.translate p1 = fnmatch.translate p2 ->
  glob._ishidden p1 = glob._ishidden p2 ->
  glob.glob st (posixpath.join directory p1) = glob.glob st (posixpath.join directory p2).
Proof.
  intros st directory p1 p2 Hs1 Hs2 Hm1 Hm2 Ht Hh.
  assert (Hn1 : Str.is_empty p1 = false) by (destruct p1; [discriminate Hm1|reflexivity]).
  assert (Hn2 : Str.is_empty p2 = false) by (destruct p2; [discriminate Hm2|reflexivity]).
  unfold glob.glob. cbn [glob._iglob].
  rewrite !split_join by assumption.
  rewrite !has_magic_join, Hm1, Hm2, !orb_true_r by assumption. cbn [negb].
  rewrite !listed_directory_differs by assumption. cbn [negb andb].
  destruct (Str.is_empty (listed_directory directory)).
  - now apply glob1_same_tokens.
  - rewrite (flat_map_ext
               (fun dirname => map (posixpath.join dirname) (glob._glob1 st dirname p1 false))
               (fun dirname => map (posixpath.join dirname) (glob._glob1 st dirname p2 false)))
      by (intros dirname; now rewrite (glob1_same_tokens st dirname p1 p2)).
    destruct (glob.has_magic (listed_directory directory)) eqn:Hmd; [|reflexivity].
    assert (Hlt : forall p, Str.mem_char posixpath.sep p = false -> Str.is_empty p = false ->
                  String.length (listed_directory directory)
                  < String.length (posixpath.join directory p)).
    { intros p Hs Hn.
      replace (listed_directory directory)
        with (fst (posixpath.split (posixpath.join directory p)))
        by (now rewrite split_join).
      apply split_fst_shorter. rewrite split_join by assumption.
      now apply listed_directory_differs. }
    pose proof (Hlt p1 Hs1 Hn1). pose proof (Hlt p2 Hs2 Hn2).
    rewrite (iglob_fuel st _ (String.length (posixpath.join directory p2))
                        (listed_directory directory) true) by lia.
    reflexivity.
Qed.

(** ** Thumbnail resolution *)

(** C3 (amended).  For a model whose directory name holds no digit the
    identifier is absent and the empty string takes its place: strategy 3 is
    not skipped, it searches the model root for [**Thumbnail*.png], which
    has the matches of [*Thumbnail*.png], and the thumbnail is the first
    result among strategies 1, 2, this search and strategy 4. *)
Theorem absent_identifier_searches_any_thumbnail :
  forall (st : Storage) (cwd : string) (tree : os.Dir)
         (model_path model_name : string) (info : ModelInfo),
    search_digits model_name = None ->
    get_model_info st cwd tree model_path model_name = Some info ->
    thing_id info = None
    /\ nth 2 (search_strategies st model_path (or_empty (thing_id info))) None
       = find_first_match st model_path "*Thumbnail*.png"
    /\ thumbnail_path info
       = first_truthy
           [ find_in_images_dir st model_path;
             find_first_match st model_path "*_Thumbnail*.png";
             find_first_match st model_path "*Thumbnail*.png";
             find_first_match st model_path "*.png" ].
Proof.
  intros st cwd tree model_path model_name info Hid Hinfo.
  unfold get_model_info in Hinfo. rewrite Hid in Hinfo.
  destruct (find_model_files cwd model_path tree) as [files|]; [|discriminate].
  destruct (get_readme_content st model_path tree) as [rp rc].
  injection Hinfo as <-. cbn [thing_id thumbnail_path or_empty].
  assert (Hsame : find_first_match st model_path ("*" ++ "" ++ "*Thumbnail*.png")
                  = find_first_match st model_path "*Thumbnail*.png").
  { unfold find_first_match.
    change ("*" ++ "" ++ "*Thumbnail*.png") with "**Thumbnail*.png".
    rewrite (glob_same_tokens st model_path "**Thumbnail*.png" "*Thumbnail*.png")
      by (vm_compute; reflexivity).
    reflexivity. }
  split; [reflexivity|]. split.
  - cbn [search_strategies nth]. exact Hsame.
  - unfold find_thumbnail, search_strategies. now rewrite Hsame.
Qed.

Lemma absent_identifier_witness :
  option_map thumbnail_path
             (get_model_info gears_storage "/" gears_tree "/dl/Toys/gears" "gears")
  = Some (first_truthy
            [ find_in_images_dir gears_storage "/dl/Toys/gears";
              find_first_match gears_storage "/dl/Toys/gears" "*_Thumbnail*.png";
              find_first_match gears_storage "/dl/Toys/gears" "*Thumbnail*.png";
              find_first_match gears_storage "/dl/Toys/gears" "*.png" ]).
Proof.
  destruct (get_model_info gears_storage "/" gears_tree "/dl/Toys/gears" "gears")
    as [info|] eqn:Hinfo; [|discriminate Hinfo].
  cbn [option_map]. f_equal.
  apply (absent_identifier_searches_any_thumbnail
           gears_storage "/" gears_tree "/dl/Toys/gears" "gears" info eq_refl Hinfo).
Defined.

(** C3, as stated, fails: for the model [gears], which has no identifier,
    strategy 3 contributes [bThumbnail.png] and that is the thumbnail,
    whereas going from strategy 2 straight to strategy 4 gives [a.png]. *)
Lemma absent_identifier_strategy_3_not_skipped :
  search_digits "gears" = None
  /\ nth 2 (search_strategies gears_storage "/dl/Toys/gears" "") None
     = Some "/dl/Toys/gears/bThumbnail.png"
  /\ option_map thumbnail_path
                (get_model_info gears_storage "/" gears_tree "/dl/Toys/gears" "gears")
     = Some (Some "/dl/Toys/gears/bThumbnail.png")
  /\ find_thumbnail_skipping_3 gears_storage "/dl/Toys/gears"
     = Some "/dl/Toys/gears/a.png".
Proof. repeat split; vm_compute; reflexivity. Qed.
(** In a directory whose path holds no wildcard, the matches of a pattern
    are the visible entries of that directory that match it. *)
Lemma glob_in_plain_directory : forall st directory pattern,
  glob.has_magic directory = false ->
  Str.mem_char posixpath.sep pattern = false ->
  glob.has_magic pattern = true ->
  glob._ishidden pattern = false ->
  glob.glob st (posixpath.join directory pattern)
  = map (placed (listed_directory directory))
        (visible_matches st (listed_directory directory) pattern).
Proof.
  intros st directory pattern Hd Hs Hm Hh.
  unfold glob.glob. cbn [glob._iglob].
  rewrite split_join by assumption.
  rewrite has_magic_join, Hm, orb_true_r by assumption. cbn [negb].
  rewrite (has_magic_listed_directory _ Hd), andb_false_r.
  unfold placed.
  destruct (Str.is_empty (listed_directory directory)) eqn:He.
  - apply is_empty_true in He. rewrite He.
    rewrite glob1_visible by assumption. now rewrite map_id.
  - cbn [flat_map]. rewrite app_nil_r. now rewrite glob1_visible by assumption.
Qed.

Lemma find_first_match_plain : forall st directory pattern,
  glob.has_magic directory = false ->
  Str.mem_char posixpath.sep pattern = false ->
  glob.has_magic pattern = true ->
  glob._ishidden pattern = false ->
  find_first_match st directory pattern = first_match_in st directory pattern.
Proof.
  intros. unfold find_first_match, first_match_in.
  now rewrite glob_in_plain_directory.
Qed.

Lemma find_in_images_dir_plain : forall st directory,
  glob.has_magic directory = false ->
  find_in_images_dir st directory = first_image_in st directory.
Proof.
  intros st directory Hd. unfold find_in_images_dir, first_image_in, images_in.
  destruct (path_exists st (posixpath.join directory "images")); [|reflexivity].
  cbn [negb flat_map].
  assert (Hi : glob.has_magic (posixpath.join directory "images") = false)
    by (rewrite has_magic_join by reflexivity; now rewrite Hd).
  rewrite !glob_in_plain_directory by (exact Hi || reflexivity).
  now rewrite !map_app.
Qed.

Lemma digits_slash_free : forall s,
  all_digits s = true -> Str.mem_char posixpath.sep s = false.
Proof.
  induction s as [|c s IH]; simpl; [reflexivity|].
  intros H. apply andb_true_iff in H as [Hc Hs]. rewrite (IH Hs), orb_false_r.
  destruct (Ascii.eqb c posixpath.sep) eqn:E; [|reflexivity].
  apply Ascii.eqb_eq in E. subst c. discriminate Hc.
Qed.

Lemma take_digits_all : forall s, all_digits (take_digits s) = true.
Proof.
  induction s as [|c s IH]; simpl; [reflexivity|].
  destruct (is_digit c) eqn:E; simpl; [now rewrite E|reflexivity].
Qed.

(** The identifier that [get_model_info] extracts is made of digits. *)
Lemma search_digits_all : forall model_name,
  all_digits (or_empty (search_digits model_name)) = true.
Proof.
  induction model_name as [|c s IH]; [reflexivity|].
  cbn [search_digits]. destruct (is_digit c) eqn:E; [|exact IH].
  cbn [or_empty]. apply take_digits_all.
Qed.
Lemma image_match_nonempty : forall st dirname name,
  In name (flat_map (fun ext => visible_matches st dirname ("*" ++ ext))
                    [".png"; ".jpg"; ".jpeg"]) ->
  Str.is_empty name = false.
Proof.
  intros st dirname name Hin. cbn [flat_map] in Hin.
  rewrite app_nil_r in Hin.
  destruct name; [|reflexivity].
  repeat (apply in_app_or in Hin as [Hin|Hin]);
    unfold visible_matches in Hin; apply filter_In in Hin as [_ Hm];
    discriminate Hm.
Qed.

Lemma placed_nonempty : forall dirname name,
  Str.is_empty name = false -> Str.is_empty (placed dirname name) = false.
Proof.
  intros dirname name Hn. unfold placed.
  destruct (Str.is_empty dirname); [exact Hn|]. now apply join_nonempty.
Qed.

(** C4 (amended).  For a model directory whose path holds none of the
    wildcard characters [*], [?] and [[] and an identifier made of digits
    (or absent), thumbnail resolution tries, in this order, the images
    subdirectory, [*_Thumbnail*.png], the identifier pattern and [*.png] in
    the root, over the entries that do not start with a dot, and returns the
    first result that is not empty; the result of each strategy is a least
    match in the order of strings; when the images subdirectory exists and
    holds a visible entry with one of the three image extensions, the
    result is a least such entry whatever the root holds; when every
    strategy finds nothing the result is absent. *)
Theorem find_thumbnail_priority_order :
  forall (st : Storage) (directory thing_id : string),
    glob.has_magic directory = false ->
    all_digits thing_id = true ->
    find_thumbnail st directory thing_id
    = first_truthy
        [ first_image_in st directory;
          first_match_in st directory "*_Thumbnail*.png";
          first_match_in st directory ("*" ++ thing_id ++ "*Thumbnail*.png");
          first_match_in st directory "*.png" ]
    /\ (forall l m, first_sorted l = Some m -> least_of l m)
    /\ (forall l, first_sorted l = None <-> l = [])
    /\ (path_exists st (posixpath.join directory "images") = true ->
        images_in st directory <> [] ->
        exists m, find_thumbnail st directory thing_id = Some m
                  /\ least_of (images_in st directory) m)
    /\ (first_image_in st directory = None ->
        first_match_in st directory "*_Thumbnail*.png" = None ->
        first_match_in st directory ("*" ++ thing_id ++ "*Thumbnail*.png") = None ->
        first_match_in st directory "*.png" = None ->
        find_thumbnail st directory thing_id = None).
Proof.
  intros st directory thing_id Hd Hid.
  assert (Hcode :
    find_thumbnail st directory thing_id
    = first_truthy
        [ first_image_in st directory;
          first_match_in st directory "*_Thumbnail*.png";
          first_match_in st directory ("*" ++ thing_id ++ "*Thumbnail*.png");
          first_match_in st directory "*.png" ]).
  { unfold find_thumbnail, search_strategies.
    rewrite (find_in_images_dir_plain st directory Hd).
    rewrite !find_first_match_plain; try exact Hd; try reflexivity.
    change ("*" ++ thing_id ++ "*Thumbnail*.png")
      with (String "*" (thing_id ++ "*Thumbnail*.png")).
    cbn [Str.mem_char]. rewrite mem_char_app, (digits_slash_free _ Hid).
    reflexivity. }
  split; [exact Hcode|]. split; [exact first_sorted_least|].
  split; [exact first_sorted_none|].
  split; [|intros H1 H2 H3 H4; rewrite Hcode, H1, H2, H3, H4; reflexivity].
  intros Hex Hne. rewrite Hcode. unfold first_image_in. rewrite Hex.
  destruct (first_sorted (images_in st directory)) as [m|] eqn:Hm.
  - exists m. pose proof (first_sorted_least _ _ Hm) as Hleast.
    split; [|exact Hleast].
    cbn [first_truthy truthy].
    destruct Hleast as [Hin _]. unfold images_in in Hin.
    apply in_map_iff in Hin as [name [<- Hname]].
    now rewrite (placed_nonempty _ _ (image_match_nonempty _ _ _ Hname)).
  - now apply first_sorted_none in Hm.
Qed.

Lemma find_thumbnail_witness :
  find_thumbnail example_storage "/dl/Toys/thing_12345" "12345"
  = Some "/dl/Toys/thing_12345/images/a.jpg".
Proof.
  rewrite (proj1 (find_thumbnail_priority_order
                    example_storage "/dl/Toys/thing_12345" "12345"
                    eq_refl eq_refl)).
  vm_compute. reflexivity.
Defined.

(** C4, as stated, fails.  The images subdirectory of [thing_9] holds
    [.a.png] and [b.png]: the first of the two in the order of strings is
    [.a.png], and [b.png] is returned, entries that start with a dot being
    left out.  And in the category [Toys [kids]] the model [thing_1] has an
    images subdirectory that holds [a.png], and a [z.png] in its root, yet no
    strategy finds anything, the bracket expression of the path being read
    as a wildcard. *)
Lemma find_thumbnail_not_first_image :
  (scandir dotfile_storage "/dl/Toys/thing_9/images" = [".a.png"; "b.png"]
   /\ snd (posixpath.splitext ".a.png") = ".png"
   /\ String.leb "/dl/Toys/thing_9/images/.a.png" "/dl/Toys/thing_9/images/b.png" = true
   /\ find_thumbnail dotfile_storage "/dl/Toys/thing_9" "9"
      = Some "/dl/Toys/thing_9/images/b.png")
  /\ (path_exists brackets_storage "/dl/Toys [kids]/thing_1/images" = true
      /\ scandir brackets_storage "/dl/Toys [kids]/thing_1/images" = ["a.png"]
      /\ find_in_images_dir brackets_storage "/dl/Toys [kids]/thing_1" = None
      /\ find_thumbnail brackets_storage "/dl/Toys [kids]/thing_1" "1" = None).
Proof. repeat split; vm_compute; reflexivity. Qed.

(** ** Description resolution *)

Lemma readme_in_root_find : forall st directory patterns,
  readme_in_root st directory patterns =
  find (path_exists st) (map (posixpath.join directory) patterns).
Proof.
  intros st directory patterns.
  induction patterns as [|pattern rest IH]; simpl; [reflexivity|].
  destruct (path_exists st (posixpath.join directory pattern)); [reflexivity|exact IH].
Qed.

Lemma readme_among_find : forall pats root files,
  readme_among pats root files =
  option_map (fun rf => posixpath.join (fst rf) (snd rf))
             (find (fun rf => mem_string (Str.lower (snd rf)) pats)
                   (map (pair root) files)).
Proof.
  intros pats root files.
  induction files as [|file rest IH]; simpl; [reflexivity|].
  destruct (mem_string (Str.lower file) pats); [reflexivity|exact IH].
Qed.

Lemma find_app : forall (A : Type) (f : A -> bool) (l1 l2 : list A),
  find f (l1 ++ l2)%list =
  match find f l1 with
  | Some x => Some x
  | None => find f l2
  end.
Proof.
  intros A f l1 l2. induction l1 as [|x r IH]; simpl; [reflexivity|].
  destruct (f x); [reflexivity|exact IH].
Qed.

Lemma readme_in_walk_find : forall triples,
  readme_in_walk (map Str.lower readme_patterns) triples =
  first_readme_of_walk triples.
Proof.
  unfold first_readme_of_walk.
  induction triples as [|[[root dirs] files] rest IH]; [reflexivity|].
  cbn [readme_in_walk walk_files flat_map fst snd].
  rewrite find_app, readme_among_find.
  fold (walk_files rest). unfold is_readme_name in *.
  destruct (find _ (map (pair root) files)); [reflexivity|exact IH].
Qed.

Lemma find_some_in : forall (A : Type) (f : A -> bool) (l : list A) (x : A),
  find f l = Some x -> In x l /\ f x = true.
Proof. intros A f l x H. now apply find_some in H. Qed.

Lemma find_readme_nonempty : forall st directory tree p,
  find_readme st directory tree = Some p -> Str.is_empty p = false.
Proof.
  intros st directory tree p. unfold find_readme.
  rewrite readme_in_root_find, readme_in_walk_find.
  destruct (find (path_exists st) _) as [q|] eqn:Hroot.
  - intros [= ->]. apply find_some_in in Hroot as [Hin _].
    apply in_map_iff in Hin as [pattern [<- Hpat]].
    apply join_nonempty.
    unfold readme_patterns in Hpat. simpl in Hpat.
    repeat (destruct Hpat as [<- | Hpat]; [reflexivity|]). contradiction.
  - unfold first_readme_of_walk.
    destruct (find _ (walk_files _)) as [[root file]|] eqn:Hwalk; [|discriminate].
    intros [= <-]. apply find_some_in in Hwalk as [_ Hname].
    apply join_nonempty. simpl in *.
    destruct file; [discriminate Hname | reflexivity].
Qed.

(** C5 (amended).  Description resolution checks the twelve candidate names
    in the model root, as they are spelled and in their order, and returns
    the first that exists; only when none exists does it walk the model
    directory top-down, the files of the root itself first, and return the
    first file whose lowercased name is a lowercased candidate; it returns
    nothing when neither search finds a file. *)
Theorem find_readme_root_then_walk :
  forall (st : Storage) (directory : string) (tree : os.Dir),
    List.length readme_patterns = 12
    /\ find_readme st directory tree =
       match find (path_exists st) (map (posixpath.join directory) readme_patterns) with
       | Some p => Some p
       | None => first_readme_of_walk (os.walk directory tree)
       end
    /\ walk_files (os.walk directory tree) =
       (map (pair directory) (os.nondirs_of tree)
        ++ walk_files
             (flat_map (fun entry => os.walk (posixpath.join directory (fst entry)) (snd entry))
                       (os.dirs_of tree)))%list.
Proof.
  intros st directory tree. split; [reflexivity|]. split.
  - unfold find_readme. rewrite readme_in_root_find, readme_in_walk_find.
    reflexivity.
  - destruct tree as [nondirs dirs]. reflexivity.
Qed.

(** C5, as stated, fails: a root that holds only [README.TXT] has no
    candidate spelled that way and no subdirectory, yet the file is found,
    by the walk, which visits the root. *)
Lemma find_readme_walk_visits_root :
  find_readme capitals_storage "/dl/Toys/thing_7" capitals_tree
  = Some "/dl/Toys/thing_7/README.TXT"
  /\ find_readme_subdirectories_only capitals_storage "/dl/Toys/thing_7" capitals_tree
     = None.
Proof. split; reflexivity. Qed.

(** ** Walking a directory tree *)

Lemma Dir_induction : forall P : os.Dir -> Prop,
  (forall nondirs dirs, Forall (fun entry => P (snd entry)) dirs ->
                        P (os.mkDir nondirs dirs)) ->
  forall d, P d.
Proof.
  intros P Hstep. fix IH 1. intros [nondirs dirs]. apply Hstep.
  induction dirs as [|entry dirs IHd]; constructor; [apply IH|exact IHd].
Qed.

(** Every triple of a walk of a well-named tree lies below the top through
    valid names and lists valid file names. *)
Lemma walk_triples : forall tree directory names root dirs files,
  well_named tree = true ->
  forallb valid_name names = true ->
  In (root, dirs, files) (os.walk (descend directory names) tree) ->
  exists more,
    forallb valid_name more = true
    /\ root = descend directory (names ++ more)
    /\ forallb valid_name files = true.
Proof.
  induction tree as [nondirs subdirs IH] using Dir_induction.
  intros directory names root dirs files Hwf Hnames Hin.
  cbn [well_named] in Hwf. apply andb_true_iff in Hwf as [Hfiles Hsub].
  cbn [os.walk] in Hin. destruct Hin as [Heq|Hin].
  - injection Heq as <- _ <-. exists []. rewrite app_nil_r. auto.
  - apply in_flat_map in Hin as [[n sub] [Hentry Hin]]. cbn [fst snd] in Hin.
    rewrite Forall_forall in IH. specialize (IH _ Hentry). cbn [snd] in IH.
    rewrite forallb_forall in Hsub. specialize (Hsub _ Hentry). cbn [fst snd] in Hsub.
    apply andb_true_iff in Hsub as [Hn Hsubwf].
    change (posixpath.join (descend directory names) n)
      with (fold_left posixpath.join [n] (descend directory names)) in Hin.
    unfold descend in Hin. rewrite <- fold_left_app in Hin.
    fold (descend directory (names ++ [n])) in Hin.
    destruct (IH directory (names ++ [n])%list root dirs files Hsubwf) as [more [Hm [Hr Hf]]].
    + rewrite forallb_app, Hnames. cbn. now rewrite Hn.
    + exact Hin.
    + exists (n :: more). cbn [forallb]. rewrite Hn, Hm.
      rewrite <- app_assoc in Hr. auto.
Qed.

(** ** Paths below a directory *)

Lemma valid_name_facts : forall n,
  valid_name n = true ->
  Str.is_empty n = false /\ Str.mem_char posixpath.sep n = false
  /\ String.eqb n "" = false /\ String.eqb n "." = false /\ String.eqb n ".." = false.
Proof.
  intros n H. unfold valid_name in H.
  apply andb_true_iff in H as [H H4]. apply andb_true_iff in H as [H H3].
  apply andb_true_iff in H as [H1 H2].
  apply negb_true_iff in H1, H2, H3, H4. repeat split; try assumption.
  destruct n; [discriminate|reflexivity].
Qed.

Lemma join_relative : forall d b,
  Str.startswith b "/" = false -> posixpath.join d b = dir_prefix d ++ b.
Proof.
  intros d b Hb. unfold posixpath.join, dir_prefix. rewrite Hb.
  destruct (Str.is_empty d || Str.endswith_char d posixpath.sep); [reflexivity|].
  now rewrite string_app_assoc.
Qed.

Lemma endswith_char_app : forall a b c,
  Str.is_empty b = false ->
  Str.endswith_char (a ++ b) c = Str.endswith_char b c.
Proof.
  intros a b c Hb. induction a as [|x a IH]; [reflexivity|].
  cbn [append Str.endswith_char]. rewrite IH.
  destruct (a ++ b) eqn:E; [|reflexivity].
  destruct a; [cbn in E; subst b; discriminate Hb|discriminate E].
Qed.

Lemma endswith_slash_free : forall n,
  Str.mem_char posixpath.sep n = false -> Str.endswith_char n posixpath.sep = false.
Proof.
  induction n as [|c r IH]; [reflexivity|].
  cbn [Str.mem_char Str.endswith_char]. intros H.
  apply orb_false_iff in H as [Hc Hr]. destruct r; [exact Hc|now apply IH].
Qed.

Lemma is_empty_app : forall a b,
  Str.is_empty b = false -> Str.is_empty (a ++ b) = false.
Proof. intros [|x a] b Hb; [exact Hb|reflexivity]. Qed.

(** Below a path that is not empty and does not end with a slash, joining
    names one after the other appends them, each behind a slash. *)
Lemma fold_join_slashed : forall names x,
  forallb valid_name names = true ->
  Str.is_empty x = false -> Str.endswith_char x posixpath.sep = false ->
  fold_left posixpath.join names x = x ++ slashed names.
Proof.
  induction names as [|n rest IH]; intros x Hv Hx Hs; cbn [fold_left slashed].
  - now rewrite string_app_nil_r.
  - cbn [forallb] in Hv. apply andb_true_iff in Hv as [Hn Hrest].
    destruct (valid_name_facts _ Hn) as [Hne [Hsf _]].
    rewrite join_relative by (now apply startswith_slash_free).
    unfold dir_prefix. rewrite Hx, Hs. cbn [orb].
    rewrite IH; try assumption.
    + now rewrite !string_app_assoc.
    + now apply is_empty_app.
    + rewrite endswith_char_app by assumption. now apply endswith_slash_free.
Qed.

Lemma str_join_slashed : forall n rest,
  Str.join "/" (n :: rest) = n ++ slashed rest.
Proof.
  intros n rest. revert n. induction rest as [|m rest IH]; intros n.
  - cbn. now rewrite string_app_nil_r.
  - change (Str.join "/" (n :: m :: rest))
      with (n ++ "/" ++ Str.join "/" (m :: rest)).
    now rewrite IH.
Qed.

(** The path reached through valid names: the directory, a slash unless it
    ends with one or is empty, and the names separated by slashes. *)
Lemma descend_valid : forall directory n rest,
  forallb valid_name (n :: rest) = true ->
  descend directory (n :: rest) = dir_prefix directory ++ Str.join "/" (n :: rest).
Proof.
  intros directory n rest Hv. cbn [forallb] in Hv.
  apply andb_true_iff in Hv as [Hn Hrest].
  destruct (valid_name_facts _ Hn) as [Hne [Hsf _]].
  unfold descend. cbn [fold_left].
  rewrite join_relative by (now apply startswith_slash_free).
  rewrite fold_join_slashed; try assumption.
  - now rewrite str_join_slashed, string_app_assoc.
  - now apply is_empty_app.
  - rewrite endswith_char_app by assumption. now apply endswith_slash_free.
Qed.

Lemma join_all_valid : forall n rest,
  forallb valid_name (n :: rest) = true ->
  posixpath.join_all (n :: rest) = Str.join "/" (n :: rest).
Proof.
  intros n rest Hv. cbn [forallb] in Hv.
  apply andb_true_iff in Hv as [Hn Hrest].
  destruct (valid_name_facts _ Hn) as [Hne [Hsf _]].
  cbn [posixpath.join_all]. rewrite fold_join_slashed; try assumption.
  - now rewrite str_join_slashed.
  - now apply endswith_slash_free.
Qed.

(** ** Splitting a path into its components *)

Lemma split_not_nil : forall s, Str.split posixpath.sep s <> [].
Proof.
  induction s as [|c r IH]; cbn [Str.split]; [discriminate|].
  destruct (Ascii.eqb c posixpath.sep); [discriminate|].
  destruct (Str.split posixpath.sep r); discriminate.
Qed.

Lemma split_app_sep : forall a b,
  Str.split posixpath.sep (a ++ String posixpath.sep b)
  = (Str.split posixpath.sep a ++ Str.split posixpath.sep b)%list.
Proof.
  intros a b. induction a as [|c r IH].
  - reflexivity.
  - cbn [append Str.split]. rewrite IH.
    destruct (Ascii.eqb c posixpath.sep); [reflexivity|].
    pose proof (split_not_nil r) as Hr.
    destruct (Str.split posixpath.sep r) as [|h t]; [contradiction|reflexivity].
Qed.

Lemma split_slash_free_name : forall n,
  Str.mem_char posixpath.sep n = false -> Str.split posixpath.sep n = [n].
Proof.
  induction n as [|c r IH]; [reflexivity|].
  cbn [Str.mem_char Str.split]. intros H. apply orb_false_iff in H as [Hc Hr].
  rewrite Hc, (IH Hr). reflexivity.
Qed.

Lemma split_slashed : forall names x,
  Forall (fun n => Str.mem_char posixpath.sep n = false) names ->
  Str.split posixpath.sep (x ++ slashed names)
  = (Str.split posixpath.sep x ++ names)%list.
Proof.
  induction names as [|n rest IH]; intros x Hv; cbn [slashed].
  - now rewrite string_app_nil_r, app_nil_r.
  - inversion Hv as [|? ? Hsf Hrest]; subst.
    rewrite <- !string_app_assoc. rewrite (IH _ Hrest).
    change (x ++ "/") with (x ++ String posixpath.sep "").
    rewrite string_app_assoc.
    change (String posixpath.sep "" ++ n) with (String posixpath.sep n).
    rewrite split_app_sep, (split_slash_free_name _ Hsf).
    now rewrite <- app_assoc.
Qed.

Lemma valid_names_slash_free : forall names,
  forallb valid_name names = true ->
  Forall (fun n => Str.mem_char posixpath.sep n = false) names.
Proof.
  intros names H. apply Forall_forall. intros n Hn.
  rewrite forallb_forall in H. now destruct (valid_name_facts _ (H _ Hn)) as [_ [? _]].
Qed.

(** ** Normalizing a path *)

Lemma split_all_slash_free : forall s,
  Forall (fun n => Str.mem_char posixpath.sep n = false) (Str.split posixpath.sep s).
Proof.
  induction s as [|c r IH]; cbn [Str.split].
  - constructor; [reflexivity|constructor].
  - destruct (Ascii.eqb c posixpath.sep) eqn:Hc.
    + constructor; [reflexivity|exact IH].
    + destruct (Str.split posixpath.sep r) as [|h t].
      * constructor; [cbn; now rewrite Hc|constructor].
      * inversion IH as [|? ? Hh Ht]; subst.
        constructor; [cbn; now rewrite Hc, Hh|exact Ht].
Qed.

Lemma Forall_removelast : forall (A : Type) (P : A -> Prop) (l : list A),
  Forall P l -> Forall P (removelast l).
Proof.
  intros A P l H. induction H as [|x l Hx Hl IH]; [constructor|].
  cbn [removelast]. destruct l; [constructor|]. now constructor.
Qed.

Lemma norm_step_components : forall i acc comp,
  Forall is_component acc -> Str.mem_char posixpath.sep comp = false ->
  Forall is_component (posixpath.norm_step i acc comp).
Proof.
  intros i acc comp Hacc Hsf. unfold posixpath.norm_step.
  destruct (String.eqb comp "" || String.eqb comp ".") eqn:Hskip; [exact Hacc|].
  match goal with |- Forall _ (if ?c then _ else _) => destruct c end.
  - apply Forall_app. split; [exact Hacc|].
    constructor; [|constructor]. split; [|exact Hsf].
    apply orb_false_iff in Hskip as [He _]. destruct comp; [discriminate He|reflexivity].
  - now apply Forall_removelast.
Qed.

Lemma norm_fold_components : forall i l acc,
  Forall is_component acc ->
  Forall (fun n => Str.mem_char posixpath.sep n = false) l ->
  Forall is_component (fold_left (posixpath.norm_step i) l acc).
Proof.
  intros i l. induction l as [|c l IH]; intros acc Hacc Hl; [exact Hacc|].
  inversion Hl as [|? ? Hc Hrest]; subst. cbn [fold_left].
  apply IH; [|exact Hrest]. now apply norm_step_components.
Qed.

Lemma norm_step_absolute : forall i acc comp,
  i <> 0 -> posixpath.norm_step i acc comp = posixpath.norm_step 1 acc comp.
Proof.
  intros [|i] acc comp Hi; [contradiction|]. reflexivity.
Qed.

Lemma norm_fold_absolute : forall i l acc,
  i <> 0 ->
  fold_left (posixpath.norm_step i) l acc = fold_left (posixpath.norm_step 1) l acc.
Proof.
  intros i l. induction l as [|c l IH]; intros acc Hi; [reflexivity|].
  cbn [fold_left]. rewrite norm_step_absolute by exact Hi. now apply IH.
Qed.

Lemma norm_fold_valid : forall i names acc,
  forallb valid_name names = true ->
  fold_left (posixpath.norm_step i) names acc = (acc ++ names)%list.
Proof.
  intros i names. induction names as [|n rest IH]; intros acc Hv; cbn [fold_left].
  - now rewrite app_nil_r.
  - cbn [forallb] in Hv. apply andb_true_iff in Hv as [Hn Hrest].
    destruct (valid_name_facts _ Hn) as [_ [_ [He [Hd Hdd]]]].
    unfold posixpath.norm_step at 2. rewrite He, Hd, Hdd. cbn [orb negb].
    rewrite (IH _ Hrest). now rewrite <- app_assoc.
Qed.

Lemma initial_slashes_absolute : forall p,
  posixpath.isabs p = true -> posixpath.initial_slashes p <> 0.
Proof.
  intros p Hp. unfold posixpath.initial_slashes, posixpath.isabs in *.
  rewrite Hp. now destruct (_ && _).
Qed.

(** The components of an absolute path once normalized. *)
Lemma norm_comps_absolute : forall p,
  posixpath.isabs p = true ->
  posixpath.norm_comps p
  = fold_left (posixpath.norm_step 1) (Str.split posixpath.sep p) [].
Proof.
  intros p Hp. unfold posixpath.norm_comps.
  apply norm_fold_absolute. now apply initial_slashes_absolute.
Qed.

Lemma norm_comps_components : forall p, Forall is_component (posixpath.norm_comps p).
Proof.
  intros p. unfold posixpath.norm_comps.
  apply norm_fold_components; [constructor|apply split_all_slash_free].
Qed.

Lemma filter_components : forall l,
  Forall is_component l -> filter (fun x => negb (Str.is_empty x)) l = l.
Proof.
  intros l H. induction H as [|x l [Hx _] Hl IH]; [reflexivity|].
  cbn [filter]. now rewrite Hx, IH.
Qed.

Lemma split_str_join : forall l,
  Forall is_component l ->
  filter (fun x => negb (Str.is_empty x)) (Str.split posixpath.sep (Str.join "/" l)) = l.
Proof.
  intros [|n rest] H; [reflexivity|].
  rewrite str_join_slashed.
  inversion H as [|? ? [Hne Hsf] Hrest]; subst.
  rewrite split_slashed.
  - rewrite (split_slash_free_name _ Hsf). now apply filter_components.
  - apply Forall_forall. intros m Hm. rewrite Forall_forall in Hrest.
    now destruct (Hrest _ Hm).
Qed.

(** [relpath] reads back the normalized components of an absolute path. *)
Lemma normpath_components : forall p,
  posixpath.isabs p = true ->
  filter (fun x => negb (Str.is_empty x))
         (Str.split posixpath.sep (posixpath.normpath p))
  = posixpath.norm_comps p.
Proof.
  intros p Hp. unfold posixpath.normpath.
  assert (Hne : Str.is_empty p = false) by (destruct p; [discriminate Hp|reflexivity]).
  rewrite Hne.
  pose proof (split_str_join _ (norm_comps_components p)) as Hread.
  pose proof (initial_slashes_absolute _ Hp) as Hi.
  destruct (posixpath.initial_slashes p) as [|[|k]]; [contradiction| |].
  - cbn [Str.is_empty append].
    change (String "/" (Str.join "/" (posixpath.norm_comps p)))
      with ("" ++ String posixpath.sep (Str.join "/" (posixpath.norm_comps p))).
    rewrite split_app_sep. cbn [Str.split app filter Str.is_empty negb]. exact Hread.
  - cbn [Str.is_empty append].
    change (String "/" (String "/" (Str.join "/" (posixpath.norm_comps p))))
      with ("" ++ String posixpath.sep
               ("" ++ String posixpath.sep (Str.join "/" (posixpath.norm_comps p)))).
    rewrite !split_app_sep. cbn [Str.split app filter Str.is_empty negb]. exact Hread.
Qed.

(** ** The relative path of an entry below the scanned directory *)

Lemma dir_prefix_cases : forall d,
  Str.is_empty d = false ->
  exists g, dir_prefix d = g ++ "/" /\ (d = g \/ d = g ++ "/").
Proof.
  intros d Hd. unfold dir_prefix. rewrite Hd. cbn [orb].
  destruct (Str.endswith_char d posixpath.sep) eqn:Hs.
  - destruct (endswith_char_cut _ _ Hs) as [g Hg]. exists g. split; [exact Hg|now right].
  - exists d. split; [reflexivity|now left].
Qed.

Lemma norm_fold_trailing_slash : forall i y,
  fold_left (posixpath.norm_step i) (Str.split posixpath.sep (y ++ "/")) []
  = fold_left (posixpath.norm_step i) (Str.split posixpath.sep y) [].
Proof.
  intros i y. change (y ++ "/") with (y ++ String posixpath.sep "").
  rewrite split_app_sep, fold_left_app. reflexivity.
Qed.

Lemma startswith_app : forall a b,
  Str.is_empty a = false -> Str.startswith (a ++ b) "/" = Str.startswith a "/".
Proof.
  intros [|c a] b Ha; [discriminate Ha|]. unfold Str.startswith.
  cbn [append String.prefix]. destruct (ascii_dec "/" c); [|reflexivity].
  destruct (a ++ b); now destruct a.
Qed.

Lemma absolute_not_empty : forall p, posixpath.isabs p = true -> Str.is_empty p = false.
Proof. intros [|c p] H; [discriminate H|reflexivity]. Qed.

Lemma dir_prefix_absolute : forall cwd x,
  posixpath.isabs cwd = true -> posixpath.isabs (dir_prefix cwd ++ x) = true.
Proof.
  intros cwd x Hcwd. pose proof (absolute_not_empty _ Hcwd) as Hne.
  unfold posixpath.isabs in *. unfold dir_prefix.
  destruct (Str.is_empty cwd || Str.endswith_char cwd posixpath.sep).
  - now rewrite startswith_app.
  - now rewrite string_app_assoc, startswith_app.
Qed.

(** The path of an entry below the directory, made absolute, extends the
    directory made absolute by the names of the entry, up to a trailing
    slash of the directory. *)
Lemma anchored_below : forall cwd directory n rest,
  posixpath.isabs cwd = true ->
  forallb valid_name (n :: rest) = true ->
  exists h0,
    anchored cwd (descend directory (n :: rest)) = h0 ++ slashed (n :: rest)
    /\ fold_left (posixpath.norm_step 1) (Str.split posixpath.sep h0) []
       = fold_left (posixpath.norm_step 1)
                   (Str.split posixpath.sep (anchored cwd directory)) []
    /\ posixpath.isabs (anchored cwd directory) = true
    /\ posixpath.isabs (anchored cwd (descend directory (n :: rest))) = true.
Proof.
  intros cwd directory n rest Hcwd Hv.
  rewrite (descend_valid _ _ _ Hv), str_join_slashed.
  pose proof Hv as Hv'. cbn [forallb] in Hv'. apply andb_true_iff in Hv' as [Hn _].
  destruct (valid_name_facts _ Hn) as [Hne [Hsf _]].
  pose proof (startswith_slash_free _ Hsf) as Hrel.
  destruct (dir_prefix_cases cwd (absolute_not_empty _ Hcwd)) as [gc [Hgc _]].
  unfold anchored.
  destruct (Str.is_empty directory) eqn:Hd.
  - apply is_empty_true in Hd. subst directory.
    change (dir_prefix "") with "". cbn [append].
    change (posixpath.isabs "") with false. cbn iota.
    assert (Hab : posixpath.isabs (n ++ slashed rest) = false)
      by (unfold posixpath.isabs; now rewrite startswith_app).
    rewrite Hab.
    rewrite !join_relative by (reflexivity || exact Hab).
    rewrite string_app_nil_r.
    exists gc. repeat split.
    + rewrite Hgc. now rewrite !string_app_assoc.
    + rewrite Hgc. now rewrite norm_fold_trailing_slash.
    + rewrite <- (string_app_nil_r (dir_prefix cwd)). now apply dir_prefix_absolute.
    + now apply dir_prefix_absolute.
  - destruct (dir_prefix_cases directory Hd) as [g [Hg Hcase]].
    assert (Habs : posixpath.isabs (dir_prefix directory ++ n ++ slashed rest)
                   = posixpath.isabs directory).
    { unfold posixpath.isabs, dir_prefix. rewrite Hd. cbn [orb].
      destruct (Str.endswith_char directory posixpath.sep).
      - now rewrite startswith_app.
      - now rewrite !string_app_assoc, startswith_app. }
    destruct (posixpath.isabs directory) eqn:Hdabs; rewrite Habs; cbn iota.
    + exists g. repeat split.
      * rewrite Hg. now rewrite !string_app_assoc.
      * destruct Hcase as [Hc|Hc]; rewrite Hc; [reflexivity|].
        now rewrite norm_fold_trailing_slash.
      * exact Hdabs.
      * exact Habs.
    + rewrite !join_relative by (exact Habs || exact Hdabs).
      exists (dir_prefix cwd ++ g). repeat split.
      * rewrite Hg. now rewrite !string_app_assoc.
      * destruct Hcase as [Hc|Hc]; rewrite Hc; [reflexivity|].
        now rewrite <- string_app_assoc, norm_fold_trailing_slash.
      * now apply dir_prefix_absolute.
      * now apply dir_prefix_absolute.
Qed.

Lemma commonprefix_app : forall l r, posixpath.commonprefix l (l ++ r) = l.
Proof.
  induction l as [|x l IH]; intros r; cbn [posixpath.commonprefix app].
  - now destruct r.
  - now rewrite String.eqb_refl, IH.
Qed.

Lemma skipn_app_exact : forall (A : Type) (l r : list A),
  skipn (List.length l) (l ++ r) = r.
Proof. induction l as [|x l IH]; intros r; [reflexivity|apply IH]. Qed.

(** The relative path of an entry reached from the directory through valid
    names: those names joined by slashes. *)
Lemma relpath_below : forall cwd directory n rest,
  posixpath.isabs cwd = true ->
  forallb valid_name (n :: rest) = true ->
  posixpath.relpath cwd (descend directory (n :: rest)) directory
  = Some (Str.join "/" (n :: rest)).
Proof.
  intros cwd directory n rest Hcwd Hv.
  destruct (anchored_below cwd directory n rest Hcwd Hv) as [h0 [Hp1 [Hfold [Habs0 Habs1]]]].
  unfold posixpath.relpath.
  assert (Hne : Str.is_empty (descend directory (n :: rest)) = false).
  { rewrite (descend_valid _ _ _ Hv), str_join_slashed.
    pose proof Hv as Hv'. cbn [forallb] in Hv'. apply andb_true_iff in Hv' as [Hn _].
    destruct (valid_name_facts _ Hn) as [Hnn _].
    apply is_empty_app. destruct n; [discriminate Hnn|reflexivity]. }
  rewrite Hne. unfold posixpath.abspath.
  fold (anchored cwd directory). fold (anchored cwd (descend directory (n :: rest))).
  rewrite !normpath_components by assumption.
  rewrite !norm_comps_absolute by assumption.
  rewrite Hp1, split_slashed by (now apply valid_names_slash_free).
  rewrite fold_left_app, (norm_fold_valid _ _ _ Hv), Hfold.
  rewrite commonprefix_app, skipn_app_exact, Nat.sub_diag. cbn [repeat app].
  now rewrite (join_all_valid _ _ Hv).
Qed.

(** ** Model-file enumeration *)

Lemma slashed_app : forall a b, slashed (a ++ b) = slashed a ++ slashed b.
Proof.
  induction a as [|n a IH]; intros b; cbn [slashed app]; [reflexivity|].
  now rewrite IH, !string_app_assoc.
Qed.

(** The extension of a path is the extension of its last component. *)
Lemma splitext_last_component : forall y file,
  Str.mem_char posixpath.sep file = false ->
  y = "" \/ (exists h, y = h ++ "/") ->
  snd (posixpath.splitext (y ++ file)) = snd (posixpath.splitext file).
Proof.
  intros y file Hsf Hy. unfold posixpath.splitext.
  rewrite (rcut_none _ _ Hsf).
  destruct Hy as [->|[h ->]].
  - cbn [append]. now rewrite (rcut_none _ _ Hsf).
  - rewrite string_app_assoc.
    change (h ++ "/" ++ file) with (h ++ String posixpath.sep file).
    rewrite (rcut_last _ _ _ Hsf).
    destruct (Str.rcut "." file) as [[stem e]|]; [|reflexivity].
    now destruct (Str.all_char "." stem).
Qed.

Lemma path_ends_with_file : forall names file,
  Str.join "/" (names ++ [file]) = "" ++ file
  \/ exists h, Str.join "/" (names ++ [file]) = (h ++ "/") ++ file.
Proof.
  intros [|n rest] file; [now left|right].
  cbn [app]. rewrite str_join_slashed, slashed_app. cbn [slashed].
  exists (n ++ slashed rest). now rewrite string_app_nil_r, !string_app_assoc.
Qed.

(** What the source records for one file that passes the extension test. *)
Lemma model_file_entry : forall cwd directory names file,
  posixpath.isabs cwd = true ->
  forallb valid_name names = true -> valid_name file = true ->
  let abs_path := posixpath.join (descend directory names) file in
  exists rel_path,
    posixpath.relpath cwd abs_path directory = Some rel_path
    /\ posixpath.join directory rel_path = abs_path
    /\ snd (posixpath.splitext abs_path) = snd (posixpath.splitext file)
    /\ snd (posixpath.splitext rel_path) = snd (posixpath.splitext file).
Proof.
  intros cwd directory names file Hcwd Hnames Hfile abs_path.
  assert (Habs : abs_path = descend directory (names ++ [file]))
    by (unfold abs_path, descend; now rewrite fold_left_app).
  assert (Hall : forallb valid_name (names ++ [file]) = true)
    by (rewrite forallb_app, Hnames; cbn; now rewrite Hfile).
  destruct (valid_name_facts _ Hfile) as [_ [Hsf _]].
  pose proof (path_ends_with_file names file) as Hend.
  destruct (names ++ [file])%list as [|n rest] eqn:Hcomps;
    [now destruct names|].
  exists (Str.join "/" (n :: rest)). rewrite Habs. repeat split.
  - now apply relpath_below.
  - rewrite (descend_valid _ _ _ Hall). apply join_relative.
    cbn [forallb] in Hall. apply andb_true_iff in Hall as [Hn _].
    destruct (valid_name_facts _ Hn) as [Hne [Hnsf _]].
    rewrite str_join_slashed, startswith_app by exact Hne.
    now apply startswith_slash_free.
  - rewrite (descend_valid _ _ _ Hall).
    destruct Hend as [->|[h ->]].
    + cbn [append]. apply splitext_last_component; [exact Hsf|].
      destruct (dir_prefix_shape directory) as [[_ ->]|[g ->]]; [now left|right; now exists g].
    + rewrite <- !string_app_assoc. apply splitext_last_component; [exact Hsf|].
      right. now exists (dir_prefix directory ++ h).
  - destruct Hend as [->|[h ->]].
    + reflexivity.
    + apply splitext_last_component; [exact Hsf|right; now exists h].
Qed.

Lemma model_files_among_pairs : forall cwd directory names files,
  posixpath.isabs cwd = true ->
  forallb valid_name names = true -> forallb valid_name files = true ->
  exists l,
    model_files_among cwd directory (descend directory names) files = Some l
    /\ Forall (recorded_pair directory) l.
Proof.
  intros cwd directory names files Hcwd Hnames.
  induction files as [|file rest IH]; intros Hfiles.
  - exists []. split; [reflexivity|constructor].
  - cbn [forallb] in Hfiles. apply andb_true_iff in Hfiles as [Hfile Hrest].
    destruct (IH Hrest) as [l [Hl Hall]].
    cbn [model_files_among].
    destruct (mem_string (Str.lower (snd (posixpath.splitext file))) model_extensions)
      eqn:Hext; [|now exists l].
    destruct (model_file_entry cwd directory names file Hcwd Hnames Hfile)
      as [rel [Hrel [Hjoin [Hea Her]]]].
    rewrite Hrel, Hl. cbn [option_map].
    exists ((rel, posixpath.join (descend directory names) file) :: l).
    split; [reflexivity|]. constructor; [|exact Hall].
    unfold recorded_pair. cbn [fst snd]. now rewrite Hea, Her.
Qed.

Lemma model_files_in_walk_pairs : forall cwd directory triples,
  posixpath.isabs cwd = true ->
  (forall root dirs files, In (root, dirs, files) triples ->
     exists names, forallb valid_name names = true
                   /\ root = descend directory names
                   /\ forallb valid_name files = true) ->
  exists l,
    model_files_in_walk cwd directory triples = Some l
    /\ Forall (recorded_pair directory) l.
Proof.
  intros cwd directory triples Hcwd.
  induction triples as [|[[root dirs] files] rest IH]; intros Hshape.
  - exists []. split; [reflexivity|constructor].
  - destruct (Hshape root dirs files (or_introl eq_refl)) as [names [Hn [-> Hf]]].
    destruct (model_files_among_pairs cwd directory names files Hcwd Hn Hf) as [here [Hh Hhere]].
    destruct IH as [l [Hl Hall]].
    { intros r d f Hin. apply (Hshape r d f). now right. }
    cbn [model_files_in_walk]. rewrite Hh, Hl. cbn [option_map].
    exists (here ++ l)%list. split; [reflexivity|].
    apply Forall_app. now split.
Qed.

(** C10.  Run from an absolute working directory on a tree whose names are
    names a directory listing can hold, model-file enumeration raises
    nothing, and for every pair it records, joining the scanned directory
    with the relative path gives exactly the absolute path, and the
    extension of the pair, lowercased, is one of [.stl], [.obj], [.3mf]. *)
Theorem model_files_join_and_extension :
  forall (cwd directory : string) (tree : os.Dir),
    posixpath.isabs cwd = true ->
    well_named tree = true ->
    exists l,
      find_model_files cwd directory tree = Some l
      /\ forall rel_path abs_path,
           In (rel_path, abs_path) l ->
           posixpath.join directory rel_path = abs_path
           /\ mem_string (Str.lower (snd (posixpath.splitext abs_path)))
                         model_extensions = true
           /\ mem_string (Str.lower (snd (posixpath.splitext rel_path)))
                         model_extensions = true.
Proof.
  intros cwd directory tree Hcwd Hwf.
  destruct (model_files_in_walk_pairs cwd directory (os.walk directory tree) Hcwd)
    as [l [Hl Hall]].
  - intros root dirs files Hin.
    destruct (walk_triples tree directory [] root dirs files Hwf eq_refl Hin)
      as [more [Hm [Hr Hf]]].
    now exists more.
  - exists l. split; [exact Hl|].
    intros rel_path abs_path Hin. rewrite Forall_forall in Hall.
    exact (Hall _ Hin).
Qed.

Lemma model_files_witness :
  exists l,
    find_model_files "/home/user/app" "downloads/Toys/thing_12345" example_tree = Some l
    /\ In ("parts/part.3MF", "downloads/Toys/thing_12345/parts/part.3MF") l
    /\ posixpath.join "downloads/Toys/thing_12345" "parts/part.3MF"
       = "downloads/Toys/thing_12345/parts/part.3MF".
Proof.
  destruct (model_files_join_and_extension
              "/home/user/app" "downloads/Toys/thing_12345" example_tree
              eq_refl eq_refl) as [l [Hl Hpairs]].
  exists l. split; [exact Hl|].
  assert (Hin : In ("parts/part.3MF", "downloads/Toys/thing_12345/parts/part.3MF") l).
  { vm_compute in Hl. injection Hl as <-. simpl. tauto. }
  split; [exact Hin|]. exact (proj1 (Hpairs _ _ Hin)).
Defined.

Lemma relpath_total : forall cwd path start,
  Str.is_empty path = false -> exists r, posixpath.relpath cwd path start = Some r.
Proof.
  intros cwd path start Hne. unfold posixpath.relpath. rewrite Hne.
  match goal with |- exists r, match ?l with _ => _ end = _ => destruct l end;
    eexists; reflexivity.
Qed.

Lemma model_files_among_total : forall cwd directory root files,
  exists l, model_files_among cwd directory root files = Some l.
Proof.
  intros cwd directory root files. induction files as [|file rest [l IH]].
  - now exists [].
  - cbn [model_files_among].
    destruct (mem_string (Str.lower (snd (posixpath.splitext file))) model_extensions)
      eqn:Hext; [|now exists l].
    assert (Hfile : Str.is_empty file = false)
      by (destruct file; [discriminate Hext|reflexivity]).
    destruct (relpath_total cwd (posixpath.join root file) directory
                            (join_nonempty root file Hfile)) as [r ->].
    rewrite IH. now eexists.
Qed.

(** Model-file enumeration raises nothing, whatever the tree. *)
Lemma find_model_files_total : forall cwd directory tree,
  exists l, find_model_files cwd directory tree = Some l.
Proof.
  intros cwd directory tree. unfold find_model_files.
  induction (os.walk directory tree) as [|[[root dirs] files] rest [l IH]].
  - now exists [].
  - cbn [model_files_in_walk].
    destruct (model_files_among_total cwd directory root files) as [here ->].
    rewrite IH. now eexists.
Qed.

(** ** Failures while scanning *)

(** C9.  The scan of a model always yields its information, whatever
    fails on the way.  When the description file was found but reading it
    fails, the path is kept and the content is the text
    [Error reading README: ] followed by the message of the failure.  When
    the images directory is missing, strategy 1 finds nothing and the
    thumbnail is what the other strategies find. *)
Theorem scan_failures_do_not_abort :
  forall (st : Storage) (cwd directory model_name : string) (tree : os.Dir),
    (exists info,
        get_model_info st cwd tree directory model_name = Some info
        /\ forall p e,
             find_readme st directory tree = Some p ->
             read_text st p = inr e ->
             readme_path info = Some p
             /\ readme_content info = "Error reading README: " ++ e)
    /\ (forall p e,
           find_readme st directory tree = Some p ->
           read_text st p = inr e ->
           get_readme_content st directory tree
           = (Some p, "Error reading README: " ++ e))
    /\ (forall thing_id,
           path_exists st (posixpath.join directory "images") = false ->
           find_in_images_dir st directory = None
           /\ find_thumbnail st directory thing_id
              = first_truthy (tl (search_strategies st directory thing_id))).
Proof.
  intros st cwd directory model_name tree.
  assert (Hread : forall p e,
             find_readme st directory tree = Some p ->
             read_text st p = inr e ->
             get_readme_content st directory tree
             = (Some p, "Error reading README: " ++ e)).
  { intros p e Hfound Hfail. unfold get_readme_content.
    rewrite Hfound, (find_readme_nonempty _ _ _ _ Hfound), Hfail. reflexivity. }
  split; [|split; [exact Hread|]].
  - unfold get_model_info.
    destruct (find_model_files_total cwd directory tree) as [files ->].
    destruct (get_readme_content st directory tree) as [rp rc].
    eexists. split; [reflexivity|].
    intros p e Hfound Hfail. cbn [readme_path readme_content].
    specialize (Hread p e Hfound Hfail). injection Hread as Hp Hc.
    split; assumption.
  - intros thing_id Hmissing.
    assert (Hnone : find_in_images_dir st directory = None)
      by (unfold find_in_images_dir; rewrite Hmissing; reflexivity).
    split; [exact Hnone|].
    unfold find_thumbnail, search_strategies. cbn [first_truthy tl].
    rewrite Hnone. reflexivity.
Qed.

Lemma scan_failures_witness :
  get_readme_content example_storage "/dl/Toys/thing_12345" example_tree
  = (Some "/dl/Toys/thing_12345/readme.md",
     "Error reading README: [Errno 13] Permission denied")
  /\ find_in_images_dir capitals_storage "/dl/Toys/thing_7" = None.
Proof.
  split.
  - apply (proj1 (proj2 (scan_failures_do_not_abort
                           example_storage "/" "/dl/Toys/thing_12345" "thing_12345"
                           example_tree)));
      reflexivity.
  - apply (proj2 (proj2 (scan_failures_do_not_abort
                           capitals_storage "/" "/dl/Toys/thing_7" "thing_7"
                           capitals_tree))
                 "7").
    reflexivity.
Defined.

(** ** Centring a mesh *)

Section NormalizerFacts.

Import trimesh.
Open Scope Q_scope.

Variable center_mass : Mesh -> V3.

Lemma qsum_shift : forall (t : Q) (l : list Q),
  qsum (map (fun q => q + t) l) == qsum l + inject_Z (Z.of_nat (List.length l)) * t.
Proof.
  intros t l. induction l as [|a l IH].
  - cbn. ring.
  - cbn [map qsum fold_right List.length]. fold (qsum (map (fun q => q + t) l)).
    fold (qsum l). rewrite IH, Nat2Z.inj_succ. unfold Z.succ.
    rewrite inject_Z_plus. ring.
Qed.

Lemma qsum_scale : forall (s : Q) (l : list Q),
  qsum (map (fun q => s * q) l) == s * qsum l.
Proof.
  intros s l. induction l as [|a l IH].
  - cbn. ring.
  - cbn [map qsum fold_right]. fold (qsum (map (fun q => s * q) l)).
    fold (qsum l). rewrite IH. ring.
Qed.

Lemma count_nonzero : forall (A : Type) (l : list A),
  l <> [] -> ~ inject_Z (Z.of_nat (List.length l)) == 0.
Proof.
  intros A [|x l] Hl; [contradiction|].
  cbn [List.length]. rewrite Nat2Z.inj_succ. unfold Qeq. cbn. lia.
Qed.

Lemma map_translate : forall (f : V3 -> Q) (t : V3) (l : list V3),
  (forall v, f (vadd v t) = f v + f t) ->
  map f (map (fun v => vadd v t) l) = map (fun q => q + f t) (map f l).
Proof. intros f t l Hf. rewrite !map_map. apply map_ext. exact Hf. Qed.

Lemma map_scale : forall (f : V3 -> Q) (s : Q) (l : list V3),
  (forall v, f (vscale s v) = s * f v) ->
  map f (map (vscale s) l) = map (fun q => s * q) (map f l).
Proof. intros f s l Hf. rewrite !map_map. apply map_ext. exact Hf. Qed.

(** The mean vertex of a translated mesh is the translated mean vertex. *)
Lemma vertex_mean_translation : forall (t : V3) (m : Mesh),
  vertices m <> [] ->
  veq (vertex_mean (apply_translation t m)) (vadd (vertex_mean m) t).
Proof.
  intros t m Hne. pose proof (count_nonzero _ _ Hne) as Hn.
  unfold vertex_mean, apply_translation. cbn [vertices].
  rewrite !map_translate by reflexivity.
  unfold veq, vadd. cbn [vx vy vz fst snd].
  rewrite !qsum_shift, !length_map.
  repeat split; field; exact Hn.
Qed.

(** The mean vertex of a scaled mesh is the scaled mean vertex. *)
Lemma vertex_mean_scale : forall (s : Q) (m : Mesh),
  vertices m <> [] ->
  veq (vertex_mean (apply_scale s m)) (vscale s (vertex_mean m)).
Proof.
  intros s m Hne. pose proof (count_nonzero _ _ Hne) as Hn.
  unfold vertex_mean, apply_scale. cbn [vertices].
  rewrite !map_scale by reflexivity.
  unfold veq, vscale. cbn [vx vy vz fst snd].
  rewrite !qsum_scale, !length_map.
  repeat split; field; exact Hn.
Qed.

(** ** The bounding box of a mesh *)

Lemma qle_bool_shift : forall a b t, Qle_bool (a + t) (b + t) = Qle_bool a b.
Proof.
  intros a b t. apply eq_true_iff_eq. rewrite !Qle_bool_iff. split; intros H; lra.
Qed.

Lemma qle_bool_scale : forall a b s, 0 < s -> Qle_bool (s * a) (s * b) = Qle_bool a b.
Proof.
  intros a b s Hs. apply eq_true_iff_eq. rewrite !Qle_bool_iff.
  now rewrite Qmult_le_l.
Qed.

Lemma qle_bool_false : forall a b, Qle_bool a b = false -> b < a.
Proof.
  intros a b H. apply Qnot_le_lt. intros Hle. apply Qle_bool_iff in Hle. congruence.
Qed.

Lemma column_min_shift : forall t l x,
  column_min (x + t) (map (fun q => q + t) l) = column_min x l + t.
Proof.
  intros t l. unfold column_min.
  induction l as [|a l IH]; intros x; [reflexivity|].
  cbn [map fold_left]. rewrite <- IH. f_equal.
  unfold qmin. rewrite qle_bool_shift. now destruct (Qle_bool x a).
Qed.

Lemma column_max_shift : forall t l x,
  column_max (x + t) (map (fun q => q + t) l) = column_max x l + t.
Proof.
  intros t l. unfold column_max.
  induction l as [|a l IH]; intros x; [reflexivity|].
  cbn [map fold_left]. rewrite <- IH. f_equal.
  unfold qmax. rewrite qle_bool_shift. now destruct (Qle_bool x a).
Qed.

Lemma column_min_scale : forall s l x, 0 < s ->
  column_min (s * x) (map (fun q => s * q) l) = s * column_min x l.
Proof.
  intros s l x Hs. revert x. unfold column_min.
  induction l as [|a l IH]; intros x; [reflexivity|].
  cbn [map fold_left]. rewrite <- IH. f_equal.
  unfold qmin. rewrite qle_bool_scale by exact Hs. now destruct (Qle_bool x a).
Qed.

Lemma column_max_scale : forall s l x, 0 < s ->
  column_max (s * x) (map (fun q => s * q) l) = s * column_max x l.
Proof.
  intros s l x Hs. revert x. unfold column_max.
  induction l as [|a l IH]; intros x; [reflexivity|].
  cbn [map fold_left]. rewrite <- IH. f_equal.
  unfold qmax. rewrite qle_bool_scale by exact Hs. now destruct (Qle_bool x a).
Qed.

Lemma qmin_le_l : forall a b, qmin a b <= a.
Proof.
  intros a b. unfold qmin. destruct (Qle_bool a b) eqn:E; [lra|].
  apply qle_bool_false in E. lra.
Qed.

Lemma qmax_ge_l : forall a b, a <= qmax a b.
Proof.
  intros a b. unfold qmax. destruct (Qle_bool a b) eqn:E; [|lra].
  now apply Qle_bool_iff in E.
Qed.

Lemma column_min_le : forall l x, column_min x l <= x.
Proof.
  unfold column_min. induction l as [|a l IH]; intros x; cbn [fold_left]; [lra|].
  apply Qle_trans with (qmin x a); [apply IH|apply qmin_le_l].
Qed.

Lemma column_max_ge : forall l x, x <= column_max x l.
Proof.
  unfold column_max. induction l as [|a l IH]; intros x; cbn [fold_left]; [lra|].
  apply Qle_trans with (qmax x a); [apply qmax_ge_l|apply IH].
Qed.

Lemma qmax_compat : forall a a' b b',
  a == a' -> b == b' -> qmax a b == qmax a' b'.
Proof.
  intros a a' b b' Ha Hb. unfold qmax.
  destruct (Qle_bool a b) eqn:E; destruct (Qle_bool a' b') eqn:E'; try assumption.
  - apply Qle_bool_iff in E. apply qle_bool_false in E'. lra.
  - apply qle_bool_false in E. apply Qle_bool_iff in E'. lra.
Qed.

Lemma qmax_scale : forall s a b, 0 < s -> qmax (s * a) (s * b) = s * qmax a b.
Proof.
  intros s a b Hs. unfold qmax. rewrite qle_bool_scale by exact Hs.
  now destruct (Qle_bool a b).
Qed.

(** The referenced vertices of a mesh whose vertices are mapped. *)
Lemma in_mesh_map : forall (f : V3 -> V3) (m : Mesh),
  in_mesh (mkMesh (map f (vertices m)) (faces m)) = map f (in_mesh m).
Proof.
  intros f m. unfold in_mesh, is_referenced. cbn [vertices faces].
  rewrite length_map. generalize (seq 0 (List.length (vertices m))) as idx.
  induction (vertices m) as [|v vs IH]; intros [|i idx]; try reflexivity.
  cbn [map combine filter fst snd].
  destruct (existsb _ (faces m)); cbn [map snd]; now rewrite IH.
Qed.

Lemma bounds_translation : forall t m lo hi,
  bounds m = Some (lo, hi) ->
  bounds (apply_translation t m) = Some (vadd lo t, vadd hi t).
Proof.
  intros t m lo hi. unfold bounds, apply_translation. rewrite in_mesh_map.
  destruct (in_mesh m) as [|v r]; [discriminate|]. intros [= <- <-].
  cbn [map]. rewrite !map_translate by reflexivity.
  unfold vadd at 1 2 3 4 5 6. cbn [vx vy vz fst snd].
  now rewrite !column_min_shift, !column_max_shift.
Qed.

Lemma bounds_scale : forall s m lo hi, 0 < s ->
  bounds m = Some (lo, hi) ->
  bounds (apply_scale s m) = Some (vscale s lo, vscale s hi).
Proof.
  intros s m lo hi Hs. unfold bounds, apply_scale. rewrite in_mesh_map.
  destruct (in_mesh m) as [|v r]; [discriminate|]. intros [= <- <-].
  cbn [map]. rewrite !map_scale by reflexivity.
  unfold vscale at 1 2 3 4 5 6. cbn [vx vy vz fst snd].
  now rewrite !column_min_scale, !column_max_scale by exact Hs.
Qed.

Lemma bounds_ordered : forall m lo hi,
  bounds m = Some (lo, hi) ->
  vx lo <= vx hi /\ vy lo <= vy hi /\ vz lo <= vz hi.
Proof.
  intros m lo hi. unfold bounds.
  destruct (in_mesh m) as [|v r]; [discriminate|]. intros [= <- <-].
  cbn [vx vy vz fst snd].
  repeat split;
    (eapply Qle_trans; [apply column_min_le|apply column_max_ge]).
Qed.

(** The largest extent and its behaviour under the two transformations. *)
Lemma max_extent_bounds : forall m,
  max_extent m =
  match bounds m with
  | None => None
  | Some (lo, hi) =>
      Some (qmax (qmax (vx hi - vx lo) (vy hi - vy lo)) (vz hi - vz lo))
  end.
Proof.
  intros m. unfold max_extent, extents.
  now destruct (bounds m) as [[lo hi]|].
Qed.

Lemma max_extent_nonneg : forall m e, max_extent m = Some e -> 0 <= e.
Proof.
  intros m e. rewrite max_extent_bounds.
  destruct (bounds m) as [[lo hi]|] eqn:Hb; [|discriminate]. intros [= <-].
  destruct (bounds_ordered _ _ _ Hb) as [Hx _].
  eapply Qle_trans; [|apply qmax_ge_l]. eapply Qle_trans; [|apply qmax_ge_l]. lra.
Qed.

Lemma max_extent_translation : forall t m e,
  max_extent m = Some e ->
  exists e', max_extent (apply_translation t m) = Some e' /\ e' == e.
Proof.
  intros t m e. rewrite !max_extent_bounds.
  destruct (bounds m) as [[lo hi]|] eqn:Hb; [|discriminate]. intros [= <-].
  rewrite (bounds_translation t _ _ _ Hb). eexists. split; [reflexivity|].
  unfold vadd. cbn [vx vy vz fst snd].
  repeat apply qmax_compat; ring.
Qed.

Lemma max_extent_scale : forall s m e, 0 < s ->
  max_extent m = Some e ->
  exists e', max_extent (apply_scale s m) = Some e' /\ e' == s * e.
Proof.
  intros s m e Hs. rewrite !max_extent_bounds.
  destruct (bounds m) as [[lo hi]|] eqn:Hb; [|discriminate]. intros [= <-].
  rewrite (bounds_scale s _ _ _ Hs Hb). eexists. split; [reflexivity|].
  unfold vscale. cbn [vx vy vz fst snd].
  rewrite <- !qmax_scale by exact Hs.
  repeat apply qmax_compat; ring.
Qed.

(** ** Normalization *)

Lemma veq_zero_sub : forall a c, veq (vsub a c) vzero <-> veq c a.
Proof.
  intros a c. unfold veq, vsub, vzero. cbn [vx vy vz fst snd].
  split; intros [Hx [Hy Hz]]; repeat split; lra.
Qed.

Lemma veq_trans : forall a b c, veq a b -> veq b c -> veq a c.
Proof.
  unfold veq. intros a b c [H1 [H2 H3]] [H4 [H5 H6]].
  repeat split; etransitivity; eassumption.
Qed.

Lemma veq_sym : forall a b, veq a b -> veq b a.
Proof. unfold veq. intros a b [H1 [H2 H3]]. repeat split; now symmetry. Qed.

Lemma veq_scale_zero : forall s a, ~ s == 0 -> (veq (vscale s a) vzero <-> veq a vzero).
Proof.
  intros s a Hs. unfold veq, vscale, vzero. cbn [vx vy vz fst snd].
  split; intros [Hx [Hy Hz]]; repeat split;
    try (rewrite Hx || rewrite Hy || rewrite Hz; ring);
    match goal with
    | H : s * ?q == 0 |- ?q == 0 =>
        apply Qmult_integral in H; destruct H as [H|H]; [contradiction|exact H]
    end.
Qed.

Lemma scale_factor_positive : forall largest,
  0 < largest -> 0 < target_extent / largest.
Proof.
  intros largest Hl. unfold target_extent.
  apply Qlt_shift_div_l; [exact Hl|lra].
Qed.

(** What [normalize] computes when it yields a mesh. *)
Lemma normalize_inl : forall m m',
  normalize center_mass m = inl m' ->
  exists largest,
    max_extent (center center_mass m) = Some largest
    /\ 0 < largest
    /\ m' = apply_scale (target_extent / largest) (center center_mass m).
Proof.
  intros m m'. unfold normalize.
  destruct (max_extent (center center_mass m)) as [largest|] eqn:He; [|discriminate].
  destruct (Qeq_bool largest 0) eqn:Hz; [discriminate|]. intros [= <-].
  exists largest. split; [reflexivity|]. split; [|reflexivity].
  apply Qeq_bool_neq in Hz. pose proof (max_extent_nonneg _ _ He). lra.
Qed.

Lemma center_vertices_nonempty : forall m,
  vertices m <> [] -> vertices (center center_mass m) <> [].
Proof.
  intros m H. unfold center, apply_translation. cbn [vertices].
  now destruct (vertices m).
Qed.

(** With a largest extent that is not zero, [normalize] rescales the
    centred mesh, whose largest extent is the same. *)
Lemma normalize_nonzero_extent : forall m e,
  max_extent m = Some e -> ~ e == 0 ->
  exists largest,
    max_extent (center center_mass m) = Some largest
    /\ largest == e
    /\ 0 < largest
    /\ normalize center_mass m
       = inl (apply_scale (target_extent / largest) (center center_mass m)).
Proof.
  intros m e He Hne.
  destruct (max_extent_translation (vneg (center_mass m)) m e He)
    as [largest [Hl Hle]].
  fold (center center_mass m) in Hl.
  assert (Hpos : 0 < largest).
  { pose proof (max_extent_nonneg _ _ Hl). rewrite <- Hle in Hne. lra. }
  exists largest. repeat split; try assumption.
  unfold normalize. rewrite Hl.
  destruct (Qeq_bool largest 0) eqn:Hz; [|reflexivity].
  apply Qeq_bool_iff in Hz. lra.
Qed.

End NormalizerFacts.

(** C1 (amended).  For every mesh with at least one vertex, the point
    subtracted from every vertex is the centre of mass that the mesh library
    computes; after centring, the mean vertex position is the former mean
    minus that point, so that it is at the origin, after centring and after
    the whole normalization alike, exactly when the centre of mass is the
    mean of the vertex positions. *)
Theorem centring_shifts_mean_by_center_mass :
  forall (center_mass : trimesh.Mesh -> trimesh.V3) (m : trimesh.Mesh),
    trimesh.vertices m <> [] ->
    trimesh.veq (trimesh.vertex_mean (center center_mass m))
                (trimesh.vsub (trimesh.vertex_mean m) (center_mass m))
    /\ (trimesh.veq (trimesh.vertex_mean (center center_mass m)) trimesh.vzero
        <-> trimesh.veq (center_mass m) (trimesh.vertex_mean m))
    /\ (forall m', normalize center_mass m = inl m' ->
                   (trimesh.veq (trimesh.vertex_mean m') trimesh.vzero
                    <-> trimesh.veq (center_mass m) (trimesh.vertex_mean m))).
Proof.
  intros center_mass m Hne.
  assert (Hmean : trimesh.veq (trimesh.vertex_mean (center center_mass m))
                              (trimesh.vsub (trimesh.vertex_mean m) (center_mass m))).
  { unfold center.
    eapply veq_trans; [apply vertex_mean_translation; exact Hne|].
    unfold trimesh.veq, trimesh.vadd, trimesh.vsub, trimesh.vneg.
    cbn [trimesh.vx trimesh.vy trimesh.vz fst snd]. repeat split; ring. }
  assert (Hzero : trimesh.veq (trimesh.vertex_mean (center center_mass m)) trimesh.vzero
                  <-> trimesh.veq (center_mass m) (trimesh.vertex_mean m)).
  { split; intros H.
    - apply veq_zero_sub.
      eapply veq_trans; [apply veq_sym; exact Hmean|exact H].
    - apply veq_zero_sub in H. eapply veq_trans; [exact Hmean|exact H]. }
  split; [exact Hmean|]. split; [exact Hzero|].
  intros m' Hnorm.
  destruct (normalize_inl center_mass m m' Hnorm) as [largest [_ [Hpos ->]]].
  rewrite <- Hzero.
  pose proof (vertex_mean_scale (target_extent / largest) (center center_mass m)
                (center_vertices_nonempty center_mass m Hne)) as Hscaled.
  pose proof (scale_factor_positive largest Hpos) as Hs.
  assert (Hs0 : ~ (target_extent / largest == 0)%Q) by lra.
  split; intros H.
  - apply (veq_scale_zero _ _ Hs0).
    eapply veq_trans; [apply veq_sym; exact Hscaled|exact H].
  - apply (veq_scale_zero _ _ Hs0) in H.
    eapply veq_trans; [exact Hscaled|exact H].
Qed.

Lemma centring_witness :
  trimesh.veq (trimesh.vertex_mean (center trimesh.center_mass pyramid))
              (trimesh.vsub (trimesh.vertex_mean pyramid) (trimesh.center_mass pyramid)).
Proof.
  apply (centring_shifts_mean_by_center_mass trimesh.center_mass pyramid).
  discriminate.
Defined.

(** C1, as stated, fails: the centre of mass of the pyramid lies at a
    quarter of its height, the mean of its five vertices at a fifth; after
    normalization the mean vertex is 5 units below the origin, far beyond
    the tolerance. *)
Lemma pyramid_center_mass_is_not_vertex_mean :
  ~ trimesh.veq (trimesh.center_mass pyramid) (trimesh.vertex_mean pyramid)
  /\ exists m',
       normalize trimesh.center_mass pyramid = inl m'
       /\ (trimesh.vz (trimesh.vertex_mean m') == -5)%Q
       /\ ~ (magnitude_sq (trimesh.vertex_mean m') <= epsilon * epsilon)%Q.
Proof.
  split.
  - intros [_ [_ Hz]]. vm_compute in Hz. discriminate Hz.
  - eexists. split; [vm_compute; reflexivity|]. split.
    + vm_compute. reflexivity.
    + intros H. vm_compute in H. apply H. reflexivity.
Qed.




Lemma Forall2_map_veq : forall (f : trimesh.V3 -> trimesh.V3) (l : list trimesh.V3),
  (forall v, trimesh.veq (f v) v) -> Forall2 trimesh.veq (map f l) l.
Proof.
  intros f l Hf. induction l as [|v l IH]; constructor; [apply Hf|exact IH].
Qed.

(** C6 (amended).  When the mesh that normalization yields has its centre
    of mass at the origin, as the mesh library computes it, normalizing it a
    second time yields a mesh again, with the same faces and with every
    vertex at the same position. *)
Theorem normalize_twice_when_centered :
  forall (center_mass : trimesh.Mesh -> trimesh.V3) (m m1 : trimesh.Mesh),
    normalize center_mass m = inl m1 ->
    trimesh.veq (center_mass m1) trimesh.vzero ->
    exists m2,
      normalize center_mass m1 = inl m2
      /\ Forall2 trimesh.veq (trimesh.vertices m2) (trimesh.vertices m1)
      /\ trimesh.faces m2 = trimesh.faces m1.
Proof.
  intros center_mass m m1 Hnorm Hc.
  destruct (normalize_inl center_mass m m1 Hnorm) as [largest [Hl [Hpos Hm1]]].
  destruct (max_extent_scale (target_extent / largest) _ _
                             (scale_factor_positive _ Hpos) Hl) as [e1 [He1 Hee1]].
  rewrite <- Hm1 in He1.
  assert (H100 : (e1 == target_extent)%Q) by (rewrite Hee1; field; lra).
  assert (Hne1 : ~ (e1 == 0)%Q) by (rewrite H100; discriminate).
  destruct (normalize_nonzero_extent center_mass m1 e1 He1 Hne1)
    as [largest1 [Hl1 [Hle1 [_ Hn1]]]].
  exists (trimesh.apply_scale (target_extent / largest1) (center center_mass m1)).
  split; [exact Hn1|]. split; [|reflexivity].
  unfold center, trimesh.apply_scale, trimesh.apply_translation.
  cbn [trimesh.vertices]. rewrite map_map. apply Forall2_map_veq.
  intros v. destruct Hc as [Hx [Hy Hz]].
  assert (Hs : (target_extent / largest1 == 1)%Q)
    by (rewrite Hle1, H100; reflexivity).
  unfold trimesh.veq, trimesh.vscale, trimesh.vadd, trimesh.vneg, trimesh.vzero in *.
  cbn [trimesh.vx trimesh.vy trimesh.vz fst snd] in *.
  rewrite Hs, Hx, Hy, Hz. repeat split; ring.
Qed.

Lemma normalize_twice_witness :
  exists m1 m2,
    normalize trimesh.center_mass pyramid = inl m1
    /\ normalize trimesh.center_mass m1 = inl m2
    /\ Forall2 trimesh.veq (trimesh.vertices m2) (trimesh.vertices m1).
Proof.
  destruct (normalize trimesh.center_mass pyramid) as [m1|err] eqn:H1;
    [|vm_compute in H1; discriminate H1].
  assert (Hc : trimesh.veq (trimesh.center_mass m1) trimesh.vzero).
  { vm_compute in H1. injection H1 as <-. vm_compute. repeat split; reflexivity. }
  destruct (normalize_twice_when_centered trimesh.center_mass pyramid m1 H1 Hc)
    as [m2 [H2 [Hv _]]].
  exists m1, m2. repeat split; assumption.
Defined.

(** C6, as stated, fails: the open triangle is not degenerate, its largest
    extent is 1; normalized once its first vertex has abscissa 75, normalized
    twice 37.5, the centre of mass that the library computes for an open
    surface not following the translation. *)
Lemma normalize_twice_moves_open_triangle :
  max_extent open_triangle = Some 1%Q
  /\ exists m1 m2,
       normalize trimesh.center_mass open_triangle = inl m1
       /\ normalize trimesh.center_mass m1 = inl m2
       /\ (trimesh.vx (trimesh.vertex m1 0) == 75)%Q
       /\ (trimesh.vx (trimesh.vertex m2 0) == 75 # 2)%Q
       /\ ~ (Qabs (trimesh.vx (trimesh.vertex m2 0) - trimesh.vx (trimesh.vertex m1 0))
             <= epsilon)%Q.
Proof.
  split; [vm_compute; reflexivity|].
  eexists. eexists. split; [vm_compute; reflexivity|].
  split; [vm_compute; reflexivity|].
  split; [vm_compute; reflexivity|].
  split; [vm_compute; reflexivity|].
  intros H. vm_compute in H. apply H. reflexivity.
Qed.

(** ** Style Resolver *)



(** ** Formats without preview *)

Lemma download_step_quiet : forall lib file_ext p,
  existsb is_parse (download_step lib file_ext p) = false.
Proof.
  intros lib file_ext p. unfold download_step.
  destruct (open_rb lib p); reflexivity.
Qed.




(** ** Thing identifiers *)

Lemma take_digits_split : forall s,
  exists post,
    s = take_digits s ++ post
    /\ ends_digits post.
Proof.
  induction s as [|c r IH]; simpl.
  - exists EmptyString. split; [reflexivity | exact I].
  - destruct (is_digit c) eqn:Hc.
    + destruct IH as [post [H1 H2]]. exists post. split.
      * simpl. now rewrite <- H1.
      * exact H2.
    + exists (String c r). split; [reflexivity | exact Hc].
Qed.

Lemma take_digits_app : forall d post,
  all_digits d = true ->
  ends_digits post ->
  take_digits (d ++ post) = d.
Proof.
  induction d as [|c r IH]; simpl; intros post Hd Hp.
  - destruct post as [|c r]; simpl; [reflexivity | now rewrite Hp].
  - apply andb_true_iff in Hd as [Hc Hr]. rewrite Hc. f_equal. now apply IH.
Qed.

Lemma after_prefix_app : forall p s t,
  after_prefix p s = Some t <-> s = p ++ t.
Proof.
  induction p as [|a p IH]; simpl; intros s t.
  - split; [now intros [= ->] | now intros ->].
  - destruct s as [|b s].
    + split; discriminate.
    + destruct (Ascii.eqb a b) eqn:Hab.
      * apply Ascii.eqb_eq in Hab. subst b. rewrite IH.
        split; [now intros -> | now intros [= ->]].
      * apply Ascii.eqb_neq in Hab.
        split; [discriminate | intros [= H1 H2]; congruence].
Qed.

Lemma take_digits_nonempty : forall c r,
  is_digit c = true -> Str.is_empty (take_digits (String c r)) = false.
Proof. intros c r H. simpl. now rewrite H. Qed.

Lemma search_digits_first_run : forall model_name,
  match search_digits model_name with
  | Some d =>
      Str.is_empty d = false /\ all_digits d = true
      /\ exists pre post,
           model_name = pre ++ d ++ post
           /\ digit_free pre = true /\ ends_digits post
  | None => digit_free model_name = true
  end.
Proof.
  induction model_name as [|c r IH].
  - reflexivity.
  - cbn [search_digits]. destruct (is_digit c) eqn:Hc.
    + split; [now apply take_digits_nonempty|].
      split; [apply take_digits_all|].
      destruct (take_digits_split (String c r)) as [post [H1 H2]].
      exists EmptyString, post. repeat split; assumption.
    + destruct (search_digits r) as [d|].
      * destruct IH as [H1 [H2 [pre [post [H3 [H4 H5]]]]]].
        split; [exact H1|]. split; [exact H2|].
        exists (String c pre), post. repeat split.
        -- simpl. now rewrite <- H3.
        -- simpl. now rewrite Hc, H4.
        -- exact H5.
      * simpl. now rewrite Hc, IH.
Qed.

Lemma search_digits_after_prefix : forall pre d,
  digit_free pre = true -> Str.is_empty d = false -> all_digits d = true ->
  search_digits (pre ++ d) = Some d.
Proof.
  induction pre as [|c r IH]; intros d Hp He Hd.
  - destruct d as [|c r]; [discriminate|].
    simpl in Hd. apply andb_true_iff in Hd as [Hc Hr].
    cbn [append search_digits]. rewrite Hc. f_equal.
    rewrite <- (string_app_nil_r (String c r)) at 1.
    apply take_digits_app; [simpl; now rewrite Hc, Hr | exact I].
  - simpl in Hp. apply andb_true_iff in Hp as [Hc Hr].
    apply negb_true_iff in Hc.
    cbn [append search_digits]. rewrite Hc. now apply IH.
Qed.

Lemma take_digits_empty : forall rest,
  Str.is_empty (take_digits rest) = true -> ends_digits rest.
Proof.
  intros [|c r]; simpl; [trivial|].
  destruct (is_digit c); [discriminate | reflexivity].
Qed.

Lemma thing_here : forall s c post,
  s = "thing:" ++ String c post -> is_digit c = true ->
  after_prefix "thing:" s = Some (String c post)
  /\ Str.is_empty (take_digits (String c post)) = false.
Proof.
  intros s c post -> Hc. split.
  - now apply after_prefix_app.
  - now apply take_digits_nonempty.
Qed.

Lemma app_thing_nonempty : forall pre rest, pre ++ "thing:" ++ rest <> "".
Proof. intros [|a pre] rest; discriminate. Qed.

Lemma extract_thing_id_cons : forall a r,
  extract_thing_id (String a r)
  = match after_prefix "thing:" (String a r) with
    | Some rest =>
        if Str.is_empty (take_digits rest) then extract_thing_id r
        else Some (take_digits rest)
    | None => extract_thing_id r
    end.
Proof. reflexivity. Qed.

Lemma extract_thing_id_digits : forall url d,
  extract_thing_id url = Some d ->
  Str.is_empty d = false /\ all_digits d = true.
Proof.
  induction url as [|a r IH]; intros d H; [discriminate|].
  rewrite extract_thing_id_cons in H.
  destruct (after_prefix "thing:" (String a r)) as [rest|]; [|now apply IH].
  destruct (Str.is_empty (take_digits rest)) eqn:He; [now apply IH|].
  injection H as <-. split; [exact He | apply take_digits_all].
Qed.

(** X1: what [extract_thing_id] returns is a non-empty run of digits that
    follows a [thing:] in the URL, whole (no digit follows it) and leftmost
    (no [thing:] further left has a digit behind it). *)
Theorem extract_thing_id_leftmost_digits : forall url d,
  extract_thing_id url = Some d ->
  Str.is_empty d = false /\ all_digits d = true
  /\ exists pre post,
       url = pre ++ "thing:" ++ d ++ post
       /\ ends_digits post
       /\ forall pre2 c post2,
            url = pre2 ++ "thing:" ++ String c post2 -> is_digit c = true ->
            String.length pre <= String.length pre2.
Proof.
  induction url as [|a r IH]; intros d H; [discriminate|].
  rewrite extract_thing_id_cons in H.
  assert (Hrec : extract_thing_id r = Some d ->
                 (forall c post, String a r = "thing:" ++ String c post ->
                                 is_digit c = false) ->
                 Str.is_empty d = false /\ all_digits d = true
                 /\ exists pre post,
                      String a r = pre ++ "thing:" ++ d ++ post
                      /\ ends_digits post
                      /\ forall pre2 c post2,
                           String a r = pre2 ++ "thing:" ++ String c post2 ->
                           is_digit c = true ->
                           String.length pre <= String.length pre2).
  { intros Hr Hhere. destruct (IH d Hr) as [H1 [H2 [pre [post [H3 [H4 H5]]]]]].
    split; [exact H1|]. split; [exact H2|].
    exists (String a pre), post. split; [rewrite H3; reflexivity|].
    split; [exact H4|].
    intros [|a2 pre2] c post2 Hu Hc.
    - rewrite (Hhere c post2 Hu) in Hc. discriminate.
    - injection Hu as _ Hu. simpl. apply le_n_S. now apply (H5 pre2 c post2). }
  destruct (after_prefix "thing:" (String a r)) as [rest|] eqn:Hp.
  - destruct (Str.is_empty (take_digits rest)) eqn:He.
    + apply Hrec; [exact H|]. intros c post Hu.
      apply after_prefix_app in Hu. rewrite Hp in Hu. injection Hu as ->.
      exact (take_digits_empty _ He).
    + injection H as <-. split; [exact He|]. split; [apply take_digits_all|].
      destruct (take_digits_split rest) as [post [H1 H2]].
      exists EmptyString, post. split.
      * apply after_prefix_app in Hp. rewrite Hp. now rewrite <- H1.
      * split; [exact H2|]. intros. simpl. apply Nat.le_0_l.
  - apply Hrec; [exact H|]. intros c post Hu.
    apply after_prefix_app in Hu. rewrite Hp in Hu. discriminate.
Qed.

Lemma extract_thing_id_leftmost_digits_witness :
  Str.is_empty "12345" = false /\ all_digits "12345" = true
  /\ exists pre post,
       "https://www.thingiverse.com/thing:12345/files" = pre ++ "thing:" ++ "12345" ++ post
       /\ ends_digits post
       /\ forall pre2 c post2,
            "https://www.thingiverse.com/thing:12345/files"
            = pre2 ++ "thing:" ++ String c post2 -> is_digit c = true ->
            String.length pre <= String.length pre2.
Proof.
  apply (extract_thing_id_leftmost_digits
           "https://www.thingiverse.com/thing:12345/files" "12345").
  reflexivity.
Defined.

(** X2: [extract_thing_id] fails exactly on the URLs in which no [thing:] is
    followed by a digit. *)
Theorem extract_thing_id_none_iff : forall url,
  extract_thing_id url = None <->
  forall pre c post, url = pre ++ "thing:" ++ String c post -> is_digit c = false.
Proof.
  induction url as [|a r IH].
  - split; [|reflexivity]. intros _ pre c post Hu. symmetry in Hu.
    now apply app_thing_nonempty in Hu.
  - rewrite extract_thing_id_cons. split.
    + intros H [|a2 pre] c post Hu.
      * destruct (is_digit c) eqn:Hc; [|reflexivity].
        destruct (thing_here _ c post Hu Hc) as [H1 H2].
        rewrite H1, H2 in H. discriminate.
      * injection Hu as _ Hu.
        assert (Hr : extract_thing_id r = None).
        { destruct (after_prefix "thing:" (String a r)); [|exact H].
          destruct (Str.is_empty (take_digits s)); [exact H | discriminate]. }
        exact (proj1 IH Hr pre c post Hu).
    + intros H.
      assert (Hr : extract_thing_id r = None).
      { apply IH. intros pre c post Hu. apply (H (String a pre) c post).
        simpl. now rewrite Hu. }
      destruct (after_prefix "thing:" (String a r)) as [rest|] eqn:Hp; [|exact Hr].
      destruct (Str.is_empty (take_digits rest)) eqn:He; [exact Hr|].
      apply after_prefix_app in Hp.
      destruct rest as [|c rest]; [discriminate|].
      simpl in He. destruct (is_digit c) eqn:Hc; [|discriminate].
      rewrite (H EmptyString c rest Hp) in Hc. discriminate.
Qed.

(** X3: the thing identifier read back from the download URL built for it is
    the identifier itself. *)
Theorem download_url_round_trip : forall thing_id,
  Str.is_empty thing_id = false -> all_digits thing_id = true ->
  extract_thing_id (get_download_url thing_id) = Some thing_id.
Proof.
  intros thing_id He Hd. unfold get_download_url.
  assert (Ht : take_digits (thing_id ++ "/zip") = thing_id)
    by (apply take_digits_app; [exact Hd | reflexivity]).
  cbn [append extract_thing_id after_prefix Ascii.eqb Bool.eqb].
  change (String "/" (String "z" (String "i" (String "p" "")))) with "/zip".
  now rewrite Ht, He.
Qed.

Lemma download_url_round_trip_witness :
  extract_thing_id (get_download_url "12345") = Some "12345".
Proof. apply (download_url_round_trip "12345"); reflexivity. Defined.

(** X4: a model downloaded from a URL is stored in a directory from whose
    name the browser reads the same thing identifier back. *)
Theorem downloaded_directory_keeps_thing_id :
  forall (st : Storage) (cwd : string) (tree : os.Dir)
         (model_path url id : string) (info : ModelInfo),
    extract_thing_id url = Some id ->
    get_model_info st cwd tree model_path (model_dir_name id) = Some info ->
    thing_id info = Some id.
Proof.
  intros st cwd tree model_path url id info Hu Hi.
  destruct (extract_thing_id_digits url id Hu) as [He Hd].
  unfold get_model_info in Hi.
  destruct (find_model_files cwd model_path tree); [|discriminate].
  destruct (get_readme_content st model_path tree).
  injection Hi as <-. cbn [thing_id]. unfold model_dir_name.
  now apply (search_digits_after_prefix "thing_" id).
Qed.

Lemma downloaded_directory_keeps_thing_id_witness :
  option_map thing_id
    (get_model_info gears_storage "/" gears_tree "/dl/Toys/thing_763622"
                    (model_dir_name "763622"))
  = Some (Some "763622").
Proof.
  destruct (get_model_info gears_storage "/" gears_tree "/dl/Toys/thing_763622"
                           (model_dir_name "763622")) as [info|] eqn:Hi.
  - simpl. f_equal.
    apply (downloaded_directory_keeps_thing_id
             gears_storage "/" gears_tree "/dl/Toys/thing_763622"
             "https://www.thingiverse.com/thing:763622" "763622" info);
      [reflexivity | exact Hi].
  - vm_compute in Hi. discriminate.
Defined.

(** X5: the thing identifier of a scanned model is the first run of digits
    of its directory name, taken whole; a name without digit gives none. *)
Theorem thing_id_is_first_digit_run :
  forall (st : Storage) (cwd : string) (tree : os.Dir)
         (model_path model_name : string) (info : ModelInfo),
    get_model_info st cwd tree model_path model_name = Some info ->
    match thing_id info with
    | Some d =>
        Str.is_empty d = false /\ all_digits d = true
        /\ exists pre post,
             model_name = pre ++ d ++ post
             /\ digit_free pre = true /\ ends_digits post
    | None => digit_free model_name = true
    end.
Proof.
  intros st cwd tree model_path model_name info Hi.
  unfold get_model_info in Hi.
  destruct (find_model_files cwd model_path tree); [|discriminate].
  destruct (get_readme_content st model_path tree).
  injection Hi as <-. cbn [thing_id]. apply search_digits_first_run.
Qed.

Lemma thing_id_is_first_digit_run_witness :
  exists info,
    get_model_info gears_storage "/" gears_tree "/dl/Toys/v2_thing_763622b7"
                   "v2_thing_763622b7" = Some info
    /\ match thing_id info with
       | Some d =>
           Str.is_empty d = false /\ all_digits d = true
           /\ exists pre post,
                "v2_thing_763622b7" = pre ++ d ++ post
                /\ digit_free pre = true /\ ends_digits post
       | None => digit_free "v2_thing_763622b7" = true
       end.
Proof.
  destruct (get_model_info gears_storage "/" gears_tree "/dl/Toys/v2_thing_763622b7"
                           "v2_thing_763622b7") as [info|] eqn:Hi.
  - exists info. split; [reflexivity|].
    exact (thing_id_is_first_digit_run _ _ _ _ _ info Hi).
  - vm_compute in Hi. discriminate.
Defined.

Lemma thing_id_first_run_of_name :
  forall (st : Storage) (cwd : string) (tree : os.Dir)
         (model_path model_name : string) (info : ModelInfo),
    get_model_info st cwd tree model_path model_name = Some info ->
    name info = model_name
    /\ match thing_id info with
       | Some d =>
           Str.is_empty d = false /\ all_digits d = true
           /\ exists pre post,
                model_name = pre ++ d ++ post
                /\ digit_free pre = true /\ ends_digits post
       | None => digit_free model_name = true
       end.
Proof.
  intros st cwd tree model_path model_name info Hi.
  unfold get_model_info in Hi.
  destruct (find_model_files cwd model_path tree); [|discriminate].
  destruct (get_readme_content st model_path tree).
  injection Hi as <-. cbn [thing_id name]. split; [reflexivity|].
  apply search_digits_first_run.
Qed.

(** ** Searching the gallery *)

Lemma prefix_app : forall p s,
  String.prefix p s = true <-> exists b, s = p ++ b.
Proof.
  induction p as [|a p IH]; intros s.
  - split; [intros _; now exists s | intros _; destruct s; reflexivity].
  - destruct s as [|c s]; simpl.
    + split; [discriminate | intros [b Hb]; discriminate].
    + destruct (ascii_dec a c) as [->|Hac].
      * rewrite IH. split; intros [b Hb]; exists b; [now rewrite Hb | now injection Hb].
      * split; [discriminate | intros [b Hb]; injection Hb as H1 H2; congruence].
Qed.

Lemma contains_app : forall s p,
  Str.contains s p = true <-> exists a b, s = a ++ p ++ b.
Proof.
  induction s as [|c s IH]; intros p.
  - cbn [Str.contains]. rewrite orb_false_r, prefix_app. split.
    + intros [b Hb]. now exists EmptyString, b.
    + intros [[|x a] [b Hb]]; [now exists b | discriminate].
  - cbn [Str.contains]. rewrite orb_true_iff, prefix_app, IH. split.
    + intros [[b Hb] | [a [b Hb]]].
      * now exists EmptyString, b.
      * exists (String c a), b. simpl. now rewrite Hb.
    + intros [[|x a] [b Hb]].
      * left. now exists b.
      * right. injection Hb as _ Hb. now exists a, b.
Qed.

Lemma contains_trans : forall s q p,
  Str.contains s q = true -> Str.contains q p = true -> Str.contains s p = true.
Proof.
  intros s q p Hs Hq.
  apply contains_app in Hs as [a [b ->]]. apply contains_app in Hq as [a' [b' ->]].
  apply contains_app. exists (a ++ a'), (b' ++ b).
  now rewrite !string_app_assoc.
Qed.

(** On the code points 0 to 255 lowercasing acts on each character by
    itself. *)
Lemma lower_app : forall a b, Str.lower (a ++ b) = Str.lower a ++ Str.lower b.
Proof. induction a as [|c a IH]; intros b; simpl; [reflexivity | now rewrite IH]. Qed.

Lemma contains_empty_query : forall p, Str.contains "" p = true -> p = "".
Proof.
  intros p H. apply contains_app in H as [a [b H]].
  destruct a; [|discriminate]. destruct p; [reflexivity | discriminate].
Qed.

Lemma lower_digit : forall c, is_digit c = true -> Str.lower_char c = c.
Proof.
  intros c H. unfold is_digit in H. unfold Str.lower_char.
  apply andb_true_iff in H as [H1 H2].
  apply Nat.leb_le in H1. apply Nat.leb_le in H2.
  replace ((65 <=? nat_of_ascii c)%nat) with false
    by (symmetry; apply Nat.leb_gt; lia).
  replace ((192 <=? nat_of_ascii c)%nat) with false
    by (symmetry; apply Nat.leb_gt; lia).
  reflexivity.
Qed.

Lemma lower_digits : forall d, all_digits d = true -> Str.lower d = d.
Proof.
  induction d as [|c d IH]; simpl; intros H; [reflexivity|].
  apply andb_true_iff in H as [Hc Hd]. now rewrite (lower_digit c Hc), IH.
Qed.

Lemma model_matches_monotone : forall q1 q2 info,
  Str.contains q2 q1 = true ->
  model_matches q2 info = true -> model_matches q1 info = true.
Proof.
  intros q1 q2 info Hq. unfold model_matches.
  destruct (Str.contains (Str.lower (name info)) q2) eqn:H1.
  - intros _. now rewrite (contains_trans _ _ _ H1 Hq).
  - destruct (Str.contains (Str.lower (name info)) q1); [reflexivity|].
    destruct (truthy (thing_id info)
              && Str.contains (Str.lower (or_empty (thing_id info))) q2) eqn:H2.
    + intros _. apply andb_true_iff in H2 as [H2 H3].
      now rewrite H2, (contains_trans _ _ _ H3 Hq).
    + destruct (truthy (thing_id info)
                && Str.contains (Str.lower (or_empty (thing_id info))) q1);
        [reflexivity|].
      destruct (negb (Str.is_empty (readme_content info))
                && Str.contains (Str.lower (readme_content info)) q2) eqn:H3;
        [|discriminate].
      intros _. apply andb_true_iff in H3 as [H3 H4].
      now rewrite H3, (contains_trans _ _ _ H4 Hq).
Qed.

Lemma shown_under_monotone : forall q1 q2 card,
  Str.contains q2 q1 = true ->
  shown_under q2 card = true -> shown_under q1 card = true.
Proof.
  intros q1 q2 card Hq. unfold shown_under.
  destruct q2 as [|c q2].
  - now rewrite (contains_empty_query q1 Hq).
  - cbn [Str.is_empty orb]. intros H. apply orb_true_iff. right.
    now apply (model_matches_monotone q1 (String c q2)).
Qed.

Lemma category_models_filter : forall st cwd walk_of q category category_path model_dirs,
  category_models st cwd walk_of q category category_path model_dirs
  = option_map (filter (shown_under q))
               (category_models st cwd walk_of "" category category_path model_dirs).
Proof.
  intros st cwd walk_of q category category_path.
  induction model_dirs as [|model_name rest IH]; [reflexivity|].
  cbn [category_models].
  destruct (get_model_info st cwd _ _ model_name) as [info|]; [|reflexivity].
  cbn [Str.is_empty negb]. rewrite IH.
  destruct (category_models st cwd walk_of "" category category_path rest) as [l|];
    cbn [option_map filter];
    try change (shown_under q (info, category))
          with (Str.is_empty q || model_matches q info);
    destruct (Str.is_empty q); cbn [negb orb]; try reflexivity;
    destruct (model_matches q info); reflexivity.
Qed.

Lemma filter_narrow : forall (A : Type) (f g : A -> bool) (l : list A),
  (forall x, g x = true -> f x = true) ->
  filter g l = filter g (filter f l).
Proof.
  intros A f g l H. induction l as [|x l IH]; [reflexivity|].
  simpl. destruct (g x) eqn:Hg.
  - rewrite (H x Hg). simpl. now rewrite Hg, IH.
  - destruct (f x); simpl; [now rewrite Hg|]; exact IH.
Qed.

(** X6: a query that contains another one only narrows the gallery: when
    the query of one search text, the text lowercased as the page compares
    it, is a part of the query of another text, the cards shown for the
    longer query are those among the cards shown for the shorter one that
    match the longer query, in the same order. *)
Theorem search_extension_narrows :
  forall (st : Storage) (cwd : string) (walk_of : string -> os.Dir)
         (text1 text2 downloads_dir category : string)
         (shown2 : list (ModelInfo * string)),
    Str.contains (Str.lower text2) (Str.lower text1) = true ->
    gallery_category st cwd walk_of text2 downloads_dir category = Some shown2 ->
    exists shown1,
      gallery_category st cwd walk_of text1 downloads_dir category = Some shown1
      /\ shown2 = filter (shown_under (Str.lower text2)) shown1
      /\ incl shown2 shown1.
Proof.
  intros st cwd walk_of text1 text2 downloads_dir category shown2 Ht.
  unfold gallery_category.
  destruct (subdirectories st (posixpath.join downloads_dir category))
    as [model_dirs|]; [|discriminate].
  rewrite (category_models_filter st cwd walk_of (Str.lower text2)),
          (category_models_filter st cwd walk_of (Str.lower text1)).
  destruct (category_models st cwd walk_of "" category
                            (posixpath.join downloads_dir category) model_dirs)
    as [all|]; [|discriminate].
  cbn [option_map]. intros [= <-].
  exists (filter (shown_under (Str.lower text1)) all). split; [reflexivity|].
  assert (Hn : filter (shown_under (Str.lower text2)) all
               = filter (shown_under (Str.lower text2))
                        (filter (shown_under (Str.lower text1)) all)).
  { apply filter_narrow. intros card.
    now apply shown_under_monotone. }
  split; [exact Hn|].
  rewrite Hn. intros card Hc. apply filter_In in Hc. tauto.
Qed.

(** X7: searching by thing identifier finds nothing that searching by name
    does not find: for a scanned model, the test of the identifier succeeds
    only where the test of the name has succeeded. *)
Theorem search_by_id_is_search_by_name :
  forall (st : Storage) (cwd : string) (tree : os.Dir)
         (model_path model_name search_query : string) (info : ModelInfo),
    get_model_info st cwd tree model_path model_name = Some info ->
    (truthy (thing_id info)
     && Str.contains (Str.lower (or_empty (thing_id info))) search_query = true ->
     Str.contains (Str.lower (name info)) search_query = true)
    /\ model_matches search_query info
       = Str.contains (Str.lower (name info)) search_query
         || (negb (Str.is_empty (readme_content info))
             && Str.contains (Str.lower (readme_content info)) search_query).
Proof.
  intros st cwd tree model_path model_name search_query info Hi.
  assert (Hid : truthy (thing_id info)
                && Str.contains (Str.lower (or_empty (thing_id info))) search_query = true ->
                Str.contains (Str.lower (name info)) search_query = true).
  { pose proof (thing_id_first_run_of_name st cwd tree model_path model_name info Hi)
      as [Hname Hrun].
    rewrite Hname. destruct (thing_id info) as [d|]; [|discriminate].
    destruct Hrun as [_ [Hd [pre [post [Hn _]]]]].
    cbn [or_empty]. intros H. apply andb_true_iff in H as [_ H].
    rewrite (lower_digits d Hd) in H.
    apply contains_app in H as [a [b Hab]]. apply contains_app.
    exists (Str.lower pre ++ a), (b ++ Str.lower post).
    rewrite Hn, !lower_app, (lower_digits d Hd), Hab.
    now rewrite !string_app_assoc. }
  split; [exact Hid|].
  unfold model_matches.
  destruct (Str.contains (Str.lower (name info)) search_query) eqn:H1;
    [reflexivity|].
  destruct (truthy (thing_id info)
            && Str.contains (Str.lower (or_empty (thing_id info))) search_query) eqn:H2.
  - specialize (Hid eq_refl). discriminate.
  - cbn [orb].
    destruct (negb (Str.is_empty (readme_content info))
              && Str.contains (Str.lower (readme_content info)) search_query);
      reflexivity.
Qed.

Lemma search_extension_narrows_witness :
  exists shown2 shown1,
    gallery_category library_storage "/" library_walk "tw" "/dl" "Toys" = Some shown2
    /\ gallery_category library_storage "/" library_walk "T" "/dl" "Toys" = Some shown1
    /\ shown2 = filter (shown_under (Str.lower "tw")) shown1
    /\ List.length shown2 = 1.
Proof.
  destruct (gallery_category library_storage "/" library_walk "tw" "/dl" "Toys")
    as [shown2|] eqn:H2; [|vm_compute in H2; discriminate H2].
  destruct (search_extension_narrows library_storage "/" library_walk
                                     "T" "tw" "/dl" "Toys" shown2 eq_refl H2)
    as [shown1 [H1 [Hf _]]].
  exists shown2, shown1. split; [reflexivity|]. split; [exact H1|].
  split; [exact Hf|].
  vm_compute in H2. injection H2 as <-. reflexivity.
Defined.

Lemma search_by_id_is_search_by_name_witness :
  exists info,
    get_model_info library_storage "/" (library_walk "/dl/Toys/thing_12345")
                   "/dl/Toys/thing_12345" "thing_12345" = Some info
    /\ model_matches "234" info
       = Str.contains (Str.lower (name info)) "234"
         || (negb (Str.is_empty (readme_content info))
             && Str.contains (Str.lower (readme_content info)) "234").
Proof.
  destruct (get_model_info library_storage "/" (library_walk "/dl/Toys/thing_12345")
                           "/dl/Toys/thing_12345" "thing_12345")
    as [info|] eqn:Hi; [|vm_compute in Hi; discriminate Hi].
  exists info. split; [reflexivity|].
  exact (proj2 (search_by_id_is_search_by_name
                  library_storage "/" (library_walk "/dl/Toys/thing_12345")
                  "/dl/Toys/thing_12345" "thing_12345" "234" info Hi)).
Defined.

(** ** Which files are model files *)

Lemma model_files_among_paths : forall cwd directory root files l,
  model_files_among cwd directory root files = Some l ->
  map snd l = map (posixpath.join root) (filter is_model_name files).
Proof.
  intros cwd directory root. induction files as [|file rest IH]; intros l H.
  - injection H as <-. reflexivity.
  - cbn [model_files_among] in H. cbn [filter]. unfold is_model_name at 1.
    destruct (mem_string (Str.lower (snd (posixpath.splitext file))) model_extensions).
    + destruct (posixpath.relpath cwd (posixpath.join root file) directory)
        as [rel|]; [|discriminate].
      destruct (model_files_among cwd directory root rest) as [l'|]; [|discriminate].
      injection H as <-. cbn [map snd]. now rewrite (IH l' eq_refl).
    + now apply IH.
Qed.

Lemma walk_files_cons : forall root dirs files rest,
  walk_files ((root, dirs, files) :: rest)
  = (map (pair root) files ++ walk_files rest)%list.
Proof. reflexivity. Qed.

Lemma geometry_paths_cons : forall root (dirs : list string) files rest,
  geometry_paths ((root, dirs, files) :: rest)
  = (map (posixpath.join root) (filter is_model_name files)
     ++ geometry_paths rest)%list.
Proof.
  intros root dirs files rest. unfold geometry_paths.
  rewrite walk_files_cons, filter_app, map_app. f_equal.
  induction files as [|file files IH]; [reflexivity|].
  cbn [map filter snd]. destruct (is_model_name file); cbn [map fst snd];
    now rewrite IH.
Qed.

Lemma model_files_in_walk_paths : forall cwd directory triples l,
  model_files_in_walk cwd directory triples = Some l ->
  map snd l = geometry_paths triples.
Proof.
  intros cwd directory. induction triples as [|[[root dirs] files] rest IH]; intros l H.
  - injection H as <-. reflexivity.
  - cbn [model_files_in_walk] in H. rewrite geometry_paths_cons.
    destruct (model_files_among cwd directory root files) as [here|] eqn:Hh;
      [|discriminate].
    destruct (model_files_in_walk cwd directory rest) as [l'|]; [|discriminate].
    injection H as <-.
    now rewrite map_app, (model_files_among_paths _ _ _ _ _ Hh), (IH l' eq_refl).
Qed.

(** X8: model-file enumeration always returns, and what it records is every
    file of the walk whose extension, lowercased, is a geometry extension:
    each such file once, in walk order, and no other; the number of model
    files of a scanned model is their number. *)
Theorem model_files_are_the_geometry_files :
  forall (st : Storage) (cwd directory model_name : string) (tree : os.Dir),
    exists l info,
      find_model_files cwd directory tree = Some l
      /\ map snd l = geometry_paths (os.walk directory tree)
      /\ get_model_info st cwd tree directory model_name = Some info
      /\ model_files info = l
      /\ model_count info = List.length (geometry_paths (os.walk directory tree)).
Proof.
  intros st cwd directory model_name tree.
  destruct (find_model_files_total cwd directory tree) as [l Hl].
  pose proof (model_files_in_walk_paths cwd directory _ l Hl) as Hp.
  unfold get_model_info. rewrite Hl.
  destruct (get_readme_content st directory tree) as [readme_path readme_content].
  eexists; eexists. split; [reflexivity|]. split; [exact Hp|].
  split; [reflexivity|]. cbn [model_files model_count]. split; [reflexivity|].
  now rewrite <- Hp, length_map.
Qed.

Lemma mem_dot_lower : forall e,
  Str.mem_char "." e = true -> Str.mem_char "." (Str.lower e) = true.
Proof.
  induction e as [|a e IH]; [discriminate|].
  cbn [Str.mem_char Str.lower]. intros H. apply orb_true_iff in H as [H|H].
  - apply Ascii.eqb_eq in H. subst a. reflexivity.
  - rewrite (IH H). apply orb_true_r.
Qed.

Lemma lower_extension_cases : forall e,
  mem_string (Str.lower (String "." e)) model_extensions = true
  <-> In (Str.lower e) ["stl"; "obj"; "3mf"].
Proof.
  intros e. cbn [Str.lower].
  change (Str.lower_char ".") with "."%char.
  unfold mem_string, model_extensions. cbn [existsb In].
  rewrite !orb_true_iff, !String.eqb_eq. split.
  - intros [H|[H|[H|H]]]; [injection H as ->; tauto ..|discriminate].
  - intros [H|[H|[H|[]]]]; rewrite <- H; tauto.
Qed.

(** X9: a file counts as a model file exactly when its name ends in [.stl],
    [.obj] or [.3mf], in any mix of capitals and small letters, and something
    other than dots stands before that ending. *)
Theorem model_name_characterization : forall file,
  Str.mem_char posixpath.sep file = false ->
  (is_model_name file = true
   <-> exists stem e,
         file = stem ++ "." ++ e
         /\ Str.all_char "." stem = false
         /\ In (Str.lower e) ["stl"; "obj"; "3mf"]).
Proof.
  intros file Hsf. unfold is_model_name, posixpath.splitext.
  rewrite (rcut_none _ _ Hsf). split.
  - destruct (Str.rcut "." file) as [[stem e]|] eqn:Hcut; [|discriminate].
    destruct (Str.all_char "." stem) eqn:Hall; [discriminate|].
    cbn [snd]. intros H. exists stem, e.
    apply rcut_some in Hcut as [Hfile _].
    split; [exact Hfile|]. split; [exact Hall|]. now apply lower_extension_cases.
  - intros [stem [e [-> [Hall He]]]].
    assert (Hdot : Str.mem_char "." e = false).
    { destruct (Str.mem_char "." e) eqn:Hm; [|reflexivity].
      apply mem_dot_lower in Hm.
      destruct He as [H|[H|[H|[]]]]; rewrite <- H in Hm; discriminate. }
    change (stem ++ "." ++ e) with (stem ++ String "." e).
    rewrite (rcut_last _ _ _ Hdot), Hall. cbn [snd].
    now apply lower_extension_cases.
Qed.

Lemma model_name_characterization_witness :
  is_model_name "Left.Gear.StL" = true
  <-> exists stem e,
        "Left.Gear.StL" = stem ++ "." ++ e
        /\ Str.all_char "." stem = false
        /\ In (Str.lower e) ["stl"; "obj"; "3mf"].
Proof. apply (model_name_characterization "Left.Gear.StL"). reflexivity. Defined.

(** ** Relative paths stay inside the model directory *)

Lemma model_file_inside : forall cwd directory names file,
  posixpath.isabs cwd = true ->
  forallb valid_name names = true -> valid_name file = true ->
  posixpath.relpath cwd (posixpath.join (descend directory names) file) directory
  = Some (Str.join "/" (names ++ [file])%list)
  /\ forallb valid_name (names ++ [file])%list = true
  /\ posixpath.join (descend directory names) file
     = descend directory (names ++ [file])%list.
Proof.
  intros cwd directory names file Hcwd Hnames Hfile.
  assert (Habs : posixpath.join (descend directory names) file
                 = descend directory (names ++ [file]))
    by (unfold descend; now rewrite fold_left_app).
  assert (Hall : forallb valid_name (names ++ [file]) = true)
    by (rewrite forallb_app, Hnames; cbn; now rewrite Hfile).
  split; [|split; [exact Hall | exact Habs]].
  rewrite Habs.
  destruct (names ++ [file])%list as [|n rest] eqn:Hcomps; [now destruct names|].
  now apply relpath_below.
Qed.

Lemma model_files_among_inside : forall cwd directory names files,
  posixpath.isabs cwd = true ->
  forallb valid_name names = true -> forallb valid_name files = true ->
  exists l,
    model_files_among cwd directory (descend directory names) files = Some l
    /\ Forall (inside_pair directory) l.
Proof.
  intros cwd directory names files Hcwd Hnames.
  induction files as [|file rest IH]; intros Hfiles.
  - exists []. split; [reflexivity|constructor].
  - cbn [forallb] in Hfiles. apply andb_true_iff in Hfiles as [Hfile Hrest].
    destruct (IH Hrest) as [l [Hl Hall]].
    cbn [model_files_among].
    destruct (mem_string (Str.lower (snd (posixpath.splitext file))) model_extensions);
      [|now exists l].
    destruct (model_file_inside cwd directory names file Hcwd Hnames Hfile)
      as [Hrel [Hv Habs]].
    rewrite Hrel, Hl. cbn [option_map].
    eexists. split; [reflexivity|]. constructor; [|exact Hall].
    exists (names ++ [file])%list. cbn [fst snd].
    split; [now destruct names|]. split; [exact Hv|]. split; [reflexivity | exact Habs].
Qed.

Lemma model_files_in_walk_inside : forall cwd directory triples,
  posixpath.isabs cwd = true ->
  (forall root dirs files, In (root, dirs, files) triples ->
     exists names, forallb valid_name names = true
                   /\ root = descend directory names
                   /\ forallb valid_name files = true) ->
  exists l,
    model_files_in_walk cwd directory triples = Some l
    /\ Forall (inside_pair directory) l.
Proof.
  intros cwd directory triples Hcwd.
  induction triples as [|[[root dirs] files] rest IH]; intros Hshape.
  - exists []. split; [reflexivity|constructor].
  - destruct (Hshape root dirs files (or_introl eq_refl)) as [names [Hn [-> Hf]]].
    destruct (model_files_among_inside cwd directory names files Hcwd Hn Hf)
      as [here [Hh Hhere]].
    destruct IH as [l [Hl Hall]].
    { intros r d f Hin. apply (Hshape r d f). now right. }
    cbn [model_files_in_walk]. rewrite Hh, Hl. cbn [option_map].
    exists (here ++ l)%list. split; [reflexivity|].
    apply Forall_app. now split.
Qed.

Lemma find_model_files_inside : forall cwd directory tree,
  posixpath.isabs cwd = true -> well_named tree = true ->
  exists l,
    find_model_files cwd directory tree = Some l
    /\ Forall (inside_pair directory) l.
Proof.
  intros cwd directory tree Hcwd Hwf.
  apply model_files_in_walk_inside; [exact Hcwd|].
  intros root dirs files Hin.
  destruct (walk_triples tree directory [] root dirs files Hwf eq_refl Hin)
    as [more [Hm [Hr Hf]]].
  now exists more.
Qed.

Lemma split_valid_names : forall names,
  forallb valid_name names = true -> names <> [] ->
  Str.split posixpath.sep (Str.join "/" names) = names.
Proof.
  intros [|n rest] Hv Hne; [congruence|].
  rewrite str_join_slashed, split_slashed.
  - cbn [forallb] in Hv. apply andb_true_iff in Hv as [Hn _].
    destruct (valid_name_facts _ Hn) as [_ [Hsf _]].
    now rewrite (split_slash_free_name _ Hsf).
  - cbn [forallb] in Hv. apply andb_true_iff in Hv as [_ Hr].
    now apply valid_names_slash_free.
Qed.

(** X10: the relative path recorded for a model file never leaves the
    scanned directory: it is not absolute, and its components, the pieces
    between its slashes, are names of directory entries, none of them empty,
    [.] or [..]; the absolute path is the directory followed through these
    components. *)
Theorem relative_paths_stay_inside :
  forall (cwd directory : string) (tree : os.Dir),
    posixpath.isabs cwd = true ->
    well_named tree = true ->
    exists l,
      find_model_files cwd directory tree = Some l
      /\ forall rel_path abs_path,
           In (rel_path, abs_path) l ->
           posixpath.isabs rel_path = false
           /\ forallb valid_name (Str.split posixpath.sep rel_path) = true
           /\ abs_path = descend directory (Str.split posixpath.sep rel_path).
Proof.
  intros cwd directory tree Hcwd Hwf.
  destruct (find_model_files_inside cwd directory tree Hcwd Hwf) as [l [Hl Hall]].
  exists l. split; [exact Hl|].
  intros rel_path abs_path Hin. rewrite Forall_forall in Hall.
  destruct (Hall _ Hin) as [names [Hne [Hv [Hrel Habs]]]].
  cbn [fst snd] in Hrel, Habs. subst rel_path abs_path.
  rewrite (split_valid_names names Hv Hne).
  split; [|split; [exact Hv | reflexivity]].
  destruct names as [|n rest]; [congruence|].
  cbn [forallb] in Hv. apply andb_true_iff in Hv as [Hn _].
  destruct (valid_name_facts _ Hn) as [Hnn [Hsf _]].
  unfold posixpath.isabs. rewrite str_join_slashed, startswith_app by exact Hnn.
  now apply startswith_slash_free.
Qed.

Lemma relative_paths_stay_inside_witness :
  exists l,
    find_model_files "/home/user/app" "downloads/Toys/thing_12345" example_tree = Some l
    /\ posixpath.isabs "parts/spin.obj" = false
    /\ "downloads/Toys/thing_12345/parts/spin.obj"
       = descend "downloads/Toys/thing_12345" (Str.split posixpath.sep "parts/spin.obj").
Proof.
  destruct (relative_paths_stay_inside
              "/home/user/app" "downloads/Toys/thing_12345" example_tree
              eq_refl eq_refl) as [l [Hl Hpairs]].
  exists l. split; [exact Hl|].
  assert (Hin : In ("parts/spin.obj", "downloads/Toys/thing_12345/parts/spin.obj") l).
  { vm_compute in Hl. injection Hl as <-. simpl. tauto. }
  destruct (Hpairs _ _ Hin) as [H1 [_ H3]]. split; [exact H1 | exact H3].
Defined.

(** ** From the scanned model to the viewer *)

Lemma find_model_files_recorded : forall cwd directory tree,
  posixpath.isabs cwd = true -> well_named tree = true ->
  exists l,
    find_model_files cwd directory tree = Some l
    /\ Forall (recorded_pair directory) l.
Proof.
  intros cwd directory tree Hcwd Hwf.
  apply model_files_in_walk_pairs; [exact Hcwd|].
  intros root dirs files Hin.
  destruct (walk_triples tree directory [] root dirs files Hwf eq_refl Hin)
    as [more [Hm [Hr Hf]]].
  now exists more.
Qed.

Lemma selected_model_path_first : forall l s,
  In s (offered_names l) ->
  exists p, selected_model_path l s = Some p /\ In (s, p) l.
Proof.
  induction l as [|[name path] rest IH]; intros s Hin; [contradiction|].
  cbn [selected_model_path]. destruct (String.eqb name s) eqn:He.
  - apply String.eqb_eq in He. subst name. exists path. split; [reflexivity | now left].
  - destruct Hin as [Hin|Hin].
    + cbn [fst] in Hin. subst s. now rewrite String.eqb_refl in He.
    + destruct (IH s Hin) as [p [Hp Hi]]. exists p. split; [exact Hp | now right].
Qed.

Lemma model_extension_cases : forall x,
  mem_string x model_extensions = true -> x = ".stl" \/ x = ".obj" \/ x = ".3mf".
Proof.
  intros x. unfold mem_string, model_extensions. cbn [existsb].
  rewrite !orb_true_iff, !String.eqb_eq. intros [H|[H|[H|H]]]; [tauto ..|discriminate].
Qed.

Lemma scanned_selection : forall st cwd tree model_path model_name info selected_model,
  posixpath.isabs cwd = true -> well_named tree = true ->
  get_model_info st cwd tree model_path model_name = Some info ->
  In selected_model (offered_names (model_files info)) ->
  selected_model_path (model_files info) selected_model
  = Some (posixpath.join model_path selected_model)
  /\ is_model_name (posixpath.join model_path selected_model) = true.
Proof.
  intros st cwd tree model_path model_name info selected_model Hcwd Hwf Hi Hin.
  destruct (find_model_files_recorded cwd model_path tree Hcwd Hwf) as [l [Hl Hall]].
  unfold get_model_info in Hi. rewrite Hl in Hi.
  destruct (get_readme_content st model_path tree).
  injection Hi as <-. cbn [model_files] in *.
  destruct (selected_model_path_first l selected_model Hin) as [p [Hp Hpair]].
  rewrite Forall_forall in Hall. destruct (Hall _ Hpair) as [Hjoin [Hext _]].
  cbn [fst snd] in Hjoin, Hext. subst p. split; [exact Hp | exact Hext].
Qed.

(** X11: whichever entry of the select box is chosen for a scanned model,
    the file the viewer opens is the chosen name joined to the model
    directory; it is a path that is not empty and a model file by its
    extension. *)
Theorem viewer_opens_joined_path :
  forall (st : Storage) (cwd : string) (tree : os.Dir)
         (model_path model_name selected_model : string) (info : ModelInfo),
    posixpath.isabs cwd = true ->
    well_named tree = true ->
    get_model_info st cwd tree model_path model_name = Some info ->
    In selected_model (offered_names (model_files info)) ->
    selected_model_path (model_files info) selected_model
    = Some (posixpath.join model_path selected_model)
    /\ truthy (selected_model_path (model_files info) selected_model) = true
    /\ is_model_name (posixpath.join model_path selected_model) = true.
Proof.
  intros st cwd tree model_path model_name selected_model info Hcwd Hwf Hi Hin.
  destruct (scanned_selection st cwd tree model_path model_name info selected_model
                              Hcwd Hwf Hi Hin) as [Hsel Hext].
  split; [exact Hsel|]. split; [|exact Hext].
  rewrite Hsel. cbn [truthy].
  destruct (posixpath.join model_path selected_model); [discriminate | reflexivity].
Qed.

Lemma viewer_opens_joined_path_witness :
  exists info,
    get_model_info example_storage "/home/user/app" example_tree
                   "/dl/Toys/thing_12345" "thing_12345" = Some info
    /\ selected_model_path (model_files info) "parts/part.3MF"
       = Some "/dl/Toys/thing_12345/parts/part.3MF".
Proof.
  destruct (get_model_info example_storage "/home/user/app" example_tree
                           "/dl/Toys/thing_12345" "thing_12345") as [info|] eqn:Hi.
  - exists info. split; [reflexivity|].
    apply (viewer_opens_joined_path
             example_storage "/home/user/app" example_tree
             "/dl/Toys/thing_12345" "thing_12345" "parts/part.3MF" info
             eq_refl eq_refl Hi).
    vm_compute in Hi. injection Hi as <-. simpl. tauto.
  - vm_compute in Hi. discriminate.
Defined.

(** X12: the file chosen for a scanned model is always of a format the
    viewers know: both announce it as STL, OBJ or 3MF, and for the last two
    they do the same and parse nothing. *)
Theorem offered_files_have_known_format :
  forall (st : Storage) (cwd : string) (tree : os.Dir)
         (model_path model_name selected_model : string) (info : ModelInfo)
         (lib : Libraries) (color_option : string) (opacity' : Q),
    posixpath.isabs cwd = true ->
    well_named tree = true ->
    get_model_info st cwd tree model_path model_name = Some info ->
    In selected_model (offered_names (model_files info)) ->
    exists selected_path format,
      selected_model_path (model_files info) selected_model = Some selected_path
      /\ In format ["STL"; "OBJ"; "3MF"]
      /\ hd_error (browser_viewer lib selected_path color_option opacity')
         = Some (st_write ("File format: " ++ format))
      /\ hd_error (details_viewer lib selected_path)
         = Some (st_write ("File format: " ++ format))
      /\ (format <> "STL" ->
          browser_viewer lib selected_path color_option opacity'
          = details_viewer lib selected_path
          /\ existsb is_parse (details_viewer lib selected_path) = false).
Proof.
  intros st cwd tree model_path model_name selected_model info lib color_option
         opacity' Hcwd Hwf Hi Hin.
  destruct (scanned_selection st cwd tree model_path model_name info selected_model
                              Hcwd Hwf Hi Hin) as [Hsel Hext].
  exists (posixpath.join model_path selected_model).
  unfold is_model_name in Hext. unfold browser_viewer, details_viewer.
  destruct (model_extension_cases _ Hext) as [He|[He|He]]; rewrite He.
  - exists "STL". split; [exact Hsel|]. split; [simpl; tauto|].
    split; [reflexivity|]. split; [reflexivity|]. congruence.
  - exists "OBJ". split; [exact Hsel|]. split; [simpl; tauto|].
    split; [reflexivity|]. split; [reflexivity|]. intros _.
    split; [reflexivity|].
    change (String.eqb ".obj" ".stl") with false. cbv iota.
    cbn [existsb is_parse orb]. apply download_step_quiet.
  - exists "3MF". split; [exact Hsel|]. split; [simpl; tauto|].
    split; [reflexivity|]. split; [reflexivity|]. intros _.
    split; [reflexivity|].
    change (String.eqb ".3mf" ".stl") with false. cbv iota.
    cbn [existsb is_parse orb]. apply download_step_quiet.
Qed.

Lemma offered_files_have_known_format_witness :
  exists info selected_path format,
    get_model_info example_storage "/home/user/app" example_tree
                   "/dl/Toys/thing_12345" "thing_12345" = Some info
    /\ selected_model_path (model_files info) "parts/part.3MF" = Some selected_path
    /\ In format ["STL"; "OBJ"; "3MF"]
    /\ hd_error (browser_viewer example_libraries selected_path "Viridis" 1%Q)
       = Some (st_write ("File format: " ++ format)).
Proof.
  destruct (get_model_info example_storage "/home/user/app" example_tree
                           "/dl/Toys/thing_12345" "thing_12345") as [info|] eqn:Hi.
  - assert (Hin : In "parts/part.3MF" (offered_names (model_files info))).
    { vm_compute in Hi. injection Hi as <-. simpl. tauto. }
    destruct (offered_files_have_known_format
                example_storage "/home/user/app" example_tree
                "/dl/Toys/thing_12345" "thing_12345" "parts/part.3MF" info
                example_libraries "Viridis" 1%Q eq_refl eq_refl Hi Hin)
      as [selected_path [format [H1 [H2 [H3 _]]]]].
    exists info, selected_path, format. repeat split; assumption.
  - vm_compute in Hi. discriminate.
Defined.

(** ** What a run of the viewer shows *)




Lemma download_step_restyled : forall lib file_ext p color_option opacity',
  map (restyled color_option opacity') (download_step lib file_ext p)
  = download_step lib file_ext p.
Proof.
  intros lib file_ext p color_option opacity'. unfold download_step.
  now destruct (open_rb lib p).
Qed.


(** X14: when the first attempt on an STL file fails, the browser viewer
    reports the failure and then proceeds as the older viewer does, with the
    two selections applied to the figure. *)
Theorem failed_rendering_falls_back_to_older_viewer :
  forall (lib : Libraries) (selected_model_path color_option e : string)
         (opacity' : Q),
    Str.lower (snd (posixpath.splitext selected_model_path)) = ".stl" ->
    trimesh_block lib selected_model_path = inr e ->
    browser_viewer lib selected_model_path color_option opacity'
    = st_write "File format: STL"
        :: call_trimesh_load selected_model_path
        :: st_error ("Error rendering the STL file: " ++ e)
        :: map (restyled color_option opacity')
               (tl (details_viewer lib selected_model_path)).
Proof.
  intros lib p color_option e opacity' Hext Hfirst.
  unfold browser_viewer, details_viewer. rewrite Hext, Hfirst.
  change (String.eqb ".stl" ".stl") with true. cbv iota. cbn [tl map restyled].
  f_equal. f_equal. f_equal. f_equal.
  destruct (stl_from_file lib p) as [facets|e']; [|reflexivity].
  cbn [map restyled]. now rewrite download_step_restyled.
Qed.

Lemma failed_rendering_falls_back_to_older_viewer_witness :
  browser_viewer fallback_libraries "/dl/m/Part.STL" "Plasma" (1 # 2)%Q
  = st_write "File format: STL"
      :: call_trimesh_load "/dl/m/Part.STL"
      :: st_error ("Error rendering the STL file: " ++ "file_type 'stl' not supported")
      :: map (restyled "Plasma" (1 # 2)%Q)
             (tl (details_viewer fallback_libraries "/dl/m/Part.STL")).
Proof.
  apply (failed_rendering_falls_back_to_older_viewer
           fallback_libraries "/dl/m/Part.STL" "Plasma"
           "file_type 'stl' not supported" (1 # 2)%Q);
    reflexivity.
Defined.

(** ** Patterns that end in a literal text *)

Lemma scan_plain : forall pat rest n,
  Str.mem_char "[" pat = false ->
  fnmatch.scan (String.length pat + n) (pat ++ rest)
  = (plain_toks pat ++ fnmatch.scan n rest)%list.
Proof.
  induction pat as [|c pat IH]; intros rest n H; [reflexivity|].
  cbn [Str.mem_char] in H. apply orb_false_iff in H as [Hc Hr].
  cbn [String.length Nat.add append fnmatch.scan plain_toks app].
  unfold plain_tok.
  destruct (Ascii.eqb c "*"); [now rewrite IH|].
  destruct (Ascii.eqb c "?"); [now rewrite IH|].
  rewrite Hc. now rewrite IH.
Qed.

Lemma plain_toks_lits : forall s,
  glob.has_magic s = false -> plain_toks s = lits s.
Proof.
  induction s as [|c s IH]; intros H; [reflexivity|].
  unfold glob.has_magic in H. cbn [Str.mem_char] in H.
  apply orb_false_iff in H as [H H3]. apply orb_false_iff in H as [H1 H2].
  apply orb_false_iff in H1 as [H1 H1']. apply orb_false_iff in H2 as [H2 H2'].
  apply orb_false_iff in H3 as [H3 H3'].
  cbn [plain_toks lits]. unfold plain_tok.
  rewrite H1, H2. f_equal. apply IH.
  unfold glob.has_magic. now rewrite H1', H2', H3'.
Qed.

Lemma has_magic_bracket : forall s,
  glob.has_magic s = false -> Str.mem_char "[" s = false.
Proof.
  intros s H. unfold glob.has_magic in H.
  apply orb_false_iff in H as [_ H]. exact H.
Qed.

Lemma compress_lits : forall s, fnmatch.compress (lits s) = lits s.
Proof. induction s as [|c s IH]; [reflexivity|]. cbn. now rewrite IH. Qed.

Lemma compress_cons : forall t r,
  (t = fnmatch.STAR -> match r with fnmatch.STAR :: _ => False | _ => True end) ->
  fnmatch.compress (t :: r) = t :: fnmatch.compress r.
Proof.
  intros t r H. destruct t; try reflexivity.
  destruct r as [|[] r']; try reflexivity. now specialize (H eq_refl).
Qed.

Lemma compress_app_lits : forall ts s,
  fnmatch.compress (ts ++ lits s)%list = (fnmatch.compress ts ++ lits s)%list.
Proof.
  induction ts as [|t ts IH]; intros s.
  - cbn [app]. apply compress_lits.
  - destruct t; cbn [app].
    + destruct ts as [|t' ts'].
      * cbn [app]. destruct s as [|c s]; [reflexivity|].
        cbn [lits]. cbn [fnmatch.compress]. now rewrite compress_lits.
      * destruct t'.
        -- cbn [fnmatch.compress]. cbn [app] in IH. apply IH.
        -- rewrite !compress_cons by (intros _; exact I). cbn [app]. now rewrite <- IH.
        -- rewrite !compress_cons by (intros _; exact I). cbn [app]. now rewrite <- IH.
        -- rewrite !compress_cons by (intros _; exact I). cbn [app]. now rewrite <- IH.
    + rewrite !compress_cons by discriminate. cbn [app]. now rewrite IH.
    + rewrite !compress_cons by discriminate. cbn [app]. now rewrite IH.
    + rewrite !compress_cons by discriminate. cbn [app]. now rewrite IH.
Qed.

Lemma translate_suffix : forall pat s,
  Str.mem_char "[" pat = false -> glob.has_magic s = false ->
  fnmatch.translate (pat ++ s)
  = (fnmatch.compress (plain_toks pat) ++ lits s)%list.
Proof.
  intros pat s Hp Hs. unfold fnmatch.translate.
  rewrite string_length_app, (scan_plain pat s _ Hp).
  rewrite <- (Nat.add_0_r (String.length s)).
  rewrite <- (string_app_nil_r s) at 2.
  rewrite (scan_plain s "" 0 (has_magic_bracket s Hs)).
  cbn [fnmatch.scan]. rewrite app_nil_r, (plain_toks_lits s Hs).
  apply compress_app_lits.
Qed.

Lemma matches_star : forall ts s,
  fnmatch.matches (fnmatch.STAR :: ts) s
  = fnmatch.matches ts s
    || match s with
       | EmptyString => false
       | String _ r => fnmatch.matches (fnmatch.STAR :: ts) r
       end.
Proof. intros ts [|c r]; reflexivity. Qed.

Lemma matches_lits : forall l s, fnmatch.matches (lits l) s = true -> s = l.
Proof.
  induction l as [|c l IH]; intros s H.
  - cbn in H. now apply is_empty_true.
  - destruct s as [|ch r]; [discriminate|].
    cbn [lits fnmatch.matches fnmatch.tok_match] in H.
    apply andb_true_iff in H as [Hc Hr]. apply Ascii.eqb_eq in Hc. subst ch.
    f_equal. now apply IH.
Qed.

Lemma matches_suffix : forall ts l s,
  fnmatch.matches (ts ++ lits l)%list s = true -> exists stem, s = stem ++ l.
Proof.
  induction ts as [|t ts IH]; intros l s H.
  - cbn [app] in H. exists EmptyString. now apply matches_lits.
  - assert (Hstep : forall ch r,
               fnmatch.matches (ts ++ lits l)%list r = true ->
               exists stem, String ch r = stem ++ l).
    { intros ch r Hr. destruct (IH l r Hr) as [stem ->]. now exists (String ch stem). }
    destruct t; cbn [app] in H.
    + induction s as [|ch r IHs].
      * rewrite matches_star, orb_false_r in H. now apply IH.
      * rewrite matches_star in H. apply orb_true_iff in H as [H|H].
        -- now apply IH.
        -- destruct (IHs H) as [stem ->]. now exists (String ch stem).
    + destruct s as [|ch r]; [discriminate|].
      cbn [fnmatch.matches] in H. apply andb_true_iff in H as [_ H]. now apply Hstep.
    + destruct s as [|ch r]; [discriminate|].
      cbn [fnmatch.matches] in H. apply andb_true_iff in H as [_ H]. now apply Hstep.
    + destruct s as [|ch r]; [discriminate|].
      cbn [fnmatch.matches] in H. apply andb_true_iff in H as [_ H]. now apply Hstep.
Qed.

(** A name that matches a pattern ending in a text without wildcard ends in
    that text. *)
Lemma fnmatchcase_suffix : forall name pat s,
  Str.mem_char "[" pat = false -> glob.has_magic s = false ->
  fnmatch.fnmatchcase name (pat ++ s) = true -> exists stem, name = stem ++ s.
Proof.
  intros name pat s Hp Hs H. unfold fnmatch.fnmatchcase in H.
  rewrite (translate_suffix pat s Hp Hs) in H. now apply matches_suffix in H.
Qed.

(** ** What a thumbnail is *)

Lemma first_truthy_in : forall results p,
  first_truthy results = Some p -> In (Some p) results.
Proof.
  induction results as [|r rest IH]; intros p H; [discriminate|].
  cbn [first_truthy] in H. destruct (truthy r).
  - left. exact H.
  - right. now apply IH.
Qed.

Lemma visible_match_entry : forall st directory pattern name,
  In name (visible_matches st (listed_directory directory) pattern) ->
  In name (scandir st (scanned_directory directory))
  /\ glob._ishidden name = false
  /\ fnmatch.fnmatchcase name pattern = true.
Proof.
  intros st directory pattern name H. unfold visible_matches in H.
  apply filter_In in H as [Hin Hf]. apply andb_true_iff in Hf as [Hh Hm].
  apply negb_true_iff in Hh. repeat split; assumption.
Qed.

Lemma first_match_in_entry : forall st directory pattern p,
  first_match_in st directory pattern = Some p ->
  exists name,
    p = placed (listed_directory directory) name
    /\ In name (scandir st (scanned_directory directory))
    /\ glob._ishidden name = false
    /\ fnmatch.fnmatchcase name pattern = true.
Proof.
  intros st directory pattern p H. unfold first_match_in in H.
  apply first_sorted_least in H as [Hin _].
  apply in_map_iff in Hin as [name [<- Hname]].
  exists name. split; [reflexivity|]. now apply visible_match_entry.
Qed.

Lemma digits_bracket_free : forall s,
  all_digits s = true -> Str.mem_char "[" s = false.
Proof.
  induction s as [|c s IH]; simpl; [reflexivity|].
  intros H. apply andb_true_iff in H as [Hc Hs]. rewrite (IH Hs), orb_false_r.
  destruct (Ascii.eqb c "[") eqn:E; [|reflexivity].
  apply Ascii.eqb_eq in E. subst c. discriminate Hc.
Qed.

Lemma find_thumbnail_plain : forall st directory thing_id,
  glob.has_magic directory = false ->
  all_digits thing_id = true ->
  find_thumbnail st directory thing_id
  = first_truthy
      [ first_image_in st directory;
        first_match_in st directory "*_Thumbnail*.png";
        first_match_in st directory ("*" ++ thing_id ++ "*Thumbnail*.png");
        first_match_in st directory "*.png" ].
Proof.
  intros st directory thing_id Hd Hid.
  unfold find_thumbnail, search_strategies.
  rewrite (find_in_images_dir_plain st directory Hd).
  rewrite !find_first_match_plain; try exact Hd; try reflexivity.
  change ("*" ++ thing_id ++ "*Thumbnail*.png")
    with (String "*" (thing_id ++ "*Thumbnail*.png")).
  cbn [Str.mem_char]. rewrite mem_char_app, (digits_slash_free _ Hid).
  reflexivity.
Qed.

(** X15: in a model directory whose path holds no wildcard, the thumbnail
    found is always an entry of the model directory or of its images
    subdirectory that does not start with a dot and ends, in small letters,
    in [.png], or for an entry of the images subdirectory in [.png], [.jpg] or
    [.jpeg]. *)
Theorem thumbnail_is_a_visible_image :
  forall (st : Storage) (directory thing_id p : string),
    glob.has_magic directory = false ->
    all_digits thing_id = true ->
    find_thumbnail st directory thing_id = Some p ->
    exists folder name stem ext,
      (folder = directory /\ ext = ".png"
       \/ folder = posixpath.join directory "images"
          /\ In ext image_extensions /\ path_exists st folder = true)
      /\ p = placed (listed_directory folder) name
      /\ In name (scandir st (scanned_directory folder))
      /\ glob._ishidden name = false
      /\ name = stem ++ ext.
Proof.
  intros st directory thing_id p Hd Hid H.
  rewrite (find_thumbnail_plain st directory thing_id Hd Hid) in H.
  apply first_truthy_in in H.
  assert (Hroot : forall pat,
             Str.mem_char "[" pat = false ->
             first_match_in st directory (pat ++ ".png") = Some p ->
             exists folder name stem ext,
               (folder = directory /\ ext = ".png"
                \/ folder = posixpath.join directory "images"
                   /\ In ext image_extensions /\ path_exists st folder = true)
               /\ p = placed (listed_directory folder) name
               /\ In name (scandir st (scanned_directory folder))
               /\ glob._ishidden name = false
               /\ name = stem ++ ext).
  { intros pat Hpat Hm.
    destruct (first_match_in_entry _ _ _ _ Hm) as [name [Hp [Hin [Hh Hf]]]].
    destruct (fnmatchcase_suffix name pat ".png" Hpat eq_refl Hf) as [stem Hs].
    exists directory, name, stem, ".png". repeat split; try assumption.
    left. now split. }
  destruct H as [H|[H|[H|[H|[]]]]].
  - unfold first_image_in in H.
    destruct (path_exists st (posixpath.join directory "images")) eqn:Hex;
      [|discriminate].
    apply first_sorted_least in H as [Hin _]. unfold images_in in Hin.
    apply in_map_iff in Hin as [name [Hp Hname]].
    cbn [flat_map] in Hname. rewrite app_nil_r in Hname.
    assert (Hext : forall ext,
               glob.has_magic ext = false -> In ext image_extensions ->
               In name (visible_matches
                          st (listed_directory (posixpath.join directory "images"))
                          ("*" ++ ext)) ->
               exists folder name stem ext,
                 (folder = directory /\ ext = ".png"
                  \/ folder = posixpath.join directory "images"
                     /\ In ext image_extensions /\ path_exists st folder = true)
                 /\ p = placed (listed_directory folder) name
                 /\ In name (scandir st (scanned_directory folder))
                 /\ glob._ishidden name = false
                 /\ name = stem ++ ext).
    { intros ext Hmagic Hie Hv.
      destruct (visible_match_entry _ _ _ _ Hv) as [Hin [Hh Hf]].
      destruct (fnmatchcase_suffix name "*" ext eq_refl Hmagic Hf) as [stem Hs].
      exists (posixpath.join directory "images"), name, stem, ext.
      repeat split; try assumption; [|now symmetry].
      right. repeat split; assumption. }
    apply in_app_or in Hname as [Hname|Hname];
      [apply (Hext ".png" eq_refl); [simpl; tauto | exact Hname]|].
    apply in_app_or in Hname as [Hname|Hname];
      [apply (Hext ".jpg" eq_refl); [simpl; tauto | exact Hname]|].
    apply (Hext ".jpeg" eq_refl); [simpl; tauto | exact Hname].
  - apply (Hroot "*_Thumbnail*" eq_refl). exact H.
  - apply (Hroot ("*" ++ thing_id ++ "*Thumbnail*")).
    + change ("*" ++ thing_id ++ "*Thumbnail*")
        with (String "*" (thing_id ++ "*Thumbnail*")).
      cbn [Str.mem_char]. rewrite mem_char_app, (digits_bracket_free _ Hid).
      reflexivity.
    + rewrite <- H. f_equal.
      change ("*" ++ thing_id ++ "*Thumbnail*")
        with (String "*" (thing_id ++ "*Thumbnail*")).
      change ("*" ++ thing_id ++ "*Thumbnail*.png")
        with (String "*" (thing_id ++ "*Thumbnail*.png")).
      cbn [append]. f_equal. now rewrite string_app_assoc.
  - apply (Hroot "*" eq_refl). exact H.
Qed.

Lemma thumbnail_is_a_visible_image_witness :
  exists folder name stem ext,
    (folder = "/dl/Toys/thing_12345" /\ ext = ".png"
     \/ folder = posixpath.join "/dl/Toys/thing_12345" "images"
        /\ In ext image_extensions /\ path_exists example_storage folder = true)
    /\ "/dl/Toys/thing_12345/images/a.jpg" = placed (listed_directory folder) name
    /\ In name (scandir example_storage (scanned_directory folder))
    /\ glob._ishidden name = false
    /\ name = stem ++ ext.
Proof.
  apply (thumbnail_is_a_visible_image
           example_storage "/dl/Toys/thing_12345" "12345"
           "/dl/Toys/thing_12345/images/a.jpg" eq_refl eq_refl).
  vm_compute. reflexivity.
Defined.

(** ** What a description file is *)

Lemma walk_files_roots : forall triples root file,
  In (root, file) (walk_files triples) ->
  In root (walk_roots triples)
  /\ exists dirs files, In (root, dirs, files) triples /\ In file files.
Proof.
  intros triples root file H. unfold walk_files in H.
  apply in_flat_map in H as [[[r dirs] files] [Ht Hin]].
  cbn [fst snd] in Hin. apply in_map_iff in Hin as [f [[= <- <-] Hf]].
  split.
  - unfold walk_roots. apply in_map_iff. now exists (r, dirs, files).
  - now exists dirs, files.
Qed.

Lemma walk_root_first : forall directory tree,
  In directory (walk_roots (os.walk directory tree)).
Proof. intros directory [nondirs dirs]. left. reflexivity. Qed.

(** X16: the description file found for a model is always named as one of
    the twelve candidates, up to the case of its letters, and lies in a
    directory that the walk of the model directory visits: it is either a
    candidate that exists in the model directory itself, or a file that the
    walk lists. *)
Theorem readme_is_named_as_a_candidate :
  forall (st : Storage) (directory : string) (tree : os.Dir) (p : string),
    find_readme st directory tree = Some p ->
    exists root file,
      p = posixpath.join root file
      /\ is_readme_name file = true
      /\ In root (walk_roots (os.walk directory tree))
      /\ (root = directory /\ In file readme_patterns /\ path_exists st p = true
          \/ exists dirs files,
               In (root, dirs, files) (os.walk directory tree) /\ In file files).
Proof.
  intros st directory tree p H. unfold find_readme in H.
  rewrite readme_in_root_find in H.
  destruct (find (path_exists st) (map (posixpath.join directory) readme_patterns))
    as [q|] eqn:Hroot.
  - injection H as ->. apply find_some_in in Hroot as [Hin Hex].
    apply in_map_iff in Hin as [pattern [<- Hpat]].
    exists directory, pattern. split; [reflexivity|]. split.
    + assert (Hall : forallb is_readme_name readme_patterns = true)
        by (vm_compute; reflexivity).
      rewrite forallb_forall in Hall. now apply Hall.
    + split; [apply walk_root_first|]. left. repeat split; assumption.
  - rewrite readme_in_walk_find in H. unfold first_readme_of_walk in H.
    destruct (find (fun rf => is_readme_name (snd rf))
                   (walk_files (os.walk directory tree))) as [[root file]|] eqn:Hw;
      [|discriminate].
    injection H as <-. apply find_some_in in Hw as [Hin Hname].
    destruct (walk_files_roots _ _ _ Hin) as [Hr Hf].
    exists root, file. cbn [fst snd] in *. repeat split; try assumption.
    now right.
Qed.

Lemma readme_is_named_as_a_candidate_witness :
  exists root file,
    "/dl/Toys/thing_7/README.TXT" = posixpath.join root file
    /\ is_readme_name file = true
    /\ In root (walk_roots (os.walk "/dl/Toys/thing_7" capitals_tree)).
Proof.
  destruct (readme_is_named_as_a_candidate
              capitals_storage "/dl/Toys/thing_7" capitals_tree
              "/dl/Toys/thing_7/README.TXT" eq_refl)
    as [root [file [H1 [H2 [H3 _]]]]].
  now exists root, file.
Defined.

(** ** The normalized mesh *)

Section NormalizedMesh.

Import trimesh.
Open Scope Q_scope.

Variable center_mass : Mesh -> V3.











Lemma max_extent_before_translation : forall t m largest,
  max_extent (apply_translation t m) = Some largest ->
  exists e, max_extent m = Some e /\ largest == e.
Proof.
  intros t m largest H.
  destruct (max_extent m) as [e|] eqn:He.
  - destruct (max_extent_translation t m e He) as [e' [He' Hee]].
    rewrite He' in H. injection H as <-. now exists e.
  - exfalso. rewrite max_extent_bounds in He, H.
    unfold bounds in He.
    destruct (in_mesh m) as [|v r] eqn:Hin; [|discriminate].
    unfold bounds, apply_translation in H. rewrite in_mesh_map, Hin in H.
    discriminate.
Qed.

Lemma Forall2_map_pointwise : forall (f g : V3 -> V3) (l : list V3),
  (forall v, veq (f v) (g v)) -> Forall2 veq (map f l) (map g l).
Proof.
  intros f g l H. induction l as [|v l IH]; cbn [map]; constructor; auto.
Qed.

End NormalizedMesh.



(** X19: where the model sits does not matter to its preview: when the
    centre of mass that the library computes follows a translation of the
    mesh, the translated mesh is normalized to the same vertex positions and
    the same triangles. *)
Theorem normalize_ignores_position :
  forall (center_mass : trimesh.Mesh -> trimesh.V3) (m m1 : trimesh.Mesh)
         (t : trimesh.V3),
    trimesh.veq (center_mass (trimesh.apply_translation t m))
                (trimesh.vadd (center_mass m) t) ->
    normalize center_mass m = inl m1 ->
    exists m2,
      normalize center_mass (trimesh.apply_translation t m) = inl m2
      /\ Forall2 trimesh.veq (trimesh.vertices m2) (trimesh.vertices m1)
      /\ trimesh.faces m2 = trimesh.faces m1.
Proof.
  intros center_mass m m1 t Hc Hn.
  destruct (normalize_inl center_mass m m1 Hn) as [largest [Hl [Hpos ->]]].
  destruct (max_extent_before_translation _ _ _ Hl) as [e [He Hle]].
  destruct (max_extent_translation t m e He) as [e1 [He1 Hee1]].
  assert (Hne1 : ~ (e1 == 0)%Q) by (rewrite Hee1, <- Hle; lra).
  destruct (normalize_nonzero_extent center_mass _ e1 He1 Hne1)
    as [largest2 [Hl2 [Hle2 [Hpos2 Hn2]]]].
  eexists. split; [exact Hn2|]. split; [|reflexivity].
  unfold center, trimesh.apply_scale, trimesh.apply_translation.
  cbn [trimesh.vertices].
  rewrite !map_map. apply Forall2_map_pointwise. intros v.
  assert (Hs : (target_extent / largest2 == target_extent / largest)%Q)
    by (rewrite Hle2, Hee1, <- Hle; reflexivity).
  destruct Hc as [Hx [Hy Hz]].
  unfold trimesh.veq, trimesh.vscale, trimesh.vadd, trimesh.vneg in *.
  cbn [trimesh.vx trimesh.vy trimesh.vz fst snd] in *.
  rewrite Hs, Hx, Hy, Hz. repeat split; ring.
Qed.

Lemma normalize_ignores_position_witness :
  exists m1 m2,
    normalize trimesh.center_mass pyramid = inl m1
    /\ normalize trimesh.center_mass
                 (trimesh.apply_translation (3, -7, 1 # 2)%Q pyramid) = inl m2
    /\ Forall2 trimesh.veq (trimesh.vertices m2) (trimesh.vertices m1).
Proof.
  destruct (normalize trimesh.center_mass pyramid) as [m1|err] eqn:H1;
    [|vm_compute in H1; discriminate H1].
  assert (Hc : trimesh.veq
                 (trimesh.center_mass
                    (trimesh.apply_translation (3, -7, 1 # 2)%Q pyramid))
                 (trimesh.vadd (trimesh.center_mass pyramid) (3, -7, 1 # 2)%Q))
    by (vm_compute; repeat split; reflexivity).
  destruct (normalize_ignores_position trimesh.center_mass pyramid m1
                                       (3, -7, 1 # 2)%Q Hc H1)
    as [m2 [H2 [Hv _]]].
  exists m1, m2. repeat split; assumption.
Defined.

(** X20: the unit of the file does not matter to its preview: when the
    centre of mass that the library computes follows a scaling of the mesh
    by a positive factor, the scaled mesh is normalized to the same vertex
    positions and the same triangles. *)
Theorem normalize_ignores_unit :
  forall (center_mass : trimesh.Mesh -> trimesh.V3) (m m1 : trimesh.Mesh) (s : Q),
    (0 < s)%Q ->
    trimesh.veq (center_mass (trimesh.apply_scale s m))
                (trimesh.vscale s (center_mass m)) ->
    normalize center_mass m = inl m1 ->
    exists m2,
      normalize center_mass (trimesh.apply_scale s m) = inl m2
      /\ Forall2 trimesh.veq (trimesh.vertices m2) (trimesh.vertices m1)
      /\ trimesh.faces m2 = trimesh.faces m1.
Proof.
  intros center_mass m m1 s Hs Hc Hn.
  destruct (normalize_inl center_mass m m1 Hn) as [largest [Hl [Hpos ->]]].
  destruct (max_extent_before_translation _ _ _ Hl) as [e [He Hle]].
  destruct (max_extent_scale s m e Hs He) as [e1 [He1 Hee1]].
  assert (He0 : (0 < e)%Q) by (rewrite <- Hle; exact Hpos).
  assert (Hne1 : ~ (e1 == 0)%Q).
  { rewrite Hee1. intros H. apply Qmult_integral in H. lra. }
  destruct (normalize_nonzero_extent center_mass _ e1 He1 Hne1)
    as [largest2 [Hl2 [Hle2 [Hpos2 Hn2]]]].
  eexists. split; [exact Hn2|]. split; [|reflexivity].
  unfold center, trimesh.apply_scale, trimesh.apply_translation.
  cbn [trimesh.vertices].
  rewrite !map_map. apply Forall2_map_pointwise. intros v.
  assert (Hf : (target_extent / largest2 * s == target_extent / largest)%Q).
  { rewrite Hle2, Hee1, Hle. field. lra. }
  destruct Hc as [Hx [Hy Hz]].
  unfold trimesh.veq, trimesh.vscale, trimesh.vadd, trimesh.vneg in *.
  cbn [trimesh.vx trimesh.vy trimesh.vz fst snd] in *.
  rewrite Hx, Hy, Hz, <- Hf. repeat split; ring.
Qed.

Lemma normalize_ignores_unit_witness :
  exists m1 m2,
    normalize trimesh.center_mass pyramid = inl m1
    /\ normalize trimesh.center_mass
                 (trimesh.apply_scale (254 # 10)%Q pyramid) = inl m2
    /\ Forall2 trimesh.veq (trimesh.vertices m2) (trimesh.vertices m1).
Proof.
  destruct (normalize trimesh.center_mass pyramid) as [m1|err] eqn:H1;
    [|vm_compute in H1; discriminate H1].
  assert (Hs : (0 < 254 # 10)%Q) by reflexivity.
  assert (Hc : trimesh.veq
                 (trimesh.center_mass (trimesh.apply_scale (254 # 10)%Q pyramid))
                 (trimesh.vscale (254 # 10)%Q (trimesh.center_mass pyramid)))
    by (vm_compute; repeat split; reflexivity).
  destruct (normalize_ignores_unit trimesh.center_mass pyramid m1
                                   (254 # 10)%Q Hs Hc H1)
    as [m2 [H2 [Hv _]]].
  exists m1, m2. repeat split; assumption.
Defined.

(** ** The downloader page *)

Lemma validate_accounts : forall is_valid urls bound acts valid_urls last_bound,
  validate is_valid urls bound = (acts, valid_urls, last_bound) ->
  forallb is_error_act acts = true
  /\ List.length acts + List.length valid_urls
     = List.length (filter is_url_line urls)
  /\ Forall (fun entry =>
               In (fst entry) urls
               /\ is_url_line (fst entry) = true
               /\ is_valid (fst entry) = true
               /\ extract_thing_id (fst entry) = Some (snd entry))
            valid_urls.
Proof.
  intros is_valid. induction urls as [|url rest IH];
    intros bound acts valid_urls last_bound H.
  - injection H as <- <- _. repeat split. constructor.
  - cbn [validate] in H. cbn [filter]. unfold is_url_line at 1.
    destruct (Str.is_empty (strip url)) eqn:Hblank; cbn [negb].
    + destruct (IH _ _ _ _ H) as [H1 [H2 H3]].
      split; [exact H1|]. split; [exact H2|].
      eapply Forall_impl; [|exact H3]. intros entry [Ha Hb]. split; [now right | exact Hb].
    + destruct (is_valid url) eqn:Hvalid; cbn [negb] in H.
      * destruct (validate is_valid rest (Some (extract_thing_id url)))
          as [[acts' valid'] last'] eqn:Hrest.
        destruct (IH _ _ _ _ Hrest) as [H1 [H2 H3]].
        assert (H3' : Forall (fun entry =>
                                In (fst entry) (url :: rest)
                                /\ is_url_line (fst entry) = true
                                /\ is_valid (fst entry) = true
                                /\ extract_thing_id (fst entry) = Some (snd entry))
                             valid').
        { eapply Forall_impl; [|exact H3].
          intros entry [Ha Hb]. split; [now right | exact Hb]. }
        destruct (extract_thing_id url) as [id|] eqn:Hid.
        -- destruct (truthy (Some id)) eqn:Ht; cbn [negb] in H.
           ++ injection H as <- <- _. split; [exact H1|].
              split; [cbn [List.length]; lia|].
              constructor; [|exact H3']. cbn [fst snd or_empty].
              split; [now left|]. unfold is_url_line. rewrite Hblank.
              repeat split; assumption.
           ++ injection H as <- <- _. split; [exact H1|].
              split; [cbn [List.length]; lia | exact H3'].
        -- cbn [truthy negb] in H. injection H as <- <- _.
           split; [exact H1|]. split; [cbn [List.length]; lia | exact H3'].
      * destruct (validate is_valid rest bound) as [[acts' valid'] last'] eqn:Hrest.
        destruct (IH _ _ _ _ Hrest) as [H1 [H2 H3]].
        injection H as <- <- _. split; [exact H1|].
        split; [cbn [List.length]; lia|].
        eapply Forall_impl; [|exact H3].
        intros entry [Ha Hb]. split; [now right | exact Hb].
Qed.

(** X21: batch validation accounts for every line that is not blank: such a
    line is either accepted or answered by one error message; the accepted
    entries are lines that pass the URL test, each with the thing identifier
    read from it, a non-empty run of digits. *)
Theorem batch_validation_accounts_for_every_line :
  forall (is_valid : string -> bool) (urls : list string)
         (acts : list Act) (valid_urls : list (string * string))
         (bound : option (option string)),
    validate is_valid urls None = (acts, valid_urls, bound) ->
    forallb is_error_act acts = true
    /\ List.length acts + List.length valid_urls
       = List.length (filter is_url_line urls)
    /\ forall url thing_id,
         In (url, thing_id) valid_urls ->
         In url urls
         /\ is_url_line url = true
         /\ is_valid url = true
         /\ extract_thing_id url = Some thing_id
         /\ Str.is_empty thing_id = false
         /\ all_digits thing_id = true.
Proof.
  intros is_valid urls acts valid_urls bound H.
  destruct (validate_accounts is_valid urls None acts valid_urls bound H)
    as [H1 [H2 H3]].
  split; [exact H1|]. split; [exact H2|].
  intros url thing_id Hin. rewrite Forall_forall in H3.
  destruct (H3 _ Hin) as [Ha [Hb [Hc Hd]]]. cbn [fst snd] in *.
  destruct (extract_thing_id_digits url thing_id Hd) as [He Hg].
  repeat split; assumption.
Qed.

Lemma batch_validation_accounts_for_every_line_witness :
  exists acts valid_urls bound,
    validate site_urls (Str.split line_feed (strip example_batch)) None
    = (acts, valid_urls, bound)
    /\ List.length acts + List.length valid_urls = 3
    /\ map snd valid_urls = ["11"; "22"].
Proof.
  destruct (validate site_urls (Str.split line_feed (strip example_batch)) None)
    as [[acts valid_urls] bound] eqn:Hv.
  exists acts, valid_urls, bound. split; [reflexivity|].
  destruct (batch_validation_accounts_for_every_line
              site_urls (Str.split line_feed (strip example_batch))
              acts valid_urls bound Hv) as [_ [H2 _]].
  split; [rewrite H2; vm_compute; reflexivity|].
  vm_compute in Hv. injection Hv as _ <- _. reflexivity.
Defined.

Lemma fetched_errors : forall acts,
  forallb is_error_act acts = true -> flat_map fetched acts = [].
Proof.
  induction acts as [|a acts IH]; [reflexivity|].
  cbn [forallb flat_map]. intros H. apply andb_true_iff in H as [Ha Hr].
  rewrite (IH Hr). now destruct a.
Qed.

Lemma fetched_batch_loop : forall dae category_dir valid_urls i total,
  flat_map fetched (batch_loop dae category_dir i total valid_urls)
  = map (fetch_of category_dir) (map snd valid_urls).
Proof.
  intros dae category_dir. induction valid_urls as [|[url thing_id] rest IH];
    intros i total; [reflexivity|].
  cbn [batch_loop flat_map fetched app map snd]. rewrite IH.
  unfold fetch_of at 2.
  now destruct (dae (get_download_url thing_id)
                    (posixpath.join category_dir (model_dir_name thing_id))).
Qed.

(** X22: a batch download downloads its last thing twice: the page goes
    on, after the loop over the valid URLs, into the code of the single
    download, which finds in [thing_id] the identifier of the last valid
    URL; the downloads started are those of the valid URLs in their order,
    then that of the last one again. *)
Theorem batch_downloads_last_thing_twice :
  forall (is_valid : string -> bool) (dae : string -> string -> bool + string)
         (downloads_dir selected_category thingiverse_url batch_urls : string)
         (acts : list Act) (front : list (string * string))
         (url thing_id : string) (bound : option (option string)),
    Str.is_empty (strip batch_urls) = false ->
    validate is_valid (Str.split line_feed (strip batch_urls)) None
    = (acts, (front ++ [(url, thing_id)])%list, bound) ->
    let category_dir := posixpath.join downloads_dir selected_category in
    let page :=
      download_pressed is_valid dae downloads_dir selected_category
                       thingiverse_url batch_urls in
    flat_map fetched (fst page)
    = (map (fetch_of category_dir) (map snd front)
       ++ [fetch_of category_dir thing_id; fetch_of category_dir thing_id])%list
    /\ snd page = page_finished.
Proof.
  intros is_valid dae downloads_dir selected_category thingiverse_url batch_urls
         acts front url thing_id bound Hne Hv category_dir page.
  subst page. unfold download_pressed. fold category_dir.
  rewrite Hne. cbn [negb]. rewrite Hv.
  destruct (validate_accounts _ _ _ _ _ _ Hv) as [Herr _].
  unfold bound_after_loop. rewrite rev_unit. cbn [fst snd].
  split; [|reflexivity].
  destruct (front ++ [(url, thing_id)])%list as [|x rest] eqn:Hl;
    [destruct front; discriminate|].
  cbv iota. rewrite <- Hl.
  rewrite !flat_map_app, (fetched_errors acts Herr), fetched_batch_loop.
  cbn [flat_map fetched app single_download formatted].
  rewrite !map_app. cbn [map snd].
  repeat rewrite <- app_assoc. cbn [app]. reflexivity.
Qed.

Lemma batch_downloads_last_thing_twice_witness :
  flat_map fetched
           (fst (download_pressed site_urls every_download_succeeds
                                  "/dl" "Toys" "" example_batch))
  = [ fetch_of "/dl/Toys" "11"; fetch_of "/dl/Toys" "22"; fetch_of "/dl/Toys" "22" ].
Proof.
  destruct (validate site_urls (Str.split line_feed (strip example_batch)) None)
    as [[acts valid_urls] bound] eqn:Hv.
  assert (Hl : valid_urls
               = ([("https://www.thingiverse.com/thing:11", "11")]
                  ++ [("https://www.thingiverse.com/thing:22", "22")])%list)
    by (vm_compute in Hv; injection Hv as _ <- _; reflexivity).
  rewrite Hl in Hv.
  exact (proj1 (batch_downloads_last_thing_twice
                  site_urls every_download_succeeds "/dl" "Toys" "" example_batch
                  acts [("https://www.thingiverse.com/thing:11", "11")]
                  "https://www.thingiverse.com/thing:22" "22" bound
                  eq_refl Hv)).
Defined.

Lemma falsy_thing_id : forall url,
  truthy (extract_thing_id url) = false -> extract_thing_id url = None.
Proof.
  intros url H. destruct (extract_thing_id url) as [d|] eqn:Hd; [|reflexivity].
  destruct (extract_thing_id_digits url d Hd) as [He _].
  cbn [truthy] in H. rewrite He in H. discriminate.
Qed.

Lemma validate_none_valid : forall is_valid urls bound acts last_bound,
  validate is_valid urls bound = (acts, [], last_bound) ->
  last_bound
  = match filter (fun url => is_url_line url && is_valid url) urls with
    | [] => bound
    | _ :: _ => Some None
    end.
Proof.
  intros is_valid. induction urls as [|url rest IH]; intros bound acts last_bound H.
  - now injection H as _ <-.
  - cbn [validate] in H. cbn [filter]. unfold is_url_line at 1.
    destruct (Str.is_empty (strip url)); cbn [negb andb].
    + now apply (IH bound acts).
    + destruct (is_valid url); cbn [negb] in H.
      * destruct (validate is_valid rest (Some (extract_thing_id url)))
          as [[acts' valid'] last'] eqn:Hrest.
        destruct (truthy (extract_thing_id url)) eqn:Ht; cbn [negb] in H;
          [discriminate|].
        injection H as _ -> ->.
        rewrite (falsy_thing_id url Ht) in Hrest.
        rewrite (IH _ _ _ Hrest).
        now destruct (filter (fun url0 => is_url_line url0 && is_valid url0) rest).
      * destruct (validate is_valid rest bound) as [[acts' valid'] last'] eqn:Hrest.
        injection H as _ -> ->. now apply (IH bound acts').
Qed.

(** X23: a batch in which no URL is valid does not stop after its messages:
    when no line passes the URL test the page fails where it reads the thing
    identifier that was never assigned; when a line passes the test and no
    identifier can be read from it, the page goes on to download a thing
    named [None]. *)
Theorem batch_without_valid_url :
  forall (is_valid : string -> bool) (dae : string -> string -> bool + string)
         (downloads_dir selected_category thingiverse_url batch_urls : string)
         (acts : list Act) (bound : option (option string)),
    Str.is_empty (strip batch_urls) = false ->
    validate is_valid (Str.split line_feed (strip batch_urls)) None
    = (acts, [], bound) ->
    let category_dir := posixpath.join downloads_dir selected_category in
    let page :=
      download_pressed is_valid dae downloads_dir selected_category
                       thingiverse_url batch_urls in
    let passing :=
      filter (fun url => is_url_line url && is_valid url)
             (Str.split line_feed (strip batch_urls)) in
    (passing = [] ->
     page = ([act_makedirs downloads_dir; act_makedirs category_dir]
               ++ acts ++ [act_found 0],
             page_unbound_thing_id)%list)
    /\ (passing <> [] ->
        flat_map fetched (fst page) = [fetch_of category_dir "None"]
        /\ snd page = page_finished).
Proof.
  intros is_valid dae downloads_dir selected_category thingiverse_url batch_urls
         acts bound Hne Hv category_dir page passing.
  pose proof (validate_none_valid _ _ _ _ _ Hv) as Hb. fold passing in Hb.
  destruct (validate_accounts _ _ _ _ _ _ Hv) as [Herr _].
  subst page. unfold download_pressed. fold category_dir.
  rewrite Hne. cbn [negb]. rewrite Hv. unfold bound_after_loop. cbn [rev List.length].
  split.
  - intros Hp. rewrite Hp in Hb. subst bound. now rewrite app_nil_r.
  - intros Hp. destruct passing as [|u r]; [congruence|]. subst bound.
    cbn [fst snd]. split; [|reflexivity].
    rewrite !flat_map_app, (fetched_errors acts Herr). reflexivity.
Qed.

Lemma batch_without_valid_url_witness :
  flat_map fetched
           (fst (download_pressed site_urls every_download_succeeds "/dl" "Toys" ""
                                  "https://www.thingiverse.com/about"))
  = [fetch_of "/dl/Toys" "None"].
Proof.
  destruct (validate site_urls
                     (Str.split line_feed (strip "https://www.thingiverse.com/about"))
                     None) as [[acts valid_urls] bound] eqn:Hv.
  assert (Hl : valid_urls = [])
    by (vm_compute in Hv; injection Hv as _ <- _; reflexivity).
  rewrite Hl in Hv.
  apply (batch_without_valid_url
           site_urls every_download_succeeds "/dl" "Toys" ""
           "https://www.thingiverse.com/about" acts bound eq_refl Hv).
  discriminate.
Defined.

(** ** The categories offered for a download *)

Lemma count_occ_filter_out : forall (l : list string) (x : string) (f : string -> bool),
  f x = false -> count_occ string_dec (filter f l) x = 0.
Proof.
  intros l x f Hx. apply count_occ_not_In. intros Hin.
  apply filter_In in Hin as [_ Hf]. congruence.
Qed.

(** X24: the select box of the downloader offers the default category
    first and once, whether or not a directory of that name exists, then
    every directory of the downloads directory, in listing order, and the
    entry that creates a category last. *)
Theorem downloader_categories_shape :
  forall (st : Storage) (downloads_dir : string) (categories : list string),
    downloader_categories st downloads_dir = Some categories ->
    hd_error categories = Some "Uncategorized"
    /\ count_occ string_dec categories "Uncategorized" = 1
    /\ last categories "" = "+ Create new category"
    /\ (forall item,
           path_exists st downloads_dir = true ->
           In item (scandir st downloads_dir) ->
           path_isdir st (posixpath.join downloads_dir item) = true ->
           In item categories)
    /\ (forall item,
           In item categories ->
           item = "Uncategorized" \/ item = "+ Create new category"
           \/ (In item (scandir st downloads_dir)
               /\ path_isdir st (posixpath.join downloads_dir item) = true)).
Proof.
  intros st downloads_dir categories H. unfold downloader_categories in H.
  set (keep := fun item =>
                 path_isdir st (posixpath.join downloads_dir item)
                 && negb (String.eqb item "Uncategorized")) in H.
  assert (Hshape : exists items,
             categories = ("Uncategorized" :: items ++ ["+ Create new category"])%list
             /\ count_occ string_dec items "Uncategorized" = 0
             /\ (forall item, In item items ->
                              In item (scandir st downloads_dir)
                              /\ path_isdir st (posixpath.join downloads_dir item) = true)
             /\ (forall item,
                    path_exists st downloads_dir = true ->
                    In item (scandir st downloads_dir) ->
                    keep item = true -> In item items)).
  { destruct (path_exists st downloads_dir).
    - unfold listdir in H. destruct (path_isdir st downloads_dir); [|discriminate].
      cbn [option_map] in H. injection H as <-.
      exists (filter keep (scandir st downloads_dir)). split; [reflexivity|].
      split; [apply count_occ_filter_out; subst keep; cbn;
              now rewrite andb_false_r|].
      split.
      + intros item Hin. apply filter_In in Hin as [Hin Hk].
        subst keep. cbn in Hk. apply andb_true_iff in Hk as [Hk _]. now split.
      + intros item _ Hin Hk. apply filter_In. now split.
    - cbn [option_map] in H. injection H as <-. exists []. split; [reflexivity|].
      split; [reflexivity|]. split; [intros item []|]. intros item Hf. discriminate. }
  destruct Hshape as [items [-> [Hcount [Hfrom Hinto]]]].
  split; [reflexivity|]. split.
  - cbn [count_occ]. destruct (string_dec "Uncategorized" "Uncategorized");
      [|congruence].
    rewrite count_occ_app, Hcount. reflexivity.
  - split.
    + change ("Uncategorized" :: items ++ ["+ Create new category"])%list
        with (("Uncategorized" :: items) ++ ["+ Create new category"])%list.
      apply last_last.
    + split.
      * intros item Hex Hin Hdir.
        destruct (String.eqb item "Uncategorized") eqn:He.
        -- apply String.eqb_eq in He. subst item. now left.
        -- right. apply in_or_app. left. apply (Hinto item Hex Hin).
           subst keep. cbn. now rewrite Hdir, He.
      * intros item [Hin|Hin]; [left; now symmetry|].
        apply in_app_or in Hin as [Hin|[Hin|[]]].
        -- right. right. now apply Hfrom.
        -- right. left. now symmetry.
Qed.

Lemma downloader_categories_shape_witness :
  exists categories,
    downloader_categories library_storage "/dl" = Some categories
    /\ count_occ string_dec categories "Uncategorized" = 1
    /\ In "Tools" categories.
Proof.
  destruct (downloader_categories library_storage "/dl") as [categories|] eqn:H;
    [|vm_compute in H; discriminate H].
  destruct (downloader_categories_shape library_storage "/dl" categories H)
    as [_ [H2 [_ [H4 _]]]].
  exists categories. split; [reflexivity|]. split; [exact H2|].
  apply (H4 "Tools"); [reflexivity | simpl; tauto | reflexivity].
Defined.

(** ** A model looked up by name *)








(** ** Export and statistics *)

Lemma export_models_entries : forall st cwd walk_of category_path models entries,
  export_models st cwd walk_of category_path models = Some entries ->
  map export_name entries
  = filter (fun model => path_isdir st (posixpath.join category_path model)) models
  /\ Forall (fun entry =>
               export_path entry = posixpath.join category_path (export_name entry)
               /\ path_isdir st (export_path entry) = true
               /\ export_download_date entry = ""
               /\ exists info,
                    get_model_info st cwd (walk_of (export_path entry))
                                   (export_path entry) (export_name entry) = Some info
                    /\ export_thing_id entry = thing_id info
                    /\ export_model_count entry = model_count info)
            entries.
Proof.
  intros st cwd walk_of category_path.
  induction models as [|model rest IH]; intros entries H.
  - injection H as <-. split; [reflexivity | constructor].
  - cbn [export_models] in H. cbn [filter].
    destruct (path_isdir st (posixpath.join category_path model)) eqn:Hdir;
      [|now apply IH].
    destruct (get_model_info st cwd _ _ model) as [info|] eqn:Hi; [|discriminate].
    destruct (export_models st cwd walk_of category_path rest) as [entries'|];
      [|discriminate].
    injection H as <-. destruct (IH entries' eq_refl) as [Hn Hall].
    split; [cbn [map export_name]; now rewrite Hn|].
    constructor; [|exact Hall].
    cbn [export_path export_name export_download_date export_thing_id
         export_model_count].
    split; [reflexivity|]. split; [exact Hdir|]. split; [reflexivity|].
    exists info. split; [exact Hi|]. split; reflexivity.
Qed.

Lemma dict_set_new : forall (V : Type) (k : string) (v : V) (d : list (string * V)),
  ~ In k (map fst d) -> dict_set k v d = (d ++ [(k, v)])%list.
Proof.
  intros V k v. induction d as [|[k' v'] d IH]; intros Hk; [reflexivity|].
  cbn [dict_set app]. destruct (String.eqb k' k) eqn:He.
  - apply String.eqb_eq in He. subst k'. exfalso. apply Hk. now left.
  - f_equal. apply IH. intros Hin. apply Hk. now right.
Qed.

Lemma export_categories_items : forall st cwd walk_of downloads_dir categories d0 d,
  NoDup categories ->
  (forall category, In category categories -> ~ In category (map fst d0)) ->
  export_categories st cwd walk_of downloads_dir categories d0 = Some d ->
  exists items,
    d = (d0 ++ items)%list
    /\ map fst items
       = filter (fun category => path_isdir st (posixpath.join downloads_dir category))
                categories
    /\ Forall (fun item =>
                 export_models st cwd walk_of
                               (posixpath.join downloads_dir (fst item))
                               (scandir st (posixpath.join downloads_dir (fst item)))
                 = Some (snd item))
              items.
Proof.
  intros st cwd walk_of downloads_dir.
  induction categories as [|category rest IH]; intros d0 d Hnd Hfresh H.
  - injection H as <-. exists []. split; [now rewrite app_nil_r|].
    split; [reflexivity | constructor].
  - cbn [export_categories] in H. cbn [filter].
    apply NoDup_cons_iff in Hnd as [Hnotin Hnd].
    assert (Hfresh' : forall c, In c rest -> ~ In c (map fst d0))
      by (intros c Hc; apply Hfresh; now right).
    destruct (path_isdir st (posixpath.join downloads_dir category)) eqn:Hdir;
      [|now apply IH].
    unfold listdir in H. rewrite Hdir in H.
    destruct (export_models st cwd walk_of (posixpath.join downloads_dir category)
                            (scandir st (posixpath.join downloads_dir category)))
      as [entries|] eqn:He; [|discriminate].
    rewrite dict_set_new in H by (apply Hfresh; now left).
    destruct (IH (d0 ++ [(category, entries)])%list d Hnd)
      as [items [Hd [Hk Hall]]]; [|exact H|].
    + intros c Hc Hin. rewrite map_app in Hin. apply in_app_or in Hin as [Hin|Hin].
      * now apply (Hfresh' c Hc).
      * cbn in Hin. destruct Hin as [<-|[]]. contradiction.
    + exists ((category, entries) :: items). split.
      * rewrite Hd, <- app_assoc. reflexivity.
      * split; [cbn [map fst]; now rewrite Hk|].
        constructor; [exact He | exact Hall].
Qed.

Lemma count_models_sum : forall st downloads_dir categories model_count,
  (forall category, In category categories ->
                    path_isdir st (posixpath.join downloads_dir category) = true) ->
  count_models st downloads_dir categories model_count
  = Some (model_count
          + list_sum
              (map (fun category =>
                      List.length
                        (filter (fun model =>
                                   path_isdir st (posixpath.join
                                                    (posixpath.join downloads_dir category)
                                                    model))
                                (scandir st (posixpath.join downloads_dir category))))
                   categories)).
Proof.
  intros st downloads_dir. induction categories as [|category rest IH];
    intros model_count Hdirs.
  - cbn. now rewrite Nat.add_0_r.
  - cbn [count_models map list_sum fold_right].
    unfold subdirectories, listdir. rewrite (Hdirs category (or_introl eq_refl)).
    cbn [option_map]. rewrite IH by (intros c Hc; apply Hdirs; now right).
    f_equal. unfold list_sum. lia.
Qed.

Lemma map_through_fst : forall (A B C : Type) (f : A * B -> C) (g : A -> C)
                               (items : list (A * B)),
  Forall (fun item => f item = g (fst item)) items ->
  map f items = map g (map fst items).
Proof.
  intros A B C f g items H. induction H as [|item items Hi _ IH]; [reflexivity|].
  cbn [map]. now rewrite Hi, IH.
Qed.

(** X26: the export lists what the statistics count: for a downloads
    directory whose listing holds no name twice, an export that succeeds
    has one item for each category directory, in listing order, holding one
    entry for each model directory of that category, with its path; the
    numbers of categories and of models shown in the sidebar are the
    numbers of items and of entries of the export. *)
Theorem export_lists_what_statistics_count :
  forall (st : Storage) (cwd : string) (walk_of : string -> os.Dir)
         (downloads_dir : string) (d : list (string * list ExportEntry)),
    NoDup (scandir st downloads_dir) ->
    path_exists st downloads_dir = true ->
    export_collection st cwd walk_of downloads_dir = Some d ->
    subdirectories st downloads_dir = Some (map fst d)
    /\ statistics st downloads_dir = Some (List.length d, exported_models d)
    /\ forall category entries,
         In (category, entries) d ->
         subdirectories st (posixpath.join downloads_dir category)
         = Some (map export_name entries)
         /\ forall entry,
              In entry entries ->
              export_path entry
              = posixpath.join (posixpath.join downloads_dir category)
                               (export_name entry)
              /\ export_download_date entry = "".
Proof.
  intros st cwd walk_of downloads_dir d Hnd Hex H.
  unfold export_collection in H. rewrite Hex in H.
  unfold listdir in H.
  destruct (path_isdir st downloads_dir) eqn:Hdir; [|discriminate].
  destruct (export_categories_items st cwd walk_of downloads_dir _ [] d Hnd)
    as [items [Hd [Hk Hall]]]; [intros c _ []|exact H|].
  cbn [app] in Hd. subst items.
  assert (Hsub : subdirectories st downloads_dir = Some (map fst d)).
  { unfold subdirectories, listdir. rewrite Hdir. cbn [option_map]. now rewrite Hk. }
  assert (Hcat : forall category entries,
             In (category, entries) d ->
             path_isdir st (posixpath.join downloads_dir category) = true
             /\ map export_name entries
                = filter (fun model =>
                            path_isdir st (posixpath.join
                                             (posixpath.join downloads_dir category)
                                             model))
                         (scandir st (posixpath.join downloads_dir category))
             /\ forall entry,
                  In entry entries ->
                  export_path entry
                  = posixpath.join (posixpath.join downloads_dir category)
                                   (export_name entry)
                  /\ export_download_date entry = "").
  { intros category entries Hin.
    assert (Hc : In category (map fst d))
      by (apply in_map_iff; now exists (category, entries)).
    rewrite Hk in Hc. apply filter_In in Hc as [_ Hc].
    rewrite Forall_forall in Hall. pose proof (Hall _ Hin) as He. cbn [fst snd] in He.
    destruct (export_models_entries _ _ _ _ _ _ He) as [Hn Hentries].
    split; [exact Hc|]. split; [exact Hn|].
    intros entry Hentry. rewrite Forall_forall in Hentries.
    destruct (Hentries _ Hentry) as [Hp [_ [Hdate _]]]. now split. }
  split; [exact Hsub|]. split.
  - unfold statistics. rewrite Hsub. rewrite count_models_sum.
    + cbn [option_map]. rewrite length_map. f_equal. f_equal. cbn [Nat.add].
      unfold exported_models. f_equal. symmetry.
      apply (map_through_fst _ _ _
               (fun item => List.length (snd item))
               (fun category =>
                  List.length
                    (filter (fun model =>
                               path_isdir st (posixpath.join
                                                (posixpath.join downloads_dir category)
                                                model))
                            (scandir st (posixpath.join downloads_dir category))))).
      apply Forall_forall. intros [category entries] Hin. cbn [fst snd].
      destruct (Hcat category entries Hin) as [_ [Hn _]].
      now rewrite <- Hn, length_map.
    + intros category Hc. rewrite Hk in Hc. now apply filter_In in Hc as [_ Hc].
  - intros category entries Hin.
    destruct (Hcat category entries Hin) as [Hc [Hn Hentries]].
    split; [|exact Hentries].
    unfold subdirectories, listdir. rewrite Hc. cbn [option_map]. now rewrite Hn.
Qed.

Lemma export_lists_what_statistics_count_witness :
  exists d,
    export_collection library_storage "/" library_walk "/dl" = Some d
    /\ map fst d = ["Toys"; "Uncategorized"; "Tools"]
    /\ statistics library_storage "/dl" = Some (List.length d, exported_models d)
    /\ exported_models d = 3.
Proof.
  destruct (export_collection library_storage "/" library_walk "/dl")
    as [d|] eqn:Hd; [|vm_compute in Hd; discriminate Hd].
  assert (Hnd : NoDup (scandir library_storage "/dl")).
  { cbn. repeat constructor; simpl; intuition discriminate. }
  destruct (export_lists_what_statistics_count
              library_storage "/" library_walk "/dl" d Hnd eq_refl Hd)
    as [_ [Hs _]].
  exists d. split; [reflexivity|].
  split; [vm_compute in Hd; injection Hd as <-; reflexivity|].
  split; [exact Hs|].
  vm_compute in Hd. injection Hd as <-. reflexivity.
Defined.

